(** * mllm: the tensor container and the aligned allocator

    A shallow embedding of [src/Tensor.hpp] (class [mllm::Tensor]) and of
    [src/memory/SystemMemoryManager.cpp], with the properties of the
    layout engine, the shape/buffer container, the view subsystem, the
    aggregation subsystem and the aligned allocator.

    Conventions of the embedding:
    - a C++ [int] is a [Z]; arithmetic on it is written with the wrap-around
      of a 32-bit two's complement integer ([wrap_int]);
    - a [size_t] or a pointer is a [Z] in [0, 2^64) (LP64);
    - a [std::vector<int>] is a [list Z]; reading it at an index outside the
      vector has no defined behaviour in C++ and is the error [OutOfBounds];
    - a failed [assert] is the error [AssertFailed];
    - a [Tensor *] is an address into a store of tensors, so that the two
      tensors of [deepCopyFrom] may alias. *)

From Stdlib Require Import ZArith Lia Bool List.
From stdpp Require Import base decidable option list gmap.

Local Open Scope Z_scope.

(** ** Results of fallible code *)

Inductive error : Set :=
| AssertFailed      (* an [assert] of the source does not hold *)
| OutOfBounds       (* a vector is read outside its elements *)
| DivisionByZero    (* [/] or [%] with a zero divisor *)
| NullDeref         (* a pointer that designates no tensor is followed *)
| InvalidFree       (* [::free] of an address that is not a live block *)
| InvalidatedIterator (* a vector is erased from while it is iterated *)
| NotModelled.      (* code outside [src/] about which the spec is silent *)

Inductive result (A : Type) : Type :=
| Ok (a : A)
| Err (e : error).
Arguments Ok {A} a.
Arguments Err {A} e.

#[global] Instance result_ret : MRet result := fun _ a => Ok a.
#[global] Instance result_bind : MBind result := fun _ _ f m =>
  match m with
  | Ok a => f a
  | Err e => Err e
  end.

Definition assert (b : bool) : result unit :=
  if b then Ok tt else Err AssertFailed.

(** ** Machine integers *)

Definition INT_MAX : Z := 2147483647.
Definition INT_MIN : Z := -2147483648.

Definition wrap_int (z : Z) : Z := (z + 2 ^ 31) mod 2 ^ 32 - 2 ^ 31.

Definition int_add (a b : Z) : Z := wrap_int (a + b).
Definition int_sub (a b : Z) : Z := wrap_int (a - b).
Definition int_mul (a b : Z) : Z := wrap_int (a * b).

(** C++ [/] and [%] truncate towards zero. *)
Definition int_div (a b : Z) : result Z :=
  if b =? 0 then Err DivisionByZero else Ok (wrap_int (Z.quot a b)).
Definition int_rem (a b : Z) : result Z :=
  if b =? 0 then Err DivisionByZero else Ok (wrap_int (Z.rem a b)).

Definition in_int (z : Z) : Prop := INT_MIN <= z <= INT_MAX.

(** [v[i]] on a [std::vector<int>]: the index is converted to [size_t], so a
    negative [int] designates no element. *)
Definition vec_at (v : list Z) (i : Z) : result Z :=
  if 0 <=? i then
    match v !! Z.to_nat i with
    | Some x => Ok x
    | None => Err OutOfBounds
    end
  else Err OutOfBounds.

(** [v.size()] *)
Definition vec_size {A : Type} (v : list A) : Z := Z.of_nat (length v).

(** ** Enumerations of [Types.hpp] *)

(** Modelled from the spec: the enum [ChlType] is declared in [Types.hpp],
    which is not part of the sources at hand; the spec lists three tags for
    4-axis tensors and two for 5-axis tensors. *)
Inductive ChlType : Set := BSHD | BHDS | SBHD | BCTHW | BTHWC.

(** Modelled from the spec: the enum [Chl] is declared in [Types.hpp]; the
    spec lists the logical axes and the routing modes.  [CHANNLE] is the
    spelling of the source. *)
Inductive Chl : Set :=
| BATCH | HEAD | SEQUENCE | DIMENSION
| CHANNLE | TIME | HEIGHT | WIDTH | THW
| D_HD | HD.

(** Modelled from the spec: the enum [DataType] is declared in [Types.hpp];
    the source names these three element kinds. *)
Inductive DataType : Set := MLLM_TYPE_F32 | MLLM_TYPE_F16 | MLLM_TYPE_Q4_K.

#[global] Instance ChlType_eq_dec : EqDecision ChlType.
Proof. solve_decision. Defined.
#[global] Instance Chl_eq_dec : EqDecision Chl.
Proof. solve_decision. Defined.
#[global] Instance DataType_eq_dec : EqDecision DataType.
Proof. solve_decision. Defined.

(** ** The class [Tensor] *)

(** Addresses: [0] is [nullptr]. *)
Definition ptr : Set := Z.
Definition nullptr : ptr := 0.

Record Tensor : Set := mkTensor {
  dtype_ : DataType;
  ctype_ : ChlType;
  backend_ : ptr;
  host_ptr_ : ptr;
  shape_ : list Z;
  capacity_ : Z;
  count_ : Z;
  allocated_ : Z;
  transed_ : bool;
  (* used for ChildTensor *)
  shape_offset_ : list Z;
  shape_master_ : list Z;
  master_tensor_ : ptr;
  child_tensors_ : list ptr;
  undiffusion_ : bool;
  (* used for AggregatedTensor *)
  aggregated_ : bool;
  aggregated_tensors_ : list ptr;
  aggregated_dim_ : Chl;
  aggregated_dims_ : list Z
}.

(** Assignments to one member. *)
Definition set_dtype (x : DataType) (t : Tensor) : Tensor :=
  mkTensor x (ctype_ t) (backend_ t) (host_ptr_ t) (shape_ t) (capacity_ t)
    (count_ t) (allocated_ t) (transed_ t) (shape_offset_ t) (shape_master_ t)
    (master_tensor_ t) (child_tensors_ t) (undiffusion_ t) (aggregated_ t)
    (aggregated_tensors_ t) (aggregated_dim_ t) (aggregated_dims_ t).
Definition set_ctype (x : ChlType) (t : Tensor) : Tensor :=
  mkTensor (dtype_ t) x (backend_ t) (host_ptr_ t) (shape_ t) (capacity_ t)
    (count_ t) (allocated_ t) (transed_ t) (shape_offset_ t) (shape_master_ t)
    (master_tensor_ t) (child_tensors_ t) (undiffusion_ t) (aggregated_ t)
    (aggregated_tensors_ t) (aggregated_dim_ t) (aggregated_dims_ t).
Definition set_host_ptr (x : ptr) (t : Tensor) : Tensor :=
  mkTensor (dtype_ t) (ctype_ t) (backend_ t) x (shape_ t) (capacity_ t)
    (count_ t) (allocated_ t) (transed_ t) (shape_offset_ t) (shape_master_ t)
    (master_tensor_ t) (child_tensors_ t) (undiffusion_ t) (aggregated_ t)
    (aggregated_tensors_ t) (aggregated_dim_ t) (aggregated_dims_ t).
Definition set_shape (x : list Z) (t : Tensor) : Tensor :=
  mkTensor (dtype_ t) (ctype_ t) (backend_ t) (host_ptr_ t) x (capacity_ t)
    (count_ t) (allocated_ t) (transed_ t) (shape_offset_ t) (shape_master_ t)
    (master_tensor_ t) (child_tensors_ t) (undiffusion_ t) (aggregated_ t)
    (aggregated_tensors_ t) (aggregated_dim_ t) (aggregated_dims_ t).
Definition set_capacity (x : Z) (t : Tensor) : Tensor :=
  mkTensor (dtype_ t) (ctype_ t) (backend_ t) (host_ptr_ t) (shape_ t) x
    (count_ t) (allocated_ t) (transed_ t) (shape_offset_ t) (shape_master_ t)
    (master_tensor_ t) (child_tensors_ t) (undiffusion_ t) (aggregated_ t)
    (aggregated_tensors_ t) (aggregated_dim_ t) (aggregated_dims_ t).
Definition set_count (x : Z) (t : Tensor) : Tensor :=
  mkTensor (dtype_ t) (ctype_ t) (backend_ t) (host_ptr_ t) (shape_ t)
    (capacity_ t) x (allocated_ t) (transed_ t) (shape_offset_ t)
    (shape_master_ t) (master_tensor_ t) (child_tensors_ t) (undiffusion_ t)
    (aggregated_ t) (aggregated_tensors_ t) (aggregated_dim_ t)
    (aggregated_dims_ t).
Definition set_allocated (x : Z) (t : Tensor) : Tensor :=
  mkTensor (dtype_ t) (ctype_ t) (backend_ t) (host_ptr_ t) (shape_ t)
    (capacity_ t) (count_ t) x (transed_ t) (shape_offset_ t)
    (shape_master_ t) (master_tensor_ t) (child_tensors_ t) (undiffusion_ t)
    (aggregated_ t) (aggregated_tensors_ t) (aggregated_dim_ t)
    (aggregated_dims_ t).
Definition set_transed (x : bool) (t : Tensor) : Tensor :=
  mkTensor (dtype_ t) (ctype_ t) (backend_ t) (host_ptr_ t) (shape_ t)
    (capacity_ t) (count_ t) (allocated_ t) x (shape_offset_ t)
    (shape_master_ t) (master_tensor_ t) (child_tensors_ t) (undiffusion_ t)
    (aggregated_ t) (aggregated_tensors_ t) (aggregated_dim_ t)
    (aggregated_dims_ t).
Definition set_shape_offset (x : list Z) (t : Tensor) : Tensor :=
  mkTensor (dtype_ t) (ctype_ t) (backend_ t) (host_ptr_ t) (shape_ t)
    (capacity_ t) (count_ t) (allocated_ t) (transed_ t) x
    (shape_master_ t) (master_tensor_ t) (child_tensors_ t) (undiffusion_ t)
    (aggregated_ t) (aggregated_tensors_ t) (aggregated_dim_ t)
    (aggregated_dims_ t).
Definition set_shape_master (x : list Z) (t : Tensor) : Tensor :=
  mkTensor (dtype_ t) (ctype_ t) (backend_ t) (host_ptr_ t) (shape_ t)
    (capacity_ t) (count_ t) (allocated_ t) (transed_ t) (shape_offset_ t)
    x (master_tensor_ t) (child_tensors_ t) (undiffusion_ t)
    (aggregated_ t) (aggregated_tensors_ t) (aggregated_dim_ t)
    (aggregated_dims_ t).
Definition set_master_tensor (x : ptr) (t : Tensor) : Tensor :=
  mkTensor (dtype_ t) (ctype_ t) (backend_ t) (host_ptr_ t) (shape_ t)
    (capacity_ t) (count_ t) (allocated_ t) (transed_ t) (shape_offset_ t)
    (shape_master_ t) x (child_tensors_ t) (undiffusion_ t)
    (aggregated_ t) (aggregated_tensors_ t) (aggregated_dim_ t)
    (aggregated_dims_ t).
Definition set_child_tensors (x : list ptr) (t : Tensor) : Tensor :=
  mkTensor (dtype_ t) (ctype_ t) (backend_ t) (host_ptr_ t) (shape_ t)
    (capacity_ t) (count_ t) (allocated_ t) (transed_ t) (shape_offset_ t)
    (shape_master_ t) (master_tensor_ t) x (undiffusion_ t)
    (aggregated_ t) (aggregated_tensors_ t) (aggregated_dim_ t)
    (aggregated_dims_ t).
Definition set_undiffusion (x : bool) (t : Tensor) : Tensor :=
  mkTensor (dtype_ t) (ctype_ t) (backend_ t) (host_ptr_ t) (shape_ t)
    (capacity_ t) (count_ t) (allocated_ t) (transed_ t) (shape_offset_ t)
    (shape_master_ t) (master_tensor_ t) (child_tensors_ t) x
    (aggregated_ t) (aggregated_tensors_ t) (aggregated_dim_ t)
    (aggregated_dims_ t).

(** *** Shape accessors *)

(** [shape_.size()], converted to the [int] that is returned. *)
Definition numAxes (t : Tensor) : Z := wrap_int (vec_size (shape_ t)).

Definition canonicalAxisIndex (t : Tensor) (axis_index : Z) : Z :=
  if axis_index <? 0 then int_add axis_index (numAxes t) else axis_index.

(** The private [shape(int index)]. *)
Definition shape (t : Tensor) (index : Z) : result Z :=
  vec_at (shape_ t) (canonicalAxisIndex t index).

Definition legacyShape (t : Tensor) (index : Z) : result Z :=
  if (numAxes t <=? index) || (index <? - numAxes t) then Ok 1
  else shape t index.

Definition batch (t : Tensor) : result Z :=
  if decide (ctype_ t = SBHD) then legacyShape t 1 else legacyShape t 0.

Definition head (t : Tensor) : result Z :=
  match ctype_ t with
  | BSHD => legacyShape t 2
  | BHDS => legacyShape t 1
  | SBHD => legacyShape t 2
  | _ => Ok (-1)
  end.

Definition sequence (t : Tensor) : result Z :=
  match ctype_ t with
  | BSHD => legacyShape t 1
  | BHDS => legacyShape t 3
  | SBHD => legacyShape t 0
  | _ => Ok (-1)
  end.

Definition dimension (t : Tensor) : result Z :=
  match ctype_ t with
  | BSHD => legacyShape t 3
  | BHDS => legacyShape t 2
  | SBHD => legacyShape t 3
  | _ => Ok (-1)
  end.

Definition is_5d (c : ChlType) : bool :=
  match c with BCTHW | BTHWC => true | _ => false end.

Definition channel (t : Tensor) : result Z :=
  assert (is_5d (ctype_ t));;
  match ctype_ t with
  | BCTHW => legacyShape t 1
  | BTHWC => legacyShape t 4
  | _ => Ok (-1)
  end.

Definition time (t : Tensor) : result Z :=
  assert (is_5d (ctype_ t));;
  match ctype_ t with
  | BCTHW => legacyShape t 2
  | BTHWC => legacyShape t 1
  | _ => Ok (-1)
  end.

Definition height (t : Tensor) : result Z :=
  assert (is_5d (ctype_ t));;
  match ctype_ t with
  | BCTHW => legacyShape t 3
  | BTHWC => legacyShape t 2
  | _ => Ok (-1)
  end.

Definition width (t : Tensor) : result Z :=
  assert (is_5d (ctype_ t));;
  match ctype_ t with
  | BCTHW => legacyShape t 4
  | BTHWC => legacyShape t 3
  | _ => Ok (-1)
  end.

(** *** The layout engine: [offset] *)

(** [((x0 * n1 + x1) * n2 + x2) * n3 + x3] in [int] arithmetic. *)
Definition nest4 (x0 n1 x1 n2 x2 n3 x3 : Z) : Z :=
  int_add (int_mul (int_add (int_mul (int_add (int_mul x0 n1) x1) n2) x2) n3) x3.

Definition offset (t : Tensor) (b h s d : Z) : result Z :=
  if (vec_size (shape_offset_ t) =? 4) && (vec_size (shape_master_ t) =? 4) then
    base_batch_ ← vec_at (shape_master_ t) 0;
    base_head_ ← vec_at (shape_master_ t) 1;
    base_sequence_ ← vec_at (shape_master_ t) 2;
    base_dimension_ ← vec_at (shape_master_ t) 3;
    o0 ← vec_at (shape_offset_ t) 0;
    o1 ← vec_at (shape_offset_ t) 1;
    o2 ← vec_at (shape_offset_ t) 2;
    o3 ← vec_at (shape_offset_ t) 3;
    b_ ← int_rem (int_add b o0) base_batch_;
    h_ ← int_rem (int_add h o1) base_head_;
    s_ ← int_rem (int_add s o2) base_sequence_;
    d_ ← int_rem (int_add d o3) base_dimension_;
    match ctype_ t with
    | BSHD => Ok (nest4 b_ base_sequence_ s_ base_head_ h_ base_dimension_ d_)
    | BHDS => Ok (nest4 b_ base_head_ h_ base_dimension_ d_ base_sequence_ s_)
    | SBHD => Ok (nest4 s_ base_batch_ b_ base_head_ h_ base_dimension_ d_)
    | _ => Ok (-1)
    end
  else
    match ctype_ t with
    | BSHD =>
        n1 ← vec_at (shape_ t) 1; n2 ← vec_at (shape_ t) 2; n3 ← vec_at (shape_ t) 3;
        Ok (nest4 b n1 s n2 h n3 d)
    | BHDS =>
        n1 ← vec_at (shape_ t) 1; n2 ← vec_at (shape_ t) 2; n3 ← vec_at (shape_ t) 3;
        Ok (nest4 b n1 h n2 d n3 s)
    | SBHD =>
        n1 ← vec_at (shape_ t) 1; n2 ← vec_at (shape_ t) 2; n3 ← vec_at (shape_ t) 3;
        Ok (nest4 s n1 b n2 h n3 d)
    | _ => Ok (-1)
    end.

(** *** The shape/buffer container: [reshape], [free], the destructor *)

(** The body of the loop of the private [reshape(const vector<int> &)]:
    [count] is the running [count_]. *)
Fixpoint reshape_loop (shape : list Z) (count : Z) : result Z :=
  match shape with
  | [] => Ok count
  | x :: rest =>
      assert (0 <=? x);;
      (if negb (count =? 0) then assert (x <=? Z.quot INT_MAX count) else Ok tt);;
      reshape_loop rest (int_mul count x)
  end.

(** The private [reshape(const vector<int> &shape)]; the boolean is the
    value returned. *)
Definition reshape (t : Tensor) (shape : list Z) : result (Tensor * bool) :=
  assert (vec_size shape <=? 32);;
  count ← reshape_loop shape 1;
  let t := set_shape shape (set_count count t) in
  if capacity_ t <? count_ t then Ok (set_capacity (count_ t) t, true)
  else Ok (t, false).

(** Modelled from the spec: the public 4-argument [reshape] is declared in
    [Tensor.hpp] and defined in [Tensor.cpp], which is not part of the
    sources at hand.  Following the spec's table of physical nesting orders
    it stores the four logical extents in the order of the current tag and
    calls the private [reshape]; the table has no 4-axis row for the two
    5-axis tags. *)
Definition nesting4 (c : ChlType) (b h s d : Z) : result (list Z) :=
  match c with
  | BSHD => Ok [b; s; h; d]
  | BHDS => Ok [b; h; d; s]
  | SBHD => Ok [s; b; h; d]
  | _ => Err NotModelled
  end.

(** Modelled from the spec: the 4-argument [reshape] of [Tensor.cpp], as
    described above [nesting4]; the private [reshape] it ends in is the
    source's. *)
Definition reshape4 (t : Tensor) (b h s d : Z) : result (Tensor * bool) :=
  shape ← nesting4 (ctype_ t) b h s d;
  reshape t shape.

(** Modelled from the spec: the public 5-argument [reshape], defined in
    [Tensor.cpp] as well; same table, 5-axis rows. *)
Definition nesting5 (c : ChlType) (b ch tm h w : Z) : result (list Z) :=
  match c with
  | BCTHW => Ok [b; ch; tm; h; w]
  | BTHWC => Ok [b; tm; h; w; ch]
  | _ => Err NotModelled
  end.

(** Modelled from the spec: the 5-argument [reshape] of [Tensor.cpp], as
    described above [nesting5]. *)
Definition reshape5 (t : Tensor) (b ch tm h w : Z) : result (Tensor * bool) :=
  shape ← nesting5 (ctype_ t) b ch tm h w;
  reshape t shape.

Definition masterTensor (t : Tensor) : ptr := master_tensor_ t.

(** [free()]: the tensor afterwards and the pointers handed to
    [backend_->free], in order. *)
Definition free (t : Tensor) : Tensor * list ptr :=
  if aggregated_ t then (t, [])
  else if negb (host_ptr_ t =? nullptr) && (masterTensor t =? nullptr) then
    (set_allocated 0 (set_host_ptr nullptr t), [host_ptr_ t])
  else (t, []).

(** [~Tensor()]: the members at the end of the destructor's body and the
    pointers handed to [backend_->free]. *)
Definition Tensor_dtor (t : Tensor) : Tensor * list ptr :=
  if negb (host_ptr_ t =? nullptr) && (masterTensor t =? nullptr)
     && negb (aggregated_ t) then
    (set_host_ptr nullptr t, [host_ptr_ t])
  else (t, []).

(** What the members say about the buffer: the condition under which the
    source releases it. *)
Definition owns_buffer (t : Tensor) : Prop :=
  host_ptr_ t ≠ nullptr ∧ masterTensor t = nullptr ∧ aggregated_ t = false.

(** *** The layout engine: [transShape] *)

Definition transShape (t : Tensor) (dim_a dim_b : Chl) (undiffusion : bool)
  : result Tensor :=
  if decide (dim_a = SEQUENCE ∧ dim_b = DIMENSION ∧ ctype_ t = BSHD) then
    b ← batch t; h ← head t; d ← dimension t; s ← sequence t;
    r ← reshape4 (set_ctype BHDS t) b h s d;
    Ok (set_undiffusion undiffusion (set_transed true r.1))
  else if decide (THW = dim_a ∧ dim_b = CHANNLE ∧ ctype_ t = BCTHW) then
    b ← batch t; c ← channel t; tm ← time t; h ← height t; w ← width t;
    r ← reshape5 (set_ctype BTHWC t) b c tm h w;
    Ok (set_undiffusion undiffusion (set_transed true r.1))
  else if decide (dim_a = BATCH ∧ dim_b = SEQUENCE ∧ ctype_ t = BSHD) then
    b ← batch t; h ← head t; d ← dimension t; s ← sequence t;
    r ← reshape4 (set_ctype SBHD t) b h s d;
    Ok (set_undiffusion undiffusion (set_transed true r.1))
  else Ok t.

(** ** Tensors behind pointers *)

Definition load (σ : gmap Z Tensor) (p : ptr) : result Tensor :=
  match σ !! p with
  | Some t => Ok t
  | None => Err NullDeref
  end.

(** *** The aggregation subsystem: [checkDim] *)

(** The search loops of [checkDim]: [a] is the loop counter and the result
    is [tensor_id], which stays [-1] when no entry exceeds [x]. *)
Fixpoint checkDim_search (dims : list Z) (x : Z) (a : Z) : Z :=
  match dims with
  | [] => -1
  | y :: rest => if x <? y then a else checkDim_search rest x (a + 1)
  end.

(** The value returned by [checkDim] and the four indices it was given by
    reference, as it leaves them. *)
Record Routed : Set := mkRouted {
  tensor_id : Z; r_b : Z; r_h : Z; r_s : Z; r_d : Z
}.

Definition checkDim (σ : gmap Z Tensor) (t : Tensor) (b h s d : Z)
  : result Routed :=
  if negb (aggregated_ t) then Ok (mkRouted (-1) b h s d)
  else
    match aggregated_dim_ t with
    | HEAD =>
        let id := checkDim_search (aggregated_dims_ t) h 0 in
        prev ← vec_at (aggregated_dims_ t) (int_sub id 1);
        Ok (mkRouted id b (int_sub h prev) s d)
    | SEQUENCE =>
        let id := checkDim_search (aggregated_dims_ t) s 0 in
        prev ← vec_at (aggregated_dims_ t) (int_sub id 1);
        Ok (mkRouted id b h (int_sub s prev) d)
    | DIMENSION =>
        let id := checkDim_search (aggregated_dims_ t) d 0 in
        prev ← vec_at (aggregated_dims_ t) (int_sub id 1);
        Ok (mkRouted id b h s (int_sub d prev))
    | D_HD =>
        p0 ← vec_at (aggregated_tensors_ t) 0;
        t0 ← load σ p0;
        dim_size ← dimension t0;
        let aggregated_size := vec_size (aggregated_tensors_ t) in
        h_ ← int_div d (int_mul dim_size aggregated_size);
        d_m ← int_rem d (int_mul dim_size aggregated_size);
        id ← int_div d_m dim_size;
        d' ← int_rem d_m dim_size;
        Ok (mkRouted id b h_ s d')
    | HD =>
        p0 ← vec_at (aggregated_tensors_ t) 0;
        t0 ← load σ p0;
        dim_size ← dimension t0;
        head_size ← head t0;
        id ← int_div d (int_mul dim_size head_size);
        let r := int_sub d (int_mul id (int_mul dim_size head_size)) in
        h' ← int_div r dim_size;
        d' ← int_rem r dim_size;
        Ok (mkRouted id b h' s d')
    | _ => Ok (mkRouted (-1) b h s d)
    end.

(** *** The view subsystem: [deepCopyFrom] *)

Definition setMasterTensor (master_tensor : ptr) (t : Tensor) : Tensor :=
  set_master_tensor master_tensor t.

Definition addChildTensor (child : ptr) (t : Tensor) : Tensor :=
  set_child_tensors (child_tensors_ t ++ [child]) t.

(** The guard of the tag reconciliation, on the child [t] and its master
    [m]. *)
Definition reconciles (t m : Tensor) : bool :=
  negb (bool_decide (ctype_ t = BCTHW)) && negb (bool_decide (ctype_ t = BTHWC))
  && negb (bool_decide (ctype_ t = ctype_ m)) && negb (undiffusion_ t).

(** The tag reconciliation of [deepCopyFrom], once [master_tensor_] is set:
    the [if] that follows [setMasterTensor(source)]. *)
Definition deepCopyFrom_reconcile (σ : gmap Z Tensor) (this : ptr)
  : result (gmap Z Tensor) :=
  t ← load σ this;
  m ← load σ (master_tensor_ t);
  if reconciles t m then
    if transed_ t then
      b ← batch m; h ← head m; d ← dimension m; s ← sequence m;
      r ← reshape4 (set_ctype (ctype_ t) m) b h s d;
      Ok (<[master_tensor_ t := r.1]> σ)
    else
      b ← batch t; h ← head t; d ← dimension t; s ← sequence t;
      r ← reshape4 (set_ctype (ctype_ m) t) b h s d;
      Ok (<[this := r.1]> σ)
  else Ok σ.

(** The members copied from the master: the six assignments that follow
    the reconciliation.  [src] is read once: when the two tensors are one
    object each assignment assigns a member to itself. *)
Definition deepCopyFrom_members (copyshape : bool) (src t : Tensor) : Tensor :=
  let t := set_host_ptr (host_ptr_ src) t in
  let t := set_capacity (capacity_ src) t in
  let t := set_count (count_ src) t in
  let t := if copyshape then set_shape (shape_ src) t else t in
  let t := set_allocated (allocated_ src) t in
  set_dtype (dtype_ src) t.

(** The window: the block under [if (!shape_offset.empty())].  The
    accessors read [ctype_] and [shape_] only, which the block leaves
    alone, so [src] and [t] may be read before the assignments. *)
Definition deepCopyFrom_window (shape_offset : list Z) (head_rep : Z)
    (src t : Tensor) : result Tensor :=
  sb ← batch src; sh ← head src; ss ← sequence src; sd ← dimension src;
  th ← head t;
  let t := set_shape_master [sb; sh; ss; sd] (set_shape_offset shape_offset t) in
  if negb (sh =? th) then
    if (th =? 1) && (head_rep =? 1) then
      q ← int_div (int_mul sd sh) th;
      Ok (set_shape_master [sb; th; ss; q] t)
    else if (th =? 1) && (1 <? head_rep) then
      q ← int_div (int_mul sd sh) head_rep;
      Ok (set_shape_master [sb; th; ss; q] t)
    else Ok t
  else Ok t.

(** [deepCopyFrom] up to the loop over [child_tensors_]. *)
Definition deepCopyFrom_bind (σ : gmap Z Tensor) (this source : ptr)
    (copyshape : bool) (shape_offset : list Z) (head_rep : Z)
  : result (gmap Z Tensor) :=
  let copyshape :=
    if negb (bool_decide (shape_offset = [])) then false else copyshape in
  t ← load σ this;
  let σ := <[this := setMasterTensor source t]> σ in
  σ ← deepCopyFrom_reconcile σ this;
  t ← load σ this;
  src ← load σ source;
  let σ := <[this := deepCopyFrom_members copyshape src t]> σ in
  if negb (bool_decide (shape_offset = [])) then
    t ← load σ this;
    src ← load σ source;
    t ← deepCopyFrom_window shape_offset head_rep src t;
    Ok (<[this := t]> σ)
  else Ok σ.

(** [deepCopyFrom].  The loop over [child_tensors_] erases from the vector
    it iterates over, which invalidates the iterators of the range-[for]:
    the loop is defined only when it has nothing to iterate over. *)
Definition deepCopyFrom (σ : gmap Z Tensor) (this source : ptr)
    (copyshape : bool) (shape_offset : list Z) (head_rep : Z)
  : result (gmap Z Tensor) :=
  σ ← deepCopyFrom_bind σ this source copyshape shape_offset head_rep;
  t ← load σ this;
  match child_tensors_ t with
  | [] =>
      src ← load σ source;
      Ok (<[source := addChildTensor this src]> σ)
  | _ :: _ => Err InvalidatedIterator
  end.

(** ** [SystemMemoryManager]: the aligned allocator *)

Module SystemMemoryManager.

(** [size_t] arithmetic. *)
Definition wrap_size (z : Z) : Z := z mod 2 ^ 64.

(** The size of a pointer, [sizeof] of [void] pointer. *)
Definition sizeof_ptr : Z := 8.

(** The C heap: the bytes of the address space and the blocks that
    [malloc] has handed out and that are not freed, with their sizes. *)
Record heap : Type := mkHeap {
  bytes : Z → Z;
  blocks : gmap Z Z
}.

(** A pointer-sized store and load, little endian, byte by byte. *)
Fixpoint store_bytes (n : nat) (m : Z → Z) (a v : Z) : Z → Z :=
  match n with
  | O => m
  | S n' =>
      store_bytes n' (fun x => if x =? a then v mod 256 else m x)
        (a + 1) (v / 256)
  end.

Fixpoint load_bytes (n : nat) (m : Z → Z) (a : Z) : Z :=
  match n with
  | O => 0
  | S n' => m a + 256 * load_bytes n' m (a + 1)
  end.

Definition store_ptr (m : Z → Z) (a v : Z) : Z → Z := store_bytes 8 m a v.
Definition load_ptr (m : Z → Z) (a : Z) : Z := load_bytes 8 m a.

(** [malloc(n)], given the address [origin] that it returns ([nullptr]
    when it fails). *)
Definition malloc (h : heap) (origin : ptr) (n : Z) : heap :=
  if origin =? nullptr then h
  else mkHeap (bytes h) (<[origin := n]> (blocks h)).

(** [::free(p)] *)
Definition libc_free (h : heap) (p : ptr) : result heap :=
  if p =? nullptr then Ok h
  else
    match blocks h !! p with
    | Some _ => Ok (mkHeap (bytes h) (delete p (blocks h)))
    | None => Err InvalidFree
    end.

(** [alloc(ptr, size, alignment)]: the value left in [*ptr] and the heap
    afterwards. *)
Definition alloc (h : heap) (origin : ptr) (size alignment : Z)
  : result (ptr * heap) :=
  assert (0 <? size);;
  let h := malloc h origin (wrap_size (size + sizeof_ptr + alignment - 1)) in
  assert (negb (origin =? nullptr));;
  let aligned :=
    Z.land (wrap_size (origin + sizeof_ptr + alignment - 1))
           (wrap_size (Z.lnot (wrap_size (alignment - 1)))) in
  let h := mkHeap (store_ptr (bytes h) (aligned - sizeof_ptr) origin)
                  (blocks h) in
  Ok (aligned, h).

(** [free(ptr)] *)
Definition free (h : heap) (p : ptr) : result heap :=
  libc_free h (load_ptr (bytes h) (p - sizeof_ptr)).

(** The static helper [align(ptr, alignment)]: the sum is pointer
    arithmetic and [-alignment] is negation in [size_t]. *)
Definition align (p : ptr) (alignment : Z) : ptr :=
  Z.land (wrap_size (p + alignment - 1)) (wrap_size (- alignment)).

End SystemMemoryManager.

(** ** Sample tensors *)

(** A tensor as the constructors leave it, with the given tag, shape vector
    and element count. *)
Definition plain (c : ChlType) (shape : list Z) (count : Z) : Tensor :=
  mkTensor MLLM_TYPE_F32 c nullptr nullptr shape count count 0 false
    [] [] nullptr [] false false [] BATCH [].

(** The same tensor once a buffer at [p] is allocated for it. *)
Definition owner (c : ChlType) (shape : list Z) (count : Z) (p : ptr) : Tensor :=
  set_allocated 1 (set_host_ptr p (plain c shape count)).

(** A window into a master of logical extents [master]: the child of a
    [deepCopyFrom] with an offset vector. *)
Definition window (c : ChlType) (shape offsets master : list Z) (m p : ptr)
  : Tensor :=
  set_master_tensor m
    (set_shape_master master (set_shape_offset offsets (owner c shape 0 p))).

(** An aggregate over the tensors at [ts], along [dim], with the table of
    cumulative extents [dims]. *)
Definition aggregate (c : ChlType) (shape : list Z) (ts : list ptr)
    (dim : Chl) (dims : list Z) : Tensor :=
  mkTensor MLLM_TYPE_F32 c nullptr nullptr shape 0 0 0 false
    [] [] nullptr [] false true ts dim dims.

(** ** The table of physical nesting orders *)

(** The table of the spec (section 4.1), read as: the position of a logical
    axis in the shape vector under a tag.  The accessors of the source are
    compared with it below. *)
Definition spec_physical_axis (c : ChlType) (a : Chl) : option Z :=
  match c, a with
  | BSHD, BATCH => Some 0 | BSHD, SEQUENCE => Some 1
  | BSHD, HEAD => Some 2 | BSHD, DIMENSION => Some 3
  | BHDS, BATCH => Some 0 | BHDS, HEAD => Some 1
  | BHDS, DIMENSION => Some 2 | BHDS, SEQUENCE => Some 3
  | SBHD, SEQUENCE => Some 0 | SBHD, BATCH => Some 1
  | SBHD, HEAD => Some 2 | SBHD, DIMENSION => Some 3
  | BCTHW, BATCH => Some 0 | BCTHW, CHANNLE => Some 1 | BCTHW, TIME => Some 2
  | BCTHW, HEIGHT => Some 3 | BCTHW, WIDTH => Some 4
  | BTHWC, BATCH => Some 0 | BTHWC, TIME => Some 1 | BTHWC, HEIGHT => Some 2
  | BTHWC, WIDTH => Some 3 | BTHWC, CHANNLE => Some 4
  | _, _ => None
  end.

(** The logical accessor of the source for an axis. *)
Definition accessor (a : Chl) (t : Tensor) : result Z :=
  match a with
  | BATCH => batch t
  | HEAD => head t
  | SEQUENCE => sequence t
  | DIMENSION => dimension t
  | CHANNLE => channel t
  | TIME => time t
  | HEIGHT => height t
  | WIDTH => width t
  | _ => Err NotModelled
  end.

(** ** The vocabulary of the properties *)

(** The product of the axis sizes. *)
Definition shape_product (shape : list Z) : Z := foldr Z.mul 1 shape.

(** The axis sizes are non-negative and no running product, started at
    [count], leaves the range of [int]. *)
Fixpoint valid_shape_from (count : Z) (shape : list Z) : Prop :=
  match shape with
  | [] => True
  | x :: rest =>
      0 <= x ∧ count * x <= INT_MAX ∧ valid_shape_from (count * x) rest
  end.

Definition valid_shape (shape : list Z) : Prop := valid_shape_from 1 shape.

(** The tensor that a successful [reshape] leaves. *)
Definition reshaped (t : Tensor) (shape : list Z) : Tensor :=
  let t := set_shape shape (set_count (shape_product shape) t) in
  if capacity_ t <? count_ t then set_capacity (count_ t) t else t.

(** Digits [x0 x1 x2 x3] in the radices [n0 n1 n2 n3]. *)
Definition digits (n0 n1 n2 n3 x0 x1 x2 x3 : Z) : Prop :=
  0 <= x0 < n0 ∧ 0 <= x1 < n1 ∧ 0 <= x2 < n2 ∧ 0 <= x3 < n3.

(** The index tuples of a tensor of logical extents [(B, H, S, D)]. *)
Definition valid_index (B H S D b h s d : Z) : Prop :=
  0 <= b < B ∧ 0 <= h < H ∧ 0 <= s < S ∧ 0 <= d < D.

(** [k] is the first slot of [dims] whose entry exceeds [x]. *)
Definition first_slot_above (dims : list Z) (x : Z) (k : nat) : Prop :=
  (∃ y, dims !! k = Some y ∧ x < y) ∧
  (∀ (j : nat) (y : Z), (j < k)%nat → dims !! j = Some y → y <= x).

(** The three simple modes share one shape: [routed_index] is the index
    they search the table for and [route_to] writes the local index back. *)
Definition simple_mode (dim : Chl) : Prop :=
  dim = HEAD ∨ dim = SEQUENCE ∨ dim = DIMENSION.

Definition routed_index (dim : Chl) (b h s d : Z) : Z :=
  match dim with HEAD => h | SEQUENCE => s | _ => d end.

Definition route_to (dim : Chl) (id b h s d x : Z) : Routed :=
  match dim with
  | HEAD => mkRouted id b x s d
  | SEQUENCE => mkRouted id b h x d
  | _ => mkRouted id b h s x
  end.

(** The tensor [t] can be laid out under the tag [c] as [shape]: its
    logical extents, in the nesting order of [c], are a shape that
    [reshape] accepts. *)
Definition relayable (c : ChlType) (t : Tensor) (shape : list Z) : Prop :=
  ∃ b h s d,
    batch t = Ok b ∧ head t = Ok h ∧ sequence t = Ok s ∧ dimension t = Ok d ∧
    nesting4 c b h s d = Ok shape ∧ valid_shape shape.

(** The logical extents of a tensor, when every accessor returns. *)
Definition extents (t : Tensor) : result (Z * Z * Z * Z) :=
  b ← batch t; h ← head t; s ← sequence t; d ← dimension t; Ok (b, h, s, d).

(** A store with a child at address 1 and a master at address 2. *)
Definition two_tensors (child master : Tensor) : gmap Z Tensor :=
  <[1 := child]> (<[2 := master]> ∅).

(** The aggregate of the spec's example: constituents of 2, 3 and 1 rows
    along SEQUENCE, so the cumulative table [2, 5, 6]. *)
Definition table_2_5_6 : Tensor :=
  aggregate BSHD [1; 6; 2; 4] [7; 8; 9] SEQUENCE [2; 5; 6].

(** ** More of [Tensor] *)

(** Assignments to the members of an aggregate. *)
Definition set_aggregated (x : bool) (t : Tensor) : Tensor :=
  mkTensor (dtype_ t) (ctype_ t) (backend_ t) (host_ptr_ t) (shape_ t)
    (capacity_ t) (count_ t) (allocated_ t) (transed_ t) (shape_offset_ t)
    (shape_master_ t) (master_tensor_ t) (child_tensors_ t) (undiffusion_ t)
    x (aggregated_tensors_ t) (aggregated_dim_ t) (aggregated_dims_ t).
Definition set_aggregated_tensors (x : list ptr) (t : Tensor) : Tensor :=
  mkTensor (dtype_ t) (ctype_ t) (backend_ t) (host_ptr_ t) (shape_ t)
    (capacity_ t) (count_ t) (allocated_ t) (transed_ t) (shape_offset_ t)
    (shape_master_ t) (master_tensor_ t) (child_tensors_ t) (undiffusion_ t)
    (aggregated_ t) x (aggregated_dim_ t) (aggregated_dims_ t).
Definition set_aggregated_dim (x : Chl) (t : Tensor) : Tensor :=
  mkTensor (dtype_ t) (ctype_ t) (backend_ t) (host_ptr_ t) (shape_ t)
    (capacity_ t) (count_ t) (allocated_ t) (transed_ t) (shape_offset_ t)
    (shape_master_ t) (master_tensor_ t) (child_tensors_ t) (undiffusion_ t)
    (aggregated_ t) (aggregated_tensors_ t) x (aggregated_dims_ t).
Definition set_aggregated_dims (x : list Z) (t : Tensor) : Tensor :=
  mkTensor (dtype_ t) (ctype_ t) (backend_ t) (host_ptr_ t) (shape_ t)
    (capacity_ t) (count_ t) (allocated_ t) (transed_ t) (shape_offset_ t)
    (shape_master_ t) (master_tensor_ t) (child_tensors_ t) (undiffusion_ t)
    (aggregated_ t) (aggregated_tensors_ t) (aggregated_dim_ t) x.

(** *** [offset(const vector<int> &indices)] *)

(** The loop of the vector form of [offset], over the axes it visits:
    [offset *= shape(i)], then [offset += indices[i]] when the index vector
    reaches that far. *)
Fixpoint offset_indices_loop (axes indices : list Z) (offset : Z) : Z :=
  match axes with
  | [] => offset
  | n :: axes' =>
      let offset := int_mul offset n in
      match indices with
      | [] => offset_indices_loop axes' [] offset
      | i :: indices' => offset_indices_loop axes' indices' (int_add offset i)
      end
  end.

(** The loop runs while [i < numAxes()], so over the first [numAxes()]
    entries of [shape_]. *)
Definition offset_indices (t : Tensor) (indices : list Z) : result Z :=
  if (vec_size (shape_offset_ t) =? 4) && (vec_size (shape_master_ t) =? 4) then
    i0 ← vec_at indices 0; i1 ← vec_at indices 1;
    i2 ← vec_at indices 2; i3 ← vec_at indices 3;
    offset t i0 i1 i2 i3
  else
    Ok (offset_indices_loop (take (Z.to_nat (numAxes t)) (shape_ t)) indices 0).

(** *** The 5-index [offset] *)

(** [(((x0 * n1 + x1) * n2 + x2) * n3 + x3) * n4 + x4] in [int]
    arithmetic. *)
Definition nest5 (x0 n1 x1 n2 x2 n3 x3 n4 x4 : Z) : Z :=
  int_add (int_mul (nest4 x0 n1 x1 n2 x2 n3 x3) n4) x4.

Definition offset5 (t : Tensor) (b c tm h w : Z) : result Z :=
  assert (is_5d (ctype_ t));;
  match ctype_ t with
  | BCTHW =>
      nc ← channel t; nt ← time t; nh ← height t; nw ← width t;
      Ok (nest5 b nc c nt tm nh h nw w)
  | BTHWC =>
      nt ← time t; nh ← height t; nw ← width t; nc ← channel t;
      Ok (nest5 b nt tm nh h nw w nc c)
  | _ => Ok (-1)
  end.

(** *** Element access: [ptrAt], [dataAt], [setDataAt] *)

(** The host memory seen at one element type [Dtype] of size [sz]: the
    element stored at each address.  An aggregate forwards to a constituent,
    which may be an aggregate again: the recursion is bounded by [fuel], and
    [None] is a recursion deeper than [fuel]. *)

(** The routing step the three accessors share: [checkDim], then
    [aggregated_tensors_[tensor_id]]. *)
Definition route (σ : gmap Z Tensor) (t : Tensor) (b h s d : Z)
  : result (Routed * Tensor) :=
  r ← checkDim σ t b h s d;
  p ← vec_at (aggregated_tensors_ t) (tensor_id r);
  t' ← load σ p;
  Ok (r, t').

Fixpoint ptrAt (fuel : nat) (sz : Z) (σ : gmap Z Tensor) (t : Tensor)
    (b h s d : Z) : option (result ptr) :=
  if negb (aggregated_ t) then
    Some (o ← offset t b h s d; Ok (host_ptr_ t + sz * o))
  else
    match fuel with
    | O => None
    | S fuel' =>
        match route σ t b h s d with
        | Ok (r, t') => ptrAt fuel' sz σ t' (r_b r) (r_h r) (r_s r) (r_d r)
        | Err e => Some (Err e)
        end
    end.

Fixpoint dataAt {Dtype : Type} (fuel : nat) (sz : Z) (m : Z → Dtype)
    (σ : gmap Z Tensor) (t : Tensor) (b h s d : Z) : option (result Dtype) :=
  if negb (aggregated_ t) then
    Some (o ← offset t b h s d; Ok (m (host_ptr_ t + sz * o)))
  else
    match fuel with
    | O => None
    | S fuel' =>
        match route σ t b h s d with
        | Ok (r, t') => dataAt fuel' sz m σ t' (r_b r) (r_h r) (r_s r) (r_d r)
        | Err e => Some (Err e)
        end
    end.

(** [p[offset] = value] *)
Definition write {Dtype : Type} (m : Z → Dtype) (a : ptr) (value : Dtype)
  : Z → Dtype :=
  fun x => if x =? a then value else m x.

Fixpoint setDataAt {Dtype : Type} (fuel : nat) (sz : Z) (m : Z → Dtype)
    (σ : gmap Z Tensor) (t : Tensor) (b h s d : Z) (value : Dtype)
  : option (result (Z → Dtype)) :=
  if negb (aggregated_ t) then
    Some (o ← offset t b h s d; Ok (write m (host_ptr_ t + sz * o) value))
  else
    match fuel with
    | O => None
    | S fuel' =>
        match route σ t b h s d with
        | Ok (r, t') =>
            setDataAt fuel' sz m σ t' (r_b r) (r_h r) (r_s r) (r_d r) value
        | Err e => Some (Err e)
        end
    end.

(** [dtypeAt] *)
Definition dtypeAt (σ : gmap Z Tensor) (t : Tensor) (b h s d : Z)
  : result DataType :=
  if negb (aggregated_ t) then Ok (dtype_ t)
  else
    rt ← route σ t b h s d;
    Ok (dtype_ rt.2).

(** *** [fullData] *)




(** *** The aggregation subsystem: [addTensors] *)

(** [assert(c->f() == f())] *)
Definition assert_same (f : Tensor → result Z) (t c : Tensor) : result unit :=
  x ← f c; y ← f t; assert (x =? y).

(** The three assertions on a constituent [c] in the loop of the [case]
    for [dim], and the extent that is added to [sum]. *)
Definition addTensors_asserts (dim : Chl) (t c : Tensor) : result unit :=
  match dim with
  | HEAD =>
      assert_same batch t c;; assert_same sequence t c;;
      assert_same dimension t c
  | SEQUENCE =>
      assert_same batch t c;; assert_same head t c;;
      assert_same dimension t c
  | _ =>
      assert_same batch t c;; assert_same head t c;;
      assert_same sequence t c
  end.

Definition along (dim : Chl) (t : Tensor) : result Z :=
  match dim with
  | HEAD => head t
  | SEQUENCE => sequence t
  | _ => dimension t
  end.

(** The loop over [ts]: [sum] is the running sum and [dims] the table
    pushed so far. *)
Fixpoint addTensors_loop (σ : gmap Z Tensor) (dim : Chl) (t : Tensor)
    (ts : list ptr) (sum : Z) (dims : list Z) : result (Z * list Z) :=
  match ts with
  | [] => Ok (sum, dims)
  | p :: rest =>
      c ← load σ p;
      addTensors_asserts dim t c;;
      x ← along dim c;
      let sum := int_add sum x in
      addTensors_loop σ dim t rest sum (dims ++ [sum])
  end.

Definition addTensors (σ : gmap Z Tensor) (t : Tensor) (ts : list ptr)
    (dim : Chl) : result Tensor :=
  let t := set_aggregated_dims [] (set_aggregated_dim dim (set_aggregated true t)) in
  t ← match dim with
      | HEAD | SEQUENCE | DIMENSION =>
          r ← addTensors_loop σ dim t ts 0 [];
          own ← along dim t;
          assert (r.1 =? own);;
          Ok (set_aggregated_dims r.2 t)
      | _ => Ok t
      end;
  Ok (set_aggregated_tensors ts t).

(** ** More vocabulary *)

(** The row-major number of the digits [indices] in the radices [axes],
    continued from [acc], in exact arithmetic; digits that are missing
    count as 0. *)
Fixpoint radix (axes indices : list Z) (acc : Z) : Z :=
  match axes with
  | [] => acc
  | n :: axes' =>
      match indices with
      | [] => radix axes' [] (acc * n)
      | i :: indices' => radix axes' indices' (acc * n + i)
      end
  end.

(** One index per axis, each within its axis. *)
Definition in_bounds (axes indices : list Z) : Prop :=
  Forall2 (fun n i => 0 <= i < n) axes indices.

(** The running sums of [xs], started at [start]. *)
Fixpoint prefix_sums (start : Z) (xs : list Z) : list Z :=
  match xs with
  | [] => []
  | x :: rest => (start + x) :: prefix_sums (start + x) rest
  end.

(** The index tuples of a 5-axis tensor of extents [(B, C, T, H, W)]. *)
Definition valid_index5 (B C T H W b c tm h w : Z) : Prop :=
  0 <= b < B ∧ 0 <= c < C ∧ 0 <= tm < T ∧ 0 <= h < H ∧ 0 <= w < W.

(** The tensor has no window: [offset] takes its second branch. *)
Definition no_window (t : Tensor) : Prop :=
  (vec_size (shape_offset_ t) =? 4) && (vec_size (shape_master_ t) =? 4) = false.

(** The sum of a list of extents. *)
Definition total (xs : list Z) : Z := foldr Z.add 0 xs.

(** The accessor [f] returns, and the same, on [t] and on [c]. *)
Definition same_extent (f : Tensor → result Z) (t c : Tensor) : Prop :=
  ∃ v, f c = Ok v ∧ f t = Ok v.

(** The tensor at [p] can be a constituent of [t] along [dim] with the
    extent [x]: it agrees with [t] on the three other axes. *)
Definition constituent (σ : gmap Z Tensor) (dim : Chl) (t : Tensor)
    (p : ptr) (x : Z) : Prop :=
  ∃ c, σ !! p = Some c ∧ along dim c = Ok x ∧
       match dim with
       | HEAD =>
           same_extent batch t c ∧ same_extent sequence t c ∧
           same_extent dimension t c
       | SEQUENCE =>
           same_extent batch t c ∧ same_extent head t c ∧
           same_extent dimension t c
       | _ =>
           same_extent batch t c ∧ same_extent head t c ∧
           same_extent sequence t c
       end.

(** Three tensors of 2, 3 and 1 rows, at the addresses 7, 8 and 9. *)
Definition three_rows : gmap Z Tensor :=
  <[7 := owner BSHD [1; 2; 2; 4] 16 4096]>
    (<[8 := owner BSHD [1; 3; 2; 4] 24 8192]>
       (<[9 := owner BSHD [1; 1; 2; 4] 8 12288]> ∅)).


(** * Properties *)

(** ** Machine integers and vectors *)

Lemma wrap_int_id (z : Z) : in_int z → wrap_int z = z.
Proof.
  unfold in_int, wrap_int, INT_MIN, INT_MAX. intros Hz.
  rewrite Z.mod_small; lia.
Qed.

Lemma vec_at_Ok (v : list Z) (i : Z) (x : Z) :
  vec_at v i = Ok x ↔ 0 <= i ∧ v !! Z.to_nat i = Some x.
Proof.
  unfold vec_at. destruct (Z.leb_spec 0 i) as [Hi|Hi].
  - destruct (v !! Z.to_nat i) as [y|]; split.
    + intros [= ->]. auto.
    + intros [_ [= ->]]. reflexivity.
    + discriminate.
    + intros [_ [=]].
  - split; [discriminate | lia].
Qed.

Lemma vec_at_in_range (v : list Z) (i : Z) :
  0 <= i < vec_size v → ∃ x, vec_at v i = Ok x.
Proof.
  unfold vec_size. intros Hi.
  destruct (lookup_lt_is_Some_2 v (Z.to_nat i)) as [x Hx]; [lia|].
  exists x. apply vec_at_Ok. split; [lia | assumption].
Qed.

Lemma vec_at_out_of_range (v : list Z) (i : Z) :
  i < 0 ∨ vec_size v <= i → vec_at v i = Err OutOfBounds.
Proof.
  unfold vec_at, vec_size. intros Hi.
  destruct (Z.leb_spec 0 i) as [H0|H0]; [|reflexivity].
  rewrite (lookup_ge_None_2 v (Z.to_nat i)); [reflexivity | lia].
Qed.

(** ** Shape accessors *)

Lemma numAxes_small (t : Tensor) :
  vec_size (shape_ t) <= INT_MAX → numAxes t = vec_size (shape_ t).
Proof.
  intros H. unfold numAxes. apply wrap_int_id.
  unfold in_int, INT_MIN, vec_size in *. lia.
Qed.

(** [legacyShape] never reads outside the shape vector: it is total. *)
Lemma legacyShape_total (t : Tensor) (i : Z) :
  vec_size (shape_ t) <= INT_MAX → ∃ x, legacyShape t i = Ok x.
Proof.
  intros Hn. unfold legacyShape.
  destruct (Z.leb_spec (numAxes t) i) as [H1|H1]; simpl; [eauto|].
  destruct (Z.ltb_spec i (- numAxes t)) as [H2|H2]; simpl; [eauto|].
  unfold shape, canonicalAxisIndex.
  rewrite numAxes_small in * by assumption.
  assert (0 <= vec_size (shape_ t)) by (unfold vec_size; lia).
  destruct (Z.ltb_spec i 0) as [H3|H3].
  - unfold int_add.
    rewrite wrap_int_id by (unfold in_int, INT_MIN, INT_MAX in *; lia).
    apply vec_at_in_range. lia.
  - apply vec_at_in_range. lia.
Qed.

(** The accessors of the source read the shape vector where the table of
    the spec places the axis, whenever the tensor has that many axes. *)
Lemma accessor_reads_physical_axis (t : Tensor) (a : Chl) (p : Z) :
  spec_physical_axis (ctype_ t) a = Some p →
  p < numAxes t →
  accessor a t = vec_at (shape_ t) p.
Proof.
  intros Hp Hlt.
  unfold accessor, batch, head, sequence, dimension, channel, time, height, width.
  destruct (ctype_ t) eqn:Hc, a; simpl in Hp; try discriminate;
    injection Hp as <-; simpl;
    unfold legacyShape, shape, canonicalAxisIndex;
    repeat match goal with
    | |- context [Z.leb ?x ?y] => destruct (Z.leb_spec x y); try lia
    | |- context [Z.ltb ?x ?y] => destruct (Z.ltb_spec x y); try lia
    end; reflexivity.
Qed.

(** C10, amended on the accessors.  [legacyShape(i)] is 1 for every index
    at or beyond [numAxes()] and for every index below [-numAxes()]: the
    shape vector is not read.  Hence each logical accessor ([batch], [head],
    [sequence], [dimension], [channel], [time], [height], [width]) whose
    axis is one of the current tag is 1, and no failure, when the position
    of that axis under the tag is one the tensor's rank does not reach. *)
Theorem legacyShape_missing_axis_is_one (t : Tensor) :
  (∀ i : Z, numAxes t <= i ∨ i < - numAxes t → legacyShape t i = Ok 1) ∧
  (∀ (a : Chl) (p : Z),
      spec_physical_axis (ctype_ t) a = Some p →
      numAxes t <= p →
      accessor a t = Ok 1).
Proof.
  split.
  - intros i Hi. unfold legacyShape.
    destruct (Z.leb_spec (numAxes t) i), (Z.ltb_spec i (- numAxes t));
      simpl; try reflexivity; lia.
  - intros a p Hp Hle.
    unfold accessor, batch, head, sequence, dimension, channel, time, height, width.
    destruct (ctype_ t) eqn:Hc, a; simpl in Hp; try discriminate;
      injection Hp as <-; simpl; unfold legacyShape;
      match goal with
      | |- context [Z.leb ?x ?y] => destruct (Z.leb_spec x y); [reflexivity | lia]
      end.
Qed.

Lemma legacyShape_missing_axis_is_one_witness :
  legacyShape (plain BSHD [2; 3] 6) 2 = Ok 1 ∧
  legacyShape (plain BSHD [2; 3] 6) (-3) = Ok 1 ∧
  accessor HEAD (plain BSHD [2; 3] 6) = Ok 1 ∧
  accessor DIMENSION (plain BSHD [2; 3] 6) = Ok 1.
Proof.
  pose proof (legacyShape_missing_axis_is_one (plain BSHD [2; 3] 6)) as [H1 H2].
  split; [|split; [|split]].
  - apply H1. left. vm_compute. discriminate.
  - apply H1. right. vm_compute. reflexivity.
  - apply (H2 HEAD 2); [reflexivity | vm_compute; discriminate].
  - apply (H2 DIMENSION 3); [reflexivity | vm_compute; discriminate].
Defined.

(** The claim C10 as it stands, every accessor 1 on an axis that a tensor of
    lower rank does not have, fails for the accessors of an axis that is
    not one of the tensor's tag.  On a tensor of two axes, [channel()] and
    [width()] fail their assertion under the 4-axis tag BSHD, and [head()]
    and [dimension()] are -1 under the 5-axis tag BCTHW. *)
Lemma accessor_outside_tag_is_not_one :
  numAxes (plain BSHD [2; 3] 6) = 2 ∧
  channel (plain BSHD [2; 3] 6) = Err AssertFailed ∧
  width (plain BSHD [2; 3] 6) = Err AssertFailed ∧
  numAxes (plain BCTHW [2; 3] 6) = 2 ∧
  head (plain BCTHW [2; 3] 6) = Ok (-1) ∧
  dimension (plain BCTHW [2; 3] 6) = Ok (-1).
Proof. repeat split. Qed.

(** ** The layout engine: [transShape] *)

(** C4. A request that is none of (SEQUENCE, DIMENSION) on a BSHD tensor,
    (THW, CHANNLE) on a BCTHW tensor and (BATCH, SEQUENCE) on a BSHD tensor
    returns normally and leaves every member of the tensor as it was. *)
Theorem transShape_unsupported_is_noop
    (t : Tensor) (dim_a dim_b : Chl) (undiffusion : bool) :
  ¬ (dim_a = SEQUENCE ∧ dim_b = DIMENSION ∧ ctype_ t = BSHD) →
  ¬ (dim_a = THW ∧ dim_b = CHANNLE ∧ ctype_ t = BCTHW) →
  ¬ (dim_a = BATCH ∧ dim_b = SEQUENCE ∧ ctype_ t = BSHD) →
  transShape t dim_a dim_b undiffusion = Ok t.
Proof.
  intros H1 H2 H3. unfold transShape.
  destruct (decide (dim_a = SEQUENCE ∧ dim_b = DIMENSION ∧ ctype_ t = BSHD));
    [contradiction|].
  destruct (decide (THW = dim_a ∧ dim_b = CHANNLE ∧ ctype_ t = BCTHW))
    as [(<- & -> & Hc)|_]; [exfalso; apply H2; auto|].
  destruct (decide (dim_a = BATCH ∧ dim_b = SEQUENCE ∧ ctype_ t = BSHD));
    [contradiction|].
  reflexivity.
Qed.

Lemma transShape_unsupported_is_noop_witness :
  transShape (plain BHDS [1; 2; 4; 3] 24) SEQUENCE DIMENSION true
  = Ok (plain BHDS [1; 2; 4; 3] 24).
Proof.
  apply transShape_unsupported_is_noop;
    intros (? & ? & ?); discriminate.
Defined.

(** The three supported requests do rewrite the tag: the first one, on a
    BSHD tensor of logical extents (1, 2, 3, 4). *)
Example transShape_sequence_dimension :
  transShape (plain BSHD [1; 3; 2; 4] 24) SEQUENCE DIMENSION false
  = Ok (set_transed true (plain BHDS [1; 2; 4; 3] 24)).
Proof. reflexivity. Qed.

(** ** The shape/buffer container: [free] and the destructor *)

Lemma owns_buffer_test (t : Tensor) :
  owns_buffer t ↔
  negb (host_ptr_ t =? nullptr) && (masterTensor t =? nullptr)
    && negb (aggregated_ t) = true.
Proof.
  unfold owns_buffer.
  rewrite !andb_true_iff, !negb_true_iff, Z.eqb_neq, Z.eqb_eq. tauto.
Qed.

(** C6. [free()] and the destructor hand the buffer to the backend exactly
    when the host pointer is not null, there is no master and the tensor is
    not an aggregate; otherwise, so for every child and every aggregate,
    nothing is released and no member changes; and after a [free()] a second
    [free()] releases nothing. *)
Theorem free_releases_iff_owner (t : Tensor) :
  (owns_buffer t →
     free t = (set_allocated 0 (set_host_ptr nullptr t), [host_ptr_ t]) ∧
     Tensor_dtor t = (set_host_ptr nullptr t, [host_ptr_ t])) ∧
  (¬ owns_buffer t → free t = (t, []) ∧ Tensor_dtor t = (t, [])) ∧
  (masterTensor t ≠ nullptr ∨ aggregated_ t = true →
     free t = (t, []) ∧ Tensor_dtor t = (t, [])) ∧
  free (free t).1 = ((free t).1, []) ∧
  Tensor_dtor (free t).1 = ((free t).1, []).
Proof.
  assert (Hno : ¬ owns_buffer t → free t = (t, []) ∧ Tensor_dtor t = (t, [])).
  { rewrite owns_buffer_test. unfold free, Tensor_dtor. intros Hn.
    destruct (aggregated_ t); simpl in *.
    - rewrite andb_false_r. auto.
    - rewrite andb_true_r in *. apply not_true_is_false in Hn.
      rewrite Hn. auto. }
  assert (Hyes : owns_buffer t →
     free t = (set_allocated 0 (set_host_ptr nullptr t), [host_ptr_ t]) ∧
     Tensor_dtor t = (set_host_ptr nullptr t, [host_ptr_ t])).
  { intros Ho. pose proof Ho as (_ & _ & Ha).
    apply owns_buffer_test in Ho. unfold free, Tensor_dtor.
    rewrite Ho, Ha. rewrite Ha, andb_true_r in Ho. rewrite Ho. auto. }
  split; [exact Hyes|]. split; [exact Hno|]. split.
  - intros Hc. apply Hno. unfold owns_buffer. intros (_ & Hm & Ha).
    destruct Hc; congruence.
  - unfold free, Tensor_dtor.
    destruct (aggregated_ t) eqn:Ha; simpl; [rewrite Ha; simpl|].
    + rewrite andb_false_r. auto.
    + destruct (negb (host_ptr_ t =? nullptr) && (masterTensor t =? nullptr))
        eqn:Hc; simpl; rewrite ?Ha, ?Hc; auto.
Qed.

Lemma free_releases_iff_owner_witness :
  free (owner BSHD [1; 3; 2; 4] 24 4096)
    = (plain BSHD [1; 3; 2; 4] 24, [4096]) ∧
  free (window BSHD [1; 3; 2; 4] [0; 0; 0; 0] [1; 2; 8; 4] 7 4096)
    = (window BSHD [1; 3; 2; 4] [0; 0; 0; 0] [1; 2; 8; 4] 7 4096, []) ∧
  Tensor_dtor (aggregate BSHD [1; 6; 2; 4] [7; 8; 9] SEQUENCE [2; 5; 6])
    = (aggregate BSHD [1; 6; 2; 4] [7; 8; 9] SEQUENCE [2; 5; 6], []).
Proof.
  split; [|split].
  - apply (proj1 (free_releases_iff_owner (owner BSHD [1; 3; 2; 4] 24 4096))).
    unfold owns_buffer. simpl. unfold nullptr. repeat split; lia.
  - apply (proj1 (proj2 (proj2 (free_releases_iff_owner
      (window BSHD [1; 3; 2; 4] [0; 0; 0; 0] [1; 2; 8; 4] 7 4096))))).
    left. simpl. unfold nullptr. lia.
  - apply (proj1 (proj2 (free_releases_iff_owner
      (aggregate BSHD [1; 6; 2; 4] [7; 8; 9] SEQUENCE [2; 5; 6])))).
    unfold owns_buffer. simpl. intros (_ & _ & ?). discriminate.
Defined.

(** ** The shape/buffer container: [reshape] *)

Lemma reshape_loop_valid (shape : list Z) (count : Z) :
  0 <= count <= INT_MAX →
  valid_shape_from count shape →
  reshape_loop shape count = Ok (count * shape_product shape).
Proof.
  revert count. induction shape as [|x rest IH]; intros count Hc Hv.
  - simpl. f_equal. lia.
  - destruct Hv as (Hx & Hcx & Hrest). simpl.
    destruct (Z.leb_spec 0 x) as [_|]; [simpl|lia].
    assert (Hmul : int_mul count x = count * x).
    { apply wrap_int_id. unfold in_int, INT_MIN. nia. }
    assert (Hguard :
      (if negb (count =? 0) then assert (x <=? Z.quot INT_MAX count) else Ok tt)
      = Ok tt).
    { destruct (Z.eqb_spec count 0) as [|Hne]; [reflexivity|]. simpl.
      rewrite Z.quot_div_nonneg by (unfold INT_MAX; lia).
      destruct (Z.leb_spec x (INT_MAX / count)) as [|Hlt]; [reflexivity|].
      exfalso. apply (Z.lt_irrefl x). eapply Z.le_lt_trans; [|exact Hlt].
      apply Z.div_le_lower_bound; lia. }
    rewrite Hguard. simpl. rewrite Hmul, IH by (assumption || nia).
    f_equal. lia.
Qed.

(** Conversely, a shape that [reshape_loop] accepts is valid. *)
Lemma reshape_loop_accepts (shape : list Z) (count c : Z) :
  0 <= count <= INT_MAX →
  reshape_loop shape count = Ok c →
  valid_shape_from count shape ∧ c = count * shape_product shape.
Proof.
  revert count. induction shape as [|x rest IH]; intros count Hc Hr.
  - simpl in *. injection Hr as <-. split; [exact I | lia].
  - simpl in Hr.
    destruct (Z.leb_spec 0 x) as [Hx|]; [simpl in Hr|discriminate].
    assert (Hcx : count * x <= INT_MAX).
    { destruct (Z.eqb_spec count 0) as [->|Hne]; [unfold INT_MAX; lia|].
      simpl in Hr.
      destruct (Z.leb_spec x (Z.quot INT_MAX count)) as [Hle|];
        [|discriminate].
      rewrite Z.quot_div_nonneg in Hle by (unfold INT_MAX; lia).
      assert (count * (INT_MAX / count) <= INT_MAX)
        by (apply Z.mul_div_le; lia).
      nia. }
    assert (Hmul : int_mul count x = count * x).
    { apply wrap_int_id. unfold in_int, INT_MIN. nia. }
    assert (Hr' : reshape_loop rest (count * x) = Ok c).
    { rewrite <- Hmul.
      destruct (negb (count =? 0)); simpl in Hr;
        [destruct (x <=? Z.quot INT_MAX count); simpl in Hr;
           [exact Hr | discriminate] | exact Hr]. }
    apply IH in Hr' as [Hv ->]; [|nia].
    split; [simpl; auto | simpl; lia].
Qed.

(** One [reshape] on a valid shape of at most 32 axes. *)
Lemma reshape_valid (t : Tensor) (shape : list Z) :
  vec_size shape <= 32 →
  valid_shape shape →
  reshape t shape
  = Ok (reshaped t shape, bool_decide (capacity_ t < shape_product shape)).
Proof.
  intros Hlen Hv. unfold reshape, reshaped.
  destruct (Z.leb_spec (vec_size shape) 32) as [_|]; [|lia].
  rewrite (reshape_loop_valid shape 1) by (unfold INT_MAX; lia || assumption).
  rewrite Z.mul_1_l. set (n := shape_product shape).
  cbn [assert mbind result_bind count_ capacity_ set_shape set_count].
  destruct (Z.ltb_spec (capacity_ t) n) as [Hlt|Hge].
  - rewrite bool_decide_eq_true_2 by lia. reflexivity.
  - rewrite bool_decide_eq_false_2 by lia. reflexivity.
Qed.

(** [reshape] writes [shape_], [count_] and [capacity_] and nothing else. *)
Lemma reshaped_members (t : Tensor) (shape : list Z) :
  shape_ (reshaped t shape) = shape ∧
  count_ (reshaped t shape) = shape_product shape ∧
  capacity_ (reshaped t shape) = Z.max (capacity_ t) (shape_product shape) ∧
  host_ptr_ (reshaped t shape) = host_ptr_ t ∧
  allocated_ (reshaped t shape) = allocated_ t ∧
  dtype_ (reshaped t shape) = dtype_ t ∧
  ctype_ (reshaped t shape) = ctype_ t ∧
  transed_ (reshaped t shape) = transed_ t ∧
  undiffusion_ (reshaped t shape) = undiffusion_ t ∧
  master_tensor_ (reshaped t shape) = master_tensor_ t ∧
  child_tensors_ (reshaped t shape) = child_tensors_ t ∧
  shape_offset_ (reshaped t shape) = shape_offset_ t ∧
  shape_master_ (reshaped t shape) = shape_master_ t.
Proof.
  unfold reshaped. cbn [count_ capacity_ set_shape set_count].
  destruct (Z.ltb_spec (capacity_ t) (shape_product shape));
    cbn; repeat split; lia.
Qed.

(** What [reshape] accepts has a product within [int]: the element count
    of a tensor that has been shaped fits. *)
Lemma reshape_Ok_valid (t t' : Tensor) (shape : list Z) (r : bool) :
  reshape t shape = Ok (t', r) →
  vec_size shape <= 32 ∧ valid_shape shape ∧
  0 <= shape_product shape <= INT_MAX ∧ count_ t' = shape_product shape.
Proof.
  unfold reshape. intros H.
  destruct (Z.leb_spec (vec_size shape) 32) as [Hl|]; [|discriminate].
  cbn [assert mbind result_bind] in H.
  destruct (reshape_loop shape 1) as [c|] eqn:Hloop; [|discriminate].
  apply reshape_loop_accepts in Hloop as [Hv ->]; [|unfold INT_MAX; lia].
  rewrite Z.mul_1_l in H.
  assert (Hb : ∀ l c, 0 <= c → valid_shape_from c l →
                      0 <= c * shape_product l ∧
                      (l ≠ [] → c * shape_product l <= INT_MAX)).
  { induction l as [|x rest IH]; intros c Hc Hvl.
    - simpl. split; [lia | congruence].
    - destruct Hvl as (Hx & Hcx & Hrest). simpl.
      destruct (IH (c * x)) as [IH1 IH2]; [nia | assumption |].
      rewrite Z.mul_assoc. split; [assumption|]. intros _.
      destruct rest; [simpl; lia | apply IH2; congruence]. }
  destruct (Hb shape 1) as [Hb1 Hb2]; [lia | exact Hv |].
  rewrite Z.mul_1_l in *.
  assert (shape_product shape <= INT_MAX).
  { destruct shape; [simpl; unfold INT_MAX; lia | apply Hb2; congruence]. }
  cbn [mbind result_bind count_ capacity_ set_shape set_count] in H.
  destruct (capacity_ t <? shape_product shape);
    injection H as <- <-; cbn; auto.
Qed.

(** C5, amended by the limit of 32 axes that [reshape] asserts first.  For
    a shape of at most 32 non-negative sizes whose running product stays
    within [int]: the count becomes the product of the sizes, the capacity
    becomes the maximum of its old value and the new count, the host pointer
    is not touched, and the value returned is true exactly when the new count
    exceeds the old capacity; so two reshapes in a row, each to a count within
    the capacity, both return false and leave capacity and host pointer as
    they were. *)
Theorem reshape_count_capacity (t : Tensor) :
  (∀ shape : list Z,
      vec_size shape <= 32 → valid_shape shape →
      ∃ t',
        reshape t shape
          = Ok (t', bool_decide (capacity_ t < shape_product shape)) ∧
        count_ t' = shape_product shape ∧
        capacity_ t' = Z.max (capacity_ t) (shape_product shape) ∧
        shape_ t' = shape ∧
        host_ptr_ t' = host_ptr_ t) ∧
  (∀ shape1 shape2 : list Z,
      vec_size shape1 <= 32 → valid_shape shape1 →
      vec_size shape2 <= 32 → valid_shape shape2 →
      shape_product shape1 <= capacity_ t →
      shape_product shape2 <= capacity_ t →
      ∃ t1 t2,
        reshape t shape1 = Ok (t1, false) ∧
        reshape t1 shape2 = Ok (t2, false) ∧
        count_ t1 = shape_product shape1 ∧
        count_ t2 = shape_product shape2 ∧
        capacity_ t1 = capacity_ t ∧ capacity_ t2 = capacity_ t ∧
        host_ptr_ t1 = host_ptr_ t ∧ host_ptr_ t2 = host_ptr_ t).
Proof.
  split.
  - intros shape Hl Hv. exists (reshaped t shape).
    destruct (reshaped_members t shape) as (Hs & Hc & Hcap & Hp & _).
    split; [apply reshape_valid; assumption | auto].
  - intros shape1 shape2 Hl1 Hv1 Hl2 Hv2 Hle1 Hle2.
    pose proof (reshape_valid t shape1 Hl1 Hv1) as H1.
    destruct (reshaped_members t shape1) as (_ & Hc1 & Hcap1 & Hp1 & _).
    pose proof (reshape_valid (reshaped t shape1) shape2 Hl2 Hv2) as H2.
    destruct (reshaped_members (reshaped t shape1) shape2)
      as (_ & Hc2 & Hcap2 & Hp2 & _).
    exists (reshaped t shape1), (reshaped (reshaped t shape1) shape2).
    rewrite bool_decide_eq_false_2 in H1 by lia.
    rewrite bool_decide_eq_false_2 in H2 by lia.
    repeat split; try assumption; try lia; congruence.
Qed.

Lemma reshape_count_capacity_witness :
  ∃ t1 t2,
    reshape (owner BSHD [1; 3; 2; 4] 24 4096) [1; 2; 2; 4] = Ok (t1, false) ∧
    reshape t1 [1; 3; 2; 4] = Ok (t2, false) ∧
    count_ t1 = 16 ∧ count_ t2 = 24 ∧
    capacity_ t1 = 24 ∧ capacity_ t2 = 24 ∧
    host_ptr_ t1 = 4096 ∧ host_ptr_ t2 = 4096.
Proof.
  apply (proj2 (reshape_count_capacity (owner BSHD [1; 3; 2; 4] 24 4096))
           [1; 2; 2; 4] [1; 3; 2; 4]);
    try (vm_compute; discriminate);
    try (unfold valid_shape; simpl; unfold INT_MAX; lia).
Defined.

(** The claim C5 as it stands fails on a shape of 33 axes, valid otherwise:
    [reshape] asserts at most 32 axes before anything else. *)
Lemma reshape_rejects_33_axes :
  valid_shape (replicate 33 1) ∧
  reshape (plain BSHD [] 0) (replicate 33 1) = Err AssertFailed.
Proof.
  split; [|reflexivity].
  unfold valid_shape. simpl. unfold INT_MAX. lia.
Qed.

(** ** The layout engine: [offset] on a plain tensor *)

Section MixedRadix.

Variables n0 n1 n2 n3 : Z.
Hypothesis Hn0 : 1 <= n0.
Hypothesis Hn1 : 1 <= n1.
Hypothesis Hn2 : 1 <= n2.
Hypothesis Hn3 : 1 <= n3.

Lemma radix_step (a n x m : Z) :
  0 <= a < m → 0 <= x < n → 0 <= a * n + x < m * n.
Proof.
  intros Ha Hx.
  assert (0 <= a * n) by (apply Z.mul_nonneg_nonneg; lia).
  assert (a * n <= (m - 1) * n) by (apply Z.mul_le_mono_nonneg_r; lia).
  lia.
Qed.

Lemma radix_unique (a x a' x' n : Z) :
  0 <= x < n → 0 <= x' < n → a * n + x = a' * n + x' → a = a' ∧ x = x'.
Proof.
  intros Hx Hx' Heq. apply (Z.div_mod_unique n); [left; lia..|lia].
Qed.

Lemma mixed_range (x0 x1 x2 x3 : Z) :
  digits n0 n1 n2 n3 x0 x1 x2 x3 →
  0 <= x0 * n1 + x1 < n0 * n1 ∧
  0 <= (x0 * n1 + x1) * n2 + x2 < n0 * n1 * n2 ∧
  0 <= ((x0 * n1 + x1) * n2 + x2) * n3 + x3 < n0 * n1 * n2 * n3.
Proof.
  intros (H0 & H1 & H2 & H3).
  pose proof (radix_step x0 n1 x1 n0 H0 H1) as Ha.
  pose proof (radix_step _ n2 x2 _ Ha H2) as Hb.
  pose proof (radix_step _ n3 x3 _ Hb H3) as Hc.
  auto.
Qed.

Lemma mixed_injective (x0 x1 x2 x3 y0 y1 y2 y3 : Z) :
  digits n0 n1 n2 n3 x0 x1 x2 x3 → digits n0 n1 n2 n3 y0 y1 y2 y3 →
  ((x0 * n1 + x1) * n2 + x2) * n3 + x3
    = ((y0 * n1 + y1) * n2 + y2) * n3 + y3 →
  x0 = y0 ∧ x1 = y1 ∧ x2 = y2 ∧ x3 = y3.
Proof.
  intros (_ & Hx1 & Hx2 & Hx3) (_ & Hy1 & Hy2 & Hy3) Heq.
  apply radix_unique in Heq as [Heq ->]; [|assumption..].
  apply radix_unique in Heq as [Heq ->]; [|assumption..].
  apply radix_unique in Heq as [-> ->]; [|assumption..].
  auto.
Qed.

Lemma mixed_surjective (o : Z) :
  0 <= o < n0 * n1 * n2 * n3 →
  ∃ x0 x1 x2 x3,
    digits n0 n1 n2 n3 x0 x1 x2 x3 ∧ ((x0 * n1 + x1) * n2 + x2) * n3 + x3 = o.
Proof.
  intros Ho.
  exists (o / n3 / n2 / n1), ((o / n3 / n2) mod n1), ((o / n3) mod n2), (o mod n3).
  pose proof (Z.div_mod o n3 ltac:(lia)) as E3.
  pose proof (Z.div_mod (o / n3) n2 ltac:(lia)) as E2.
  pose proof (Z.div_mod (o / n3 / n2) n1 ltac:(lia)) as E1.
  pose proof (Z.mod_pos_bound o n3 ltac:(lia)).
  pose proof (Z.mod_pos_bound (o / n3) n2 ltac:(lia)).
  pose proof (Z.mod_pos_bound (o / n3 / n2) n1 ltac:(lia)).
  assert (0 <= o / n3 < n0 * n1 * n2).
  { split; [apply Z.div_pos; lia | apply Z.div_lt_upper_bound; lia]. }
  assert (0 <= o / n3 / n2 < n0 * n1).
  { split; [apply Z.div_pos; lia | apply Z.div_lt_upper_bound; lia]. }
  assert (0 <= o / n3 / n2 / n1 < n0).
  { split; [apply Z.div_pos; lia | apply Z.div_lt_upper_bound; lia]. }
  unfold digits. repeat split; try lia.
Qed.

(** Within [int] the nesting formula of the source does not wrap. *)
Lemma nest4_exact (x0 x1 x2 x3 : Z) :
  n0 * n1 * n2 * n3 <= INT_MAX →
  digits n0 n1 n2 n3 x0 x1 x2 x3 →
  nest4 x0 n1 x1 n2 x2 n3 x3 = ((x0 * n1 + x1) * n2 + x2) * n3 + x3.
Proof.
  intros Hmax Hd. pose proof (mixed_range _ _ _ _ Hd) as (Ha & Hb & Hc).
  destruct Hd as (H0 & H1 & H2 & H3).
  assert (n0 * n1 <= n0 * n1 * n2) by nia.
  assert (n0 * n1 * n2 <= n0 * n1 * n2 * n3) by nia.
  unfold nest4, int_add, int_mul.
  rewrite (wrap_int_id (x0 * n1)) by (unfold in_int, INT_MIN; nia).
  rewrite (wrap_int_id (x0 * n1 + x1)) by (unfold in_int, INT_MIN; lia).
  rewrite (wrap_int_id ((x0 * n1 + x1) * n2)) by (unfold in_int, INT_MIN; nia).
  rewrite (wrap_int_id ((x0 * n1 + x1) * n2 + x2)) by (unfold in_int, INT_MIN; lia).
  rewrite (wrap_int_id (((x0 * n1 + x1) * n2 + x2) * n3)) by (unfold in_int, INT_MIN; nia).
  apply wrap_int_id. unfold in_int, INT_MIN. lia.
Qed.

End MixedRadix.

(** A plain tensor of four axes under a 4-axis tag: its shape vector holds
    the logical extents in the nesting order of the tag, and [offset] is the
    nesting formula on the indices in that order. *)
Lemma offset_plain_nest (t : Tensor) (B H S D : Z) :
  shape_offset_ t = [] → shape_master_ t = [] →
  vec_size (shape_ t) = 4 →
  batch t = Ok B → head t = Ok H → sequence t = Ok S → dimension t = Ok D →
  match ctype_ t with
  | BSHD => ∀ b h s d, offset t b h s d = Ok (nest4 b S s H h D d)
  | BHDS => ∀ b h s d, offset t b h s d = Ok (nest4 b H h D d S s)
  | SBHD => ∀ b h s d, offset t b h s d = Ok (nest4 s B b H h D d)
  | _ => True
  end.
Proof.
  destruct t as [dt c bk hp sh cap cnt al tr so sm mt ch un ag ats ad ads].
  cbn [shape_offset_ shape_master_ shape_ ctype_].
  intros -> -> Hlen.
  destruct sh as [|n0 [|n1 [|n2 [|n3 [|? ?]]]]];
    try (exfalso; unfold vec_size in Hlen; simpl length in Hlen; lia);
    clear Hlen.
  destruct c; try exact (fun _ _ _ _ => I);
    intros [= <-] [= <-] [= <-] [= <-]; reflexivity.
Qed.

(** C2. On a plain tensor of shape (B, H, S, D) with all extents at least 1
    (and, as [reshape] enforces, an element count within [int]), under each
    of the tags BSHD, BHDS and SBHD, [offset] maps the valid index tuples
    one-to-one onto the offsets 0, ..., B*H*S*D - 1. *)
Theorem offset_plain_bijective (t : Tensor) (B H S D : Z) :
  shape_offset_ t = [] → shape_master_ t = [] →
  vec_size (shape_ t) = 4 →
  ctype_ t = BSHD ∨ ctype_ t = BHDS ∨ ctype_ t = SBHD →
  batch t = Ok B → head t = Ok H → sequence t = Ok S → dimension t = Ok D →
  1 <= B → 1 <= H → 1 <= S → 1 <= D →
  B * H * S * D <= INT_MAX →
  (∀ b h s d, valid_index B H S D b h s d →
     ∃ o, offset t b h s d = Ok o ∧ 0 <= o < B * H * S * D) ∧
  (∀ b h s d b' h' s' d',
     valid_index B H S D b h s d → valid_index B H S D b' h' s' d' →
     offset t b h s d = offset t b' h' s' d' →
     b = b' ∧ h = h' ∧ s = s' ∧ d = d') ∧
  (∀ o, 0 <= o < B * H * S * D →
     ∃ b h s d, valid_index B H S D b h s d ∧ offset t b h s d = Ok o).
Proof.
  intros Hso Hsm Hlen Hc Hb Hh Hs Hd HB HH HS HD Hmax.
  pose proof (offset_plain_nest t B H S D Hso Hsm Hlen Hb Hh Hs Hd) as Hoff.
  unfold valid_index.
  destruct Hc as [Hc|[Hc|Hc]]; rewrite Hc in Hoff; clear Hc.
  - (* BSHD: batch, sequence, head, dimension *)
    assert (Hmax' : B * S * H * D <= INT_MAX) by lia.
    split; [|split].
    + intros b h s d (Ib & Ih & Is & Id).
      assert (Hdg : digits B S H D b s h d) by (unfold digits; auto).
      rewrite Hoff, (nest4_exact B S H D) by assumption.
      eexists; split; [reflexivity|].
      pose proof (mixed_range B S H D b s h d Hdg). lia.
    + intros b h s d b' h' s' d' (Ib & Ih & Is & Id) (Ib' & Ih' & Is' & Id').
      assert (Hdg : digits B S H D b s h d) by (unfold digits; auto).
      assert (Hdg' : digits B S H D b' s' h' d') by (unfold digits; auto).
      rewrite !Hoff, !(nest4_exact B S H D) by assumption.
      intros [= Heq].
      destruct (mixed_injective B S H D _ _ _ _ _ _ _ _ Hdg Hdg' Heq)
        as (? & ? & ? & ?); auto.
    + intros o Ho.
      destruct (mixed_surjective B S H D HS HH HD o ltac:(lia))
        as (b & s & h & d & Hdg & Heq).
      exists b, h, s, d. rewrite Hoff, (nest4_exact B S H D) by assumption.
      unfold digits in Hdg. split; [tauto | congruence].
  - (* BHDS: batch, head, dimension, sequence *)
    assert (Hmax' : B * H * D * S <= INT_MAX) by lia.
    split; [|split].
    + intros b h s d (Ib & Ih & Is & Id).
      assert (Hdg : digits B H D S b h d s) by (unfold digits; auto).
      rewrite Hoff, (nest4_exact B H D S) by assumption.
      eexists; split; [reflexivity|].
      pose proof (mixed_range B H D S b h d s Hdg). lia.
    + intros b h s d b' h' s' d' (Ib & Ih & Is & Id) (Ib' & Ih' & Is' & Id').
      assert (Hdg : digits B H D S b h d s) by (unfold digits; auto).
      assert (Hdg' : digits B H D S b' h' d' s') by (unfold digits; auto).
      rewrite !Hoff, !(nest4_exact B H D S) by assumption.
      intros [= Heq].
      destruct (mixed_injective B H D S _ _ _ _ _ _ _ _ Hdg Hdg' Heq)
        as (? & ? & ? & ?); auto.
    + intros o Ho.
      destruct (mixed_surjective B H D S HH HD HS o ltac:(lia))
        as (b & h & d & s & Hdg & Heq).
      exists b, h, s, d. rewrite Hoff, (nest4_exact B H D S) by assumption.
      unfold digits in Hdg. split; [tauto | congruence].
  - (* SBHD: sequence, batch, head, dimension *)
    assert (Hmax' : S * B * H * D <= INT_MAX) by lia.
    split; [|split].
    + intros b h s d (Ib & Ih & Is & Id).
      assert (Hdg : digits S B H D s b h d) by (unfold digits; auto).
      rewrite Hoff, (nest4_exact S B H D) by assumption.
      eexists; split; [reflexivity|].
      pose proof (mixed_range S B H D s b h d Hdg). lia.
    + intros b h s d b' h' s' d' (Ib & Ih & Is & Id) (Ib' & Ih' & Is' & Id').
      assert (Hdg : digits S B H D s b h d) by (unfold digits; auto).
      assert (Hdg' : digits S B H D s' b' h' d') by (unfold digits; auto).
      rewrite !Hoff, !(nest4_exact S B H D) by assumption.
      intros [= Heq].
      destruct (mixed_injective S B H D _ _ _ _ _ _ _ _ Hdg Hdg' Heq)
        as (? & ? & ? & ?); auto.
    + intros o Ho.
      destruct (mixed_surjective S B H D HB HH HD o ltac:(lia))
        as (s & b & h & d & Hdg & Heq).
      exists b, h, s, d. rewrite Hoff, (nest4_exact S B H D) by assumption.
      unfold digits in Hdg. split; [tauto | congruence].
Qed.

Lemma offset_plain_bijective_witness :
  (∀ b h s d, valid_index 2 3 5 4 b h s d →
     ∃ o, offset (owner BHDS [2; 3; 4; 5] 120 4096) b h s d = Ok o
          ∧ 0 <= o < 2 * 3 * 5 * 4) ∧
  (∀ b h s d b' h' s' d',
     valid_index 2 3 5 4 b h s d → valid_index 2 3 5 4 b' h' s' d' →
     offset (owner BHDS [2; 3; 4; 5] 120 4096) b h s d
       = offset (owner BHDS [2; 3; 4; 5] 120 4096) b' h' s' d' →
     b = b' ∧ h = h' ∧ s = s' ∧ d = d') ∧
  (∀ o, 0 <= o < 2 * 3 * 5 * 4 →
     ∃ b h s d, valid_index 2 3 5 4 b h s d
                ∧ offset (owner BHDS [2; 3; 4; 5] 120 4096) b h s d = Ok o).
Proof.
  apply (offset_plain_bijective (owner BHDS [2; 3; 4; 5] 120 4096) 2 3 5 4);
    try reflexivity; try lia.
  - right. left. reflexivity.
  - unfold INT_MAX. lia.
Defined.

Example offset_plain_BHDS_first :
  offset (owner BHDS [2; 3; 4; 5] 120 4096) 0 0 0 0 = Ok 0.
Proof. reflexivity. Qed.

Example offset_plain_BHDS_last :
  offset (owner BHDS [2; 3; 4; 5] 120 4096) 1 2 4 3 = Ok 119.
Proof. reflexivity. Qed.

(** ** The layout engine: [offset] on a window *)

Lemma rem_shift (x m : Z) :
  0 < m → 0 <= x ∨ x + m <= 0 → Z.rem (x + m) m = Z.rem x m.
Proof.
  intros Hm Hx. replace (x + m) with (x + 1 * m) by lia.
  apply Z.rem_add; [lia|].
  destruct Hx; [apply Z.mul_nonneg_nonneg | apply Z.mul_nonpos_nonpos]; lia.
Qed.

Lemma int_rem_shift (i o m : Z) :
  0 < m →
  INT_MIN <= i + o → i + m + o <= INT_MAX →
  0 <= i + o ∨ i + o + m <= 0 →
  int_rem (int_add (i + m) o) m = int_rem (int_add i o) m.
Proof.
  intros Hm Hlo Hhi Hx. unfold int_rem, int_add.
  rewrite (wrap_int_id (i + m + o)), (wrap_int_id (i + o))
    by (unfold in_int, INT_MIN, INT_MAX in *; lia).
  destruct (Z.eqb_spec m 0); [lia|].
  replace (i + m + o) with (i + o + m) by lia.
  rewrite rem_shift by assumption. reflexivity.
Qed.

Lemma int_rem_Ok (x m : Z) : m ≠ 0 → ∃ r, int_rem x m = Ok r.
Proof.
  intros Hm. unfold int_rem. destruct (Z.eqb_spec m 0); [contradiction|eauto].
Qed.

(** C3, amended on the indices it ranges over.  On a window with a 4-entry
    offset vector and a 4-entry master shape [M] of positive extents, under
    BSHD, BHDS or SBHD, [offset] returns an offset, and adding [M[axis]] to
    the index along one axis leaves it unchanged whenever the shifted index
    [i + shape_offset_[axis]] and that index plus [M[axis]] are not on
    opposite sides of zero and both lie within [int]. *)
Theorem offset_window_toroidal
    (t : Tensor) (M0 M1 M2 M3 o0 o1 o2 o3 b h s d : Z) :
  shape_master_ t = [M0; M1; M2; M3] →
  shape_offset_ t = [o0; o1; o2; o3] →
  0 < M0 → 0 < M1 → 0 < M2 → 0 < M3 →
  ctype_ t = BSHD ∨ ctype_ t = BHDS ∨ ctype_ t = SBHD →
  (∃ o, offset t b h s d = Ok o) ∧
  (INT_MIN <= b + o0 → b + M0 + o0 <= INT_MAX →
   0 <= b + o0 ∨ b + o0 + M0 <= 0 →
   offset t (b + M0) h s d = offset t b h s d) ∧
  (INT_MIN <= h + o1 → h + M1 + o1 <= INT_MAX →
   0 <= h + o1 ∨ h + o1 + M1 <= 0 →
   offset t b (h + M1) s d = offset t b h s d) ∧
  (INT_MIN <= s + o2 → s + M2 + o2 <= INT_MAX →
   0 <= s + o2 ∨ s + o2 + M2 <= 0 →
   offset t b h (s + M2) d = offset t b h s d) ∧
  (INT_MIN <= d + o3 → d + M3 + o3 <= INT_MAX →
   0 <= d + o3 ∨ d + o3 + M3 <= 0 →
   offset t b h s (d + M3) = offset t b h s d).
Proof.
  intros Hm Ho H0 H1 H2 H3 Hc.
  unfold offset. rewrite Hm, Ho.
  cbn [vec_size length Z.of_nat Pos.of_succ_nat Pos.succ Z.eqb Pos.eqb andb].
  change (vec_at [M0; M1; M2; M3] 0) with (Ok M0).
  change (vec_at [M0; M1; M2; M3] 1) with (Ok M1).
  change (vec_at [M0; M1; M2; M3] 2) with (Ok M2).
  change (vec_at [M0; M1; M2; M3] 3) with (Ok M3).
  change (vec_at [o0; o1; o2; o3] 0) with (Ok o0).
  change (vec_at [o0; o1; o2; o3] 1) with (Ok o1).
  change (vec_at [o0; o1; o2; o3] 2) with (Ok o2).
  change (vec_at [o0; o1; o2; o3] 3) with (Ok o3).
  cbn [mbind result_bind].
  split; [|split; [|split; [|split]]].
  - destruct (int_rem_Ok (int_add b o0) M0) as [? ->]; [lia|].
    destruct (int_rem_Ok (int_add h o1) M1) as [? ->]; [lia|].
    destruct (int_rem_Ok (int_add s o2) M2) as [? ->]; [lia|].
    destruct (int_rem_Ok (int_add d o3) M3) as [? ->]; [lia|].
    destruct Hc as [-> |[-> | ->]]; eauto.
  - intros. rewrite int_rem_shift by assumption. reflexivity.
  - intros. rewrite int_rem_shift by assumption. reflexivity.
  - intros. rewrite int_rem_shift by assumption. reflexivity.
  - intros. rewrite int_rem_shift by assumption. reflexivity.
Qed.

Lemma offset_window_toroidal_witness :
  offset (window BSHD [1; 2; 2; 4] [0; 0; 6; 0] [1; 2; 8; 4] 7 4096)
         0 1 (3 + 8) 2
  = offset (window BSHD [1; 2; 2; 4] [0; 0; 6; 0] [1; 2; 8; 4] 7 4096)
         0 1 3 2.
Proof.
  apply (offset_window_toroidal
           (window BSHD [1; 2; 2; 4] [0; 0; 6; 0] [1; 2; 8; 4] 7 4096)
           1 2 8 4 0 0 6 0 0 1 3 2);
    try reflexivity; try lia; unfold INT_MIN, INT_MAX; try lia.
  left. reflexivity.
Defined.

(** The sequence index 3 of that window, shifted by 6 in a master of 8
    rows, wraps to row 1. *)
Example offset_window_wraps :
  offset (window BSHD [1; 2; 2; 4] [0; 0; 6; 0] [1; 2; 8; 4] 7 4096) 0 1 3 2
  = Ok ((1 * 2 + 1) * 4 + 2).
Proof. reflexivity. Qed.

(** The claim C3 as it stands, for every index tuple, fails on a negative
    index: [%] truncates towards zero, so [-1 % 3] is [-1] and not [2]. *)
Lemma offset_window_negative_index_differs :
  offset (window BSHD [1; 1; 1; 1] [0; 0; 0; 0] [3; 1; 1; 1] 7 4096)
         (-1) 0 0 0 = Ok (-1) ∧
  offset (window BSHD [1; 1; 1; 1] [0; 0; 0; 0] [3; 1; 1; 1] 7 4096)
         (-1 + 3) 0 0 0 = Ok 2 ∧
  offset (window BSHD [1; 1; 1; 1] [0; 0; 0; 0] [3; 1; 1; 1] 7 4096)
         (-1 + 3) 0 0 0
  ≠ offset (window BSHD [1; 1; 1; 1] [0; 0; 0; 0] [3; 1; 1; 1] 7 4096)
         (-1) 0 0 0.
Proof. split; [|split]; [reflexivity | reflexivity | discriminate]. Qed.

(** ** The aggregation subsystem: [checkDim] *)

Lemma checkDim_search_first (dims : list Z) (x a : Z) (k : nat) :
  first_slot_above dims x k →
  checkDim_search dims x a = a + Z.of_nat k.
Proof.
  revert a k. induction dims as [|y rest IH]; intros a k [(z & Hz & Hlt) Hbelow].
  - rewrite lookup_nil in Hz. discriminate.
  - simpl. destruct k as [|k].
    + injection Hz as ->. destruct (Z.ltb_spec x z); lia.
    + pose proof (Hbelow O y ltac:(lia) eq_refl) as Hy.
      destruct (Z.ltb_spec x y); [lia|].
      rewrite (IH (a + 1) k); [lia|].
      split; [exists z; auto|].
      intros j w Hj Hw. apply (Hbelow (S j) w); [lia | exact Hw].
Qed.

Lemma checkDim_search_none (dims : list Z) (x a : Z) :
  Forall (fun y => y <= x) dims → checkDim_search dims x a = -1.
Proof.
  intros H. revert a. induction H as [|y rest Hy _ IH]; intros a; simpl.
  - reflexivity.
  - destruct (Z.ltb_spec x y); [lia | apply IH].
Qed.

(** From the second slot on the routing is the prefix-sum search of the
    spec: the slot is the first one whose entry exceeds the index, and the
    local index is the index minus the entry before. *)
Lemma checkDim_later_slot
    (σ : gmap Z Tensor) (t : Tensor) (b h s d : Z) (k : nat) (prev : Z) :
  aggregated_ t = true →
  simple_mode (aggregated_dim_ t) →
  vec_size (aggregated_dims_ t) <= INT_MAX →
  first_slot_above (aggregated_dims_ t)
    (routed_index (aggregated_dim_ t) b h s d) (S k) →
  aggregated_dims_ t !! k = Some prev →
  in_int (routed_index (aggregated_dim_ t) b h s d - prev) →
  checkDim σ t b h s d
  = Ok (route_to (aggregated_dim_ t) (Z.of_nat (S k)) b h s d
          (routed_index (aggregated_dim_ t) b h s d - prev)).
Proof.
  intros Hagg Hmode Hsize Hfirst Hprev Hin.
  assert (Hk : Z.of_nat (S k) < vec_size (aggregated_dims_ t)).
  { destruct Hfirst as [(y & Hy & _) _]. apply lookup_lt_Some in Hy.
    unfold vec_size. lia. }
  assert (Hidx : int_sub (0 + Z.of_nat (S k)) 1 = Z.of_nat k).
  { unfold int_sub. rewrite wrap_int_id; [lia|].
    unfold in_int, INT_MIN, INT_MAX in *. lia. }
  assert (Hat : vec_at (aggregated_dims_ t) (Z.of_nat k) = Ok prev).
  { apply vec_at_Ok. rewrite Nat2Z.id. split; [lia | exact Hprev]. }
  unfold checkDim. rewrite Hagg. cbn [negb].
  destruct Hmode as [Hm|[Hm|Hm]]; rewrite Hm in *;
    cbn [routed_index route_to] in *;
    rewrite (checkDim_search_first _ _ 0 (S k) Hfirst), Hidx, Hat;
    cbn [mbind result_bind]; unfold int_sub; rewrite wrap_int_id by assumption;
    reflexivity.
Qed.

(** In the first slot there is no entry before: the source reads
    [aggregated_dims_[-1]], outside the vector. *)
Lemma checkDim_first_slot
    (σ : gmap Z Tensor) (t : Tensor) (b h s d : Z) :
  aggregated_ t = true →
  simple_mode (aggregated_dim_ t) →
  first_slot_above (aggregated_dims_ t)
    (routed_index (aggregated_dim_ t) b h s d) O →
  checkDim σ t b h s d = Err OutOfBounds.
Proof.
  intros Hagg Hmode Hfirst.
  unfold checkDim. rewrite Hagg. cbn [negb].
  destruct Hmode as [Hm|[Hm|Hm]]; rewrite Hm in *;
    cbn [routed_index] in *;
    rewrite (checkDim_search_first _ _ 0 O Hfirst);
    change (int_sub (0 + Z.of_nat 0) 1) with (-1);
    rewrite vec_at_out_of_range by (left; lia); reflexivity.
Qed.

(** C1, on the table [2, 5, 6] along SEQUENCE.  The indices 2, 3, 4 route
    to constituent 1 with local indices 0, 1, 2 and the index 5 to
    constituent 2 with local index 0, as the claim says; the indices 0 and 1,
    which the claim routes to constituent 0 with local indices 0 and 1, make
    [checkDim] read the table at slot -1, outside the vector. *)
Theorem checkDim_table_2_5_6 :
  checkDim ∅ table_2_5_6 0 1 0 3 = Err OutOfBounds ∧
  checkDim ∅ table_2_5_6 0 1 1 3 = Err OutOfBounds ∧
  checkDim ∅ table_2_5_6 0 1 2 3 = Ok (mkRouted 1 0 1 0 3) ∧
  checkDim ∅ table_2_5_6 0 1 3 3 = Ok (mkRouted 1 0 1 1 3) ∧
  checkDim ∅ table_2_5_6 0 1 4 3 = Ok (mkRouted 1 0 1 2 3) ∧
  checkDim ∅ table_2_5_6 0 1 5 3 = Ok (mkRouted 2 0 1 0 3).
Proof. repeat split. Qed.

(** Past the last entry [tensor_id] stays -1 and the read is at slot -2. *)
Example checkDim_past_last_entry :
  checkDim ∅ table_2_5_6 0 1 6 3 = Err OutOfBounds.
Proof. reflexivity. Qed.

(** ** The aligned allocator *)

Module SystemMemoryManagerFacts.
Import SystemMemoryManager.

Lemma store_bytes_below (n : nat) (m : Z → Z) (a v x : Z) :
  x < a → store_bytes n m a v x = m x.
Proof.
  revert m a v. induction n as [|n IH]; intros m a v Hx; simpl.
  - reflexivity.
  - rewrite IH by lia. destruct (Z.eqb_spec x a); [lia | reflexivity].
Qed.

Lemma load_store_bytes (n : nat) (m : Z → Z) (a v : Z) :
  load_bytes n (store_bytes n m a v) a = v mod 256 ^ Z.of_nat n.
Proof.
  revert m a v. induction n as [|n IH]; intros m a v.
  - simpl. rewrite Z.mod_1_r. reflexivity.
  - cbn [load_bytes store_bytes]. rewrite IH.
    rewrite store_bytes_below by lia. rewrite Z.eqb_refl.
    rewrite Nat2Z.inj_succ, Z.pow_succ_r by lia.
    rewrite Z.rem_mul_r by lia. reflexivity.
Qed.

(** A pointer stored before the aligned region is read back. *)
Lemma load_store_ptr (m : Z → Z) (a v : Z) :
  0 <= v < 2 ^ 64 → load_ptr (store_ptr m a v) a = v.
Proof.
  intros Hv. unfold load_ptr, store_ptr. rewrite load_store_bytes.
  change (256 ^ Z.of_nat 8) with (2 ^ 64). apply Z.mod_small. exact Hv.
Qed.

(** The mask [~(alignment - 1)] clears the low [k] bits. *)
Lemma align_mask (x k : Z) :
  0 <= k < 64 → 0 <= x < 2 ^ 64 →
  Z.land x (wrap_size (Z.lnot (wrap_size (2 ^ k - 1)))) = 2 ^ k * (x / 2 ^ k).
Proof.
  intros Hk Hx. unfold wrap_size.
  assert (Hpow : 0 < 2 ^ k < 2 ^ 64).
  { split; [apply Z.pow_pos_nonneg; lia | apply Z.pow_lt_mono_r; lia]. }
  rewrite (Z.mod_small (2 ^ k - 1)) by lia.
  replace (2 ^ k - 1) with (Z.ones k) by (rewrite Z.ones_equiv; lia).
  rewrite <- (Z.land_ones (Z.lnot (Z.ones k)) 64) by lia.
  rewrite (Z.land_comm (Z.lnot (Z.ones k))), Z.land_assoc.
  rewrite (Z.land_ones x 64), (Z.mod_small x) by lia.
  rewrite <- Z.ldiff_land, Z.ldiff_ones_r by lia.
  rewrite Z.shiftl_mul_pow2, Z.shiftr_div_pow2 by lia. lia.
Qed.

Lemma align_up (x k : Z) :
  0 <= k → 0 <= x →
  (2 ^ k * (x / 2 ^ k)) mod 2 ^ k = 0 ∧
  x - 2 ^ k < 2 ^ k * (x / 2 ^ k) <= x.
Proof.
  intros Hk Hx.
  assert (Hpow : 0 < 2 ^ k) by (apply Z.pow_pos_nonneg; lia).
  pose proof (Z.div_mod x (2 ^ k) ltac:(lia)).
  pose proof (Z.mod_pos_bound x (2 ^ k) Hpow).
  split; [|lia].
  rewrite Z.mul_comm. apply Z.mod_mul. lia.
Qed.

(** C7, amended on the sizes.  For a size above 0 and an alignment that is
    a power of two, when [malloc] returns a fresh block of
    [size + sizeof_ptr + alignment - 1] bytes inside the address space, so
    that this sum does not leave [size_t], [alloc] asks
    [malloc] for [size + sizeof_ptr + alignment - 1] bytes and
    returns an address that is a multiple of the alignment; the [size] bytes
    from that address and the pointer-sized word before it lie inside the
    block; that word holds the address [malloc] returned; and [free], given
    the address [alloc] returned, reads it back and frees that block, so that
    the live blocks are the ones there were before [alloc]. *)
Theorem alloc_aligned_free_recovers
    (h : heap) (origin size alignment k : Z) :
  0 < size →
  0 <= k < 64 → alignment = 2 ^ k →
  0 < origin →
  blocks h !! origin = None →
  origin + (size + sizeof_ptr + alignment - 1) <= 2 ^ 64 →
  ∃ p h',
    alloc h origin size alignment = Ok (p, h') ∧
    p mod alignment = 0 ∧
    blocks h' = <[origin := size + sizeof_ptr + alignment - 1]> (blocks h) ∧
    origin + sizeof_ptr <= p ∧
    p + size <= origin + (size + sizeof_ptr + alignment - 1) ∧
    load_ptr (bytes h') (p - sizeof_ptr) = origin ∧
    ∃ h'', free h' p = Ok h'' ∧ blocks h'' = blocks h.
Proof.
  intros Hsize Hk -> Horigin Hfresh Hfit.
  assert (Hpow : 0 < 2 ^ k) by (apply Z.pow_pos_nonneg; lia).
  unfold sizeof_ptr in *.
  set (x := origin + 8 + 2 ^ k - 1).
  assert (Hx : 0 <= x < 2 ^ 64) by (unfold x; lia).
  destruct (align_up x k ltac:(lia) ltac:(lia)) as [Hmul Hnear].
  set (p := 2 ^ k * (x / 2 ^ k)) in *.
  assert (Hal : alloc h origin size (2 ^ k)
    = Ok (p, mkHeap (store_ptr (bytes h) (p - 8) origin)
                    (<[origin := size + 8 + 2 ^ k - 1]> (blocks h)))).
  { unfold alloc, malloc, nullptr, sizeof_ptr.
    destruct (Z.ltb_spec 0 size); [|lia].
    destruct (Z.eqb_spec origin 0); [lia|].
    cbn [assert mbind result_bind negb blocks bytes].
    fold x. rewrite (Z.mod_small x (2 ^ 64) Hx : wrap_size x = x).
    rewrite align_mask by assumption. fold p.
    unfold wrap_size. rewrite (Z.mod_small (size + 8 + 2 ^ k - 1)) by lia.
    reflexivity. }
  eexists p, _. split; [exact Hal|].
  cbn [blocks bytes].
  split; [exact Hmul|]. split; [reflexivity|].
  split; [unfold x in Hnear; lia|]. split; [unfold x in Hnear; lia|].
  assert (Hload : load_ptr (store_ptr (bytes h) (p - 8) origin) (p - 8) = origin)
    by (apply load_store_ptr; lia).
  split; [exact Hload|].
  unfold free, libc_free, nullptr, sizeof_ptr. cbn [blocks bytes].
  rewrite Hload. destruct (Z.eqb_spec origin 0); [lia|].
  rewrite lookup_insert_eq. eexists. split; [reflexivity|].
  cbn [blocks]. rewrite delete_insert_eq. apply delete_id. exact Hfresh.
Qed.

Lemma alloc_aligned_free_recovers_witness :
  ∃ p h',
    alloc (mkHeap (fun _ => 0) ∅) 4104 100 64 = Ok (p, h') ∧
    p mod 64 = 0 ∧
    blocks h' = <[4104 := 100 + sizeof_ptr + 64 - 1]> ∅ ∧
    4104 + sizeof_ptr <= p ∧
    p + 100 <= 4104 + (100 + sizeof_ptr + 64 - 1) ∧
    load_ptr (bytes h') (p - sizeof_ptr) = 4104 ∧
    ∃ h'', free h' p = Ok h'' ∧ blocks h'' = ∅.
Proof.
  apply (alloc_aligned_free_recovers (mkHeap (fun _ => 0) ∅) 4104 100 64 6);
    try reflexivity; try lia.
  unfold sizeof_ptr. lia.
Defined.

(** The claim C7 as it stands, for every size above 0, fails where the sum
    [size + sizeof_ptr + alignment - 1] leaves [size_t].  For the size
    2^64 - 23 and the alignment 16 the sum is 2^64: [malloc] is asked for
    0 bytes and not for the sum, and for the block at 4104 [alloc] returns
    4112, so that the hidden word, at 4104, and the region after it lie
    past the end of the block. *)
Lemma alloc_request_wraps :
  (2 ^ 64 - 23) + sizeof_ptr + 16 - 1 = 2 ^ 64 ∧
  match alloc (mkHeap (fun _ => 0) ∅) 4104 (2 ^ 64 - 23) 16 with
  | Ok (p, h') => Some (p, blocks h' !! 4104)
  | Err _ => None
  end = Some (4112, Some 0).
Proof. split; [reflexivity | vm_compute; reflexivity]. Qed.

(** The aligned address of that call. *)
Example alloc_4104_100_64 :
  match alloc (mkHeap (fun _ => 0) ∅) 4104 100 64 with
  | Ok (p, _) => p
  | Err _ => nullptr
  end = 4160.
Proof. reflexivity. Qed.

End SystemMemoryManagerFacts.

(** ** The view subsystem: [deepCopyFrom] *)

Lemma accessors_total (t : Tensor) :
  vec_size (shape_ t) <= INT_MAX →
  ∃ b h s d,
    batch t = Ok b ∧ head t = Ok h ∧ sequence t = Ok s ∧ dimension t = Ok d.
Proof.
  intros Hn.
  destruct (legacyShape_total t 0 Hn) as [x0 H0].
  destruct (legacyShape_total t 1 Hn) as [x1 H1].
  destruct (legacyShape_total t 2 Hn) as [x2 H2].
  destruct (legacyShape_total t 3 Hn) as [x3 H3].
  unfold batch, head, sequence, dimension.
  destruct (ctype_ t); simpl; rewrite ?H0, ?H1, ?H2, ?H3; eauto 10.
Qed.

(** Re-laying a tensor under a 4-axis tag keeps its logical extents. *)
Lemma relayable_reshape4 (c : ChlType) (t : Tensor) (sh : list Z) :
  relayable c t sh →
  ∃ b h s d r,
    batch t = Ok b ∧ head t = Ok h ∧ sequence t = Ok s ∧ dimension t = Ok d ∧
    reshape4 (set_ctype c t) b h s d = Ok (reshaped (set_ctype c t) sh, r) ∧
    extents (reshaped (set_ctype c t) sh) = Ok (b, h, s, d).
Proof.
  intros (b & h & s & d & Hb & Hh & Hs & Hd & Hn & Hv).
  exists b, h, s, d. eexists. repeat (split; [eassumption|]).
  assert (Hlen : vec_size sh <= 32).
  { destruct c; simpl in Hn; try discriminate; injection Hn as <-;
      vm_compute; discriminate. }
  split.
  - unfold reshape4. cbn [ctype_ set_ctype]. rewrite Hn.
    cbn [mbind result_bind]. apply reshape_valid; assumption.
  - destruct (reshaped_members (set_ctype c t) sh) as (Hsh & _ & _ & _ & _ & _ & Hc & _).
    unfold extents, batch, head, sequence, dimension, legacyShape, shape,
      canonicalAxisIndex, numAxes.
    rewrite Hc, Hsh. cbn [ctype_ set_ctype].
    destruct c; simpl in Hn; try discriminate; injection Hn as <-; reflexivity.
Qed.

Lemma load_Some (σ : gmap Z Tensor) (p : ptr) (t : Tensor) :
  σ !! p = Some t → load σ p = Ok t.
Proof. unfold load. intros ->. reflexivity. Qed.

Lemma reconcile_off (σ : gmap Z Tensor) (this : ptr) (t m : Tensor) :
  σ !! this = Some t → σ !! master_tensor_ t = Some m →
  reconciles t m = false →
  deepCopyFrom_reconcile σ this = Ok σ.
Proof.
  intros Ht Hm Hr. unfold deepCopyFrom_reconcile.
  rewrite (load_Some _ _ _ Ht). cbn [mbind result_bind].
  rewrite (load_Some _ _ _ Hm). cbn [mbind result_bind].
  rewrite Hr. reflexivity.
Qed.

(** The child has been transposed: the master adopts the child's tag. *)
Lemma reconcile_master (σ : gmap Z Tensor) (this : ptr) (t m : Tensor)
    (sh : list Z) :
  σ !! this = Some t → σ !! master_tensor_ t = Some m →
  reconciles t m = true → transed_ t = true →
  relayable (ctype_ t) m sh →
  deepCopyFrom_reconcile σ this
  = Ok (<[master_tensor_ t := reshaped (set_ctype (ctype_ t) m) sh]> σ).
Proof.
  intros Ht Hm Hr Htr Hrel. unfold deepCopyFrom_reconcile.
  rewrite (load_Some _ _ _ Ht). cbn [mbind result_bind].
  rewrite (load_Some _ _ _ Hm). cbn [mbind result_bind].
  rewrite Hr, Htr.
  destruct (relayable_reshape4 _ _ _ Hrel)
    as (b & h & s & d & r & Hb & Hh & Hs & Hd & Hre & _).
  rewrite Hb, Hh, Hs, Hd. cbn [mbind result_bind]. rewrite Hre.
  reflexivity.
Qed.

(** The child has not been transposed: it adopts the master's tag. *)
Lemma reconcile_child (σ : gmap Z Tensor) (this : ptr) (t m : Tensor)
    (sh : list Z) :
  σ !! this = Some t → σ !! master_tensor_ t = Some m →
  reconciles t m = true → transed_ t = false →
  relayable (ctype_ m) t sh →
  deepCopyFrom_reconcile σ this
  = Ok (<[this := reshaped (set_ctype (ctype_ m) t) sh]> σ).
Proof.
  intros Ht Hm Hr Htr Hrel. unfold deepCopyFrom_reconcile.
  rewrite (load_Some _ _ _ Ht). cbn [mbind result_bind].
  rewrite (load_Some _ _ _ Hm). cbn [mbind result_bind].
  rewrite Hr, Htr.
  destruct (relayable_reshape4 _ _ _ Hrel)
    as (b & h & s & d & r & Hb & Hh & Hs & Hd & Hre & _).
  rewrite Hb, Hh, Hs, Hd. cbn [mbind result_bind]. rewrite Hre.
  reflexivity.
Qed.

(** The accessors read [ctype_] and [shape_] only. *)
Lemma accessors_ext (t t' : Tensor) :
  ctype_ t = ctype_ t' → shape_ t = shape_ t' →
  batch t = batch t' ∧ head t = head t' ∧
  sequence t = sequence t' ∧ dimension t = dimension t'.
Proof.
  intros Hc Hs.
  unfold batch, head, sequence, dimension, legacyShape, shape,
    canonicalAxisIndex, numAxes.
  rewrite Hc, Hs. auto.
Qed.

Lemma deepCopyFrom_window_ext (so : list Z) (hr : Z) (src src' t : Tensor) :
  ctype_ src = ctype_ src' → shape_ src = shape_ src' →
  deepCopyFrom_window so hr src t = deepCopyFrom_window so hr src' t.
Proof.
  intros Hc Hs. destruct (accessors_ext src src' Hc Hs) as (Hb & Hh & Hsq & Hd).
  unfold deepCopyFrom_window. rewrite Hb, Hh, Hsq, Hd. reflexivity.
Qed.

(** The window block returns, and writes [shape_offset_] and
    [shape_master_] only. *)
Lemma deepCopyFrom_window_spec (so : list Z) (hr : Z) (src t : Tensor) :
  vec_size (shape_ src) <= INT_MAX → vec_size (shape_ t) <= INT_MAX →
  ∃ sm, deepCopyFrom_window so hr src t
        = Ok (set_shape_master sm (set_shape_offset so t)).
Proof.
  intros Hsrc Ht.
  destruct (accessors_total src Hsrc) as (sb & sh & ss & sd & Hb & Hh & Hs & Hd).
  destruct (accessors_total t Ht) as (_ & th & _ & _ & _ & Hth & _ & _).
  unfold deepCopyFrom_window. rewrite Hb, Hh, Hs, Hd, Hth.
  cbn [mbind result_bind].
  destruct (negb (sh =? th)); [|eauto].
  destruct (Z.eqb_spec th 1) as [->|]; cbn [andb]; [|eauto].
  destruct (Z.eqb_spec hr 1) as [->|].
  - cbn. eauto.
  - destruct (Z.ltb_spec 1 hr); [|eauto].
    unfold int_div. destruct (Z.eqb_spec hr 0); [lia|].
    cbn [mbind result_bind]. eauto.
Qed.

Lemma deepCopyFrom_members_spec (copyshape : bool) (src t : Tensor) :
  let t' := deepCopyFrom_members copyshape src t in
  host_ptr_ t' = host_ptr_ src ∧ capacity_ t' = capacity_ src ∧
  count_ t' = count_ src ∧ allocated_ t' = allocated_ src ∧
  dtype_ t' = dtype_ src ∧
  shape_ t' = (if copyshape then shape_ src else shape_ t) ∧
  ctype_ t' = ctype_ t ∧ transed_ t' = transed_ t ∧
  master_tensor_ t' = master_tensor_ t.
Proof. destruct copyshape; cbn; auto 10. Qed.

(** [deepCopyFrom] up to the loop, in terms of the store [σ1] that the tag
    reconciliation leaves, with the child [t1] and the master [m1] in it:
    only the child is written, and it takes the master's buffer members. *)
Lemma deepCopyFrom_bind_spec
    (σ σ1 : gmap Z Tensor) (this source : ptr) (child t1 m1 : Tensor)
    (copyshape : bool) (so : list Z) (hr : Z) :
  σ !! this = Some child →
  deepCopyFrom_reconcile (<[this := setMasterTensor source child]> σ) this
    = Ok σ1 →
  σ1 !! this = Some t1 → σ1 !! source = Some m1 →
  vec_size (shape_ t1) <= INT_MAX → vec_size (shape_ m1) <= INT_MAX →
  ∃ t',
    deepCopyFrom_bind σ this source copyshape so hr = Ok (<[this := t']> σ1) ∧
    host_ptr_ t' = host_ptr_ m1 ∧ capacity_ t' = capacity_ m1 ∧
    count_ t' = count_ m1 ∧ allocated_ t' = allocated_ m1 ∧
    dtype_ t' = dtype_ m1 ∧
    shape_ t'
      = (if bool_decide (so = []) && copyshape then shape_ m1 else shape_ t1) ∧
    ctype_ t' = ctype_ t1 ∧ transed_ t' = transed_ t1 ∧
    (so ≠ [] → shape_offset_ t' = so).
Proof.
  intros Hchild Hrec Ht1 Hm1 Hlt Hlm.
  unfold deepCopyFrom_bind.
  rewrite (load_Some _ _ _ Hchild). cbn [mbind result_bind].
  rewrite Hrec. cbn [mbind result_bind].
  rewrite (load_Some _ _ _ Ht1). cbn [mbind result_bind].
  rewrite (load_Some _ _ _ Hm1). cbn [mbind result_bind].
  destruct (decide (so = [])) as [->|Hso].
  - rewrite bool_decide_eq_true_2 by reflexivity. cbn [negb andb].
    eexists. split; [reflexivity|].
    destruct (deepCopyFrom_members_spec copyshape m1 t1)
      as (? & ? & ? & ? & ? & ? & ? & ? & ?).
    repeat split; try assumption. congruence.
  - rewrite bool_decide_eq_false_2 by assumption. cbn [negb andb].
    set (t2 := deepCopyFrom_members false m1 t1).
    destruct (deepCopyFrom_members_spec false m1 t1)
      as (Hp & Hcap & Hcnt & Hal & Hdt & Hsh & Hct & Htr & Hmt).
    fold t2 in Hp, Hcap, Hcnt, Hal, Hdt, Hsh, Hct, Htr, Hmt.
    rewrite (load_Some _ this t2) by apply lookup_insert_eq.
    cbn [mbind result_bind].
    assert (Hsrc : ∃ src, load (<[this := t2]> σ1) source = Ok src ∧
                          ctype_ src = ctype_ m1 ∧ shape_ src = shape_ m1).
    { destruct (decide (this = source)) as [<-|Hne].
      - exists t2. split; [apply load_Some, lookup_insert_eq|].
        assert (t1 = m1) by congruence. subst m1. split; congruence.
      - exists m1. split; [|auto].
        apply load_Some. rewrite lookup_insert_ne by assumption. exact Hm1. }
    destruct Hsrc as (src & -> & Hsc & Hss). cbn [mbind result_bind].
    rewrite (deepCopyFrom_window_ext so hr src m1 t2 Hsc Hss).
    destruct (deepCopyFrom_window_spec so hr m1 t2) as [sm ->];
      [assumption | rewrite Hsh; assumption |].
    cbn [mbind result_bind]. rewrite insert_insert_eq.
    eexists. split; [reflexivity|].
    cbn [host_ptr_ capacity_ count_ allocated_ dtype_ shape_ ctype_ transed_
         shape_offset_ set_shape_master set_shape_offset].
    repeat split; assumption.
Qed.

Lemma relayable_ext (c : ChlType) (t t' : Tensor) (sh : list Z) :
  ctype_ t = ctype_ t' → shape_ t = shape_ t' →
  relayable c t sh → relayable c t' sh.
Proof.
  intros Hc Hs (b & h & s & d & Hb & Hh & Hsq & Hd & Hn & Hv).
  destruct (accessors_ext t t' Hc Hs) as (Eb & Eh & Es & Ed).
  exists b, h, s, d. rewrite <- Eb, <- Eh, <- Es, <- Ed. auto 10.
Qed.

Lemma extents_ext (t t' : Tensor) :
  ctype_ t = ctype_ t' → shape_ t = shape_ t' → extents t = extents t'.
Proof.
  intros Hc Hs. destruct (accessors_ext t t' Hc Hs) as (Eb & Eh & Es & Ed).
  unfold extents. rewrite Eb, Eh, Es, Ed. reflexivity.
Qed.

(** Re-laying keeps the logical extents and yields four axes. *)
Lemma relayable_extents (c : ChlType) (t : Tensor) (sh : list Z) :
  relayable c t sh →
  extents (reshaped (set_ctype c t) sh) = extents t ∧ vec_size sh = 4.
Proof.
  intros Hrel.
  destruct (relayable_reshape4 _ _ _ Hrel)
    as (b & h & s & d & r & Hb & Hh & Hs & Hd & _ & He).
  split.
  - rewrite He. unfold extents. rewrite Hb, Hh, Hs, Hd. reflexivity.
  - destruct Hrel as (? & ? & ? & ? & _ & _ & _ & _ & Hn & _).
    destruct c; simpl in Hn; try discriminate; injection Hn as <-; reflexivity.
Qed.

(** A tensor of positive extents whose product fits in [int] can be laid
    out under every 4-axis tag. *)
Lemma relayable_positive (c : ChlType) (t : Tensor) (b h s d : Z) :
  is_5d c = false →
  batch t = Ok b → head t = Ok h → sequence t = Ok s → dimension t = Ok d →
  1 <= b → 1 <= h → 1 <= s → 1 <= d → b * h * s * d <= INT_MAX →
  ∃ sh, relayable c t sh.
Proof.
  intros H5 Hb Hh Hs Hd ? ? ? ? Hmax.
  assert (b * h <= b * h * s) by nia.
  assert (b * h * s <= b * h * s * d) by nia.
  assert (b * s <= b * h * s) by nia.
  assert (b * h * d <= b * h * s * d) by nia.
  assert (s * b <= b * h * s) by nia.
  assert (b <= b * h) by nia. assert (s <= s * b) by nia.
  assert (b <= b * s) by nia.
  destruct c; try discriminate; eexists; exists b, h, s, d;
    (repeat (split; [eassumption || reflexivity|]));
    unfold valid_shape; simpl; repeat split; try lia; nia.
Qed.


Lemma two_tensors_child (child master : Tensor) :
  two_tensors child master !! 1 = Some child.
Proof. apply lookup_insert_eq. Defined.

Lemma two_tensors_master (child master : Tensor) :
  two_tensors child master !! 2 = Some master.
Proof.
  unfold two_tensors. rewrite lookup_insert_ne by discriminate.
  apply lookup_insert_eq.
Defined.






(** The same binding, run: the child, not transposed, takes the
    master's tag and keeps its logical extents (1, 2, 3, 4) before the
    master's shape is copied over it. *)
Example deepCopyFrom_reconcile_run :
  (σ1 ← deepCopyFrom_reconcile
          (<[1 := setMasterTensor 2 (plain BSHD [1; 3; 2; 4] 24)]>
             (two_tensors (plain BSHD [1; 3; 2; 4] 24)
                          (owner BHDS [1; 2; 4; 8] 64 4096))) 1;
   t ← load σ1 1; e ← extents t; Ok (ctype_ t, shape_ t, e))
  = Ok (BHDS, [1; 2; 4; 3], (1, 2, 3, 4)).
Proof. vm_compute. reflexivity. Qed.

(** C9, amended on the shape vector.  In a [deepCopyFrom] with a non-empty
    offset vector the master's shape vector is never copied onto the child,
    whatever [copyshape] is: the child's [shape_] stays as it was unless the
    tag reconciliation re-lays the child (tags differ, the child's tag is no
    5-axis tag, undiffusion is false, the child has not been transposed), and
    then it holds the child's own logical extents in the master's nesting
    order.  The master's buffer pointer, capacity, count, allocation flag and
    dtype are copied onto the child, and the offset vector is recorded. *)
Theorem deepCopyFrom_offset_keeps_shape
    (σ : gmap Z Tensor) (this source : ptr) (child master : Tensor)
    (copyshape : bool) (so : list Z) (hr : Z) (sh : list Z) :
  σ !! this = Some child → σ !! source = Some master →
  so ≠ [] →
  vec_size (shape_ child) <= INT_MAX → vec_size (shape_ master) <= INT_MAX →
  (reconciles child master = true →
   if transed_ child then relayable (ctype_ child) master sh
   else relayable (ctype_ master) child sh) →
  ∃ σ' child' master',
    deepCopyFrom_bind σ this source copyshape so hr = Ok σ' ∧
    σ' !! this = Some child' ∧ σ' !! source = Some master' ∧
    shape_ child'
      = (if reconciles child master && negb (transed_ child) then sh
         else shape_ child) ∧
    host_ptr_ child' = host_ptr_ master' ∧
    capacity_ child' = capacity_ master' ∧
    count_ child' = count_ master' ∧
    allocated_ child' = allocated_ master' ∧
    dtype_ child' = dtype_ master' ∧
    host_ptr_ child' = host_ptr_ master ∧
    allocated_ child' = allocated_ master ∧
    dtype_ child' = dtype_ master ∧
    shape_offset_ child' = so.
Proof.
  intros Hchild Hmaster Hso Hlc Hlm Hrel.
  set (child0 := setMasterTensor source child).
  set (σ0 := <[this := child0]> σ).
  assert (H0t : σ0 !! this = Some child0) by apply lookup_insert_eq.
  assert (Hrc : ∀ m, reconciles child0 m = reconciles child m) by reflexivity.
  assert (Hno : bool_decide (so = []) && copyshape = false)
    by (rewrite bool_decide_eq_false_2 by assumption; reflexivity).
  destruct (decide (this = source)) as [<-|Hts].
  - (* the tensor binds to itself *)
    assert (child = master) by congruence. subst master.
    assert (Hr : reconciles child0 child0 = false).
    { unfold reconciles. rewrite (bool_decide_eq_true_2 (ctype_ child0 = ctype_ child0)) by reflexivity.
      cbn [negb]. rewrite andb_false_r. reflexivity. }
    pose proof (reconcile_off σ0 this child0 child0 H0t H0t Hr) as Hrec.
    destruct (deepCopyFrom_bind_spec σ σ0 this this child child0 child0
                copyshape so hr Hchild Hrec H0t H0t Hlc Hlc)
      as (child' & Hbind & Hp & Hcap & Hcnt & Hal & Hdt & Hsh & _ & _ & Hoff).
    exists (<[this := child']> σ0), child', child'.
    split; [exact Hbind|]. split; [apply lookup_insert_eq|].
    split; [apply lookup_insert_eq|].
    assert (Hr' : reconciles child child = false) by (rewrite <- Hrc; exact Hr).
    rewrite Hr', Hno in *. cbn [andb]. auto 15.
  - assert (H0m : σ0 !! master_tensor_ child0 = Some master).
    { cbn. unfold σ0. rewrite lookup_insert_ne by assumption. exact Hmaster. }
    assert (H0s : σ0 !! source = Some master) by exact H0m.
    destruct (reconciles child master) eqn:Hr.
    + specialize (Hrel eq_refl). destruct (transed_ child) eqn:Htr.
      * (* the master is re-laid *)
        pose proof (reconcile_master σ0 this child0 master sh H0t H0m Hr Htr Hrel)
          as Hrec.
        cbn [master_tensor_ child0 setMasterTensor set_master_tensor ctype_]
          in Hrec.
        set (master1 := reshaped (set_ctype (ctype_ child) master) sh) in *.
        set (σ1 := <[source := master1]> σ0) in *.
        assert (H1t : σ1 !! this = Some child0).
        { unfold σ1. rewrite lookup_insert_ne by auto. exact H0t. }
        assert (H1m : σ1 !! source = Some master1) by apply lookup_insert_eq.
        destruct (relayable_extents _ _ _ Hrel) as [_ Hlen].
        destruct (reshaped_members (set_ctype (ctype_ child) master) sh)
          as (Hsh1 & _ & _ & Hp1 & Hal1 & Hdt1 & _).
        fold master1 in Hsh1, Hp1, Hal1, Hdt1.
        cbn [host_ptr_ allocated_ dtype_ set_ctype] in Hp1, Hal1, Hdt1.
        destruct (deepCopyFrom_bind_spec σ σ1 this source child child0 master1
                    copyshape so hr Hchild Hrec H1t H1m)
          as (child' & Hbind & Hp & Hcap & Hcnt & Hal & Hdt & Hsh & _ & _ & Hoff).
        { exact Hlc. }
        { rewrite Hsh1, Hlen. unfold INT_MAX. lia. }
        exists (<[this := child']> σ1), child', master1.
        split; [exact Hbind|]. split; [apply lookup_insert_eq|].
        split; [rewrite lookup_insert_ne by assumption; exact H1m|].
        rewrite Hno in Hsh. cbn [andb negb].
        split; [exact Hsh|].
        repeat (split; [assumption || congruence|]). auto.
      * (* the child is re-laid *)
        assert (Hrel0 : relayable (ctype_ master) child0 sh)
          by (apply (relayable_ext _ child); [reflexivity..|exact Hrel]).
        pose proof (reconcile_child σ0 this child0 master sh H0t H0m Hr Htr Hrel0)
          as Hrec.
        set (child1 := reshaped (set_ctype (ctype_ master) child0) sh) in *.
        set (σ1 := <[this := child1]> σ0) in *.
        assert (H1t : σ1 !! this = Some child1) by apply lookup_insert_eq.
        assert (H1m : σ1 !! source = Some master).
        { unfold σ1. rewrite lookup_insert_ne by assumption. exact H0s. }
        destruct (relayable_extents _ _ _ Hrel0) as [_ Hlen].
        destruct (reshaped_members (set_ctype (ctype_ master) child0) sh)
          as (Hsh1 & _). fold child1 in Hsh1.
        destruct (deepCopyFrom_bind_spec σ σ1 this source child child1 master
                    copyshape so hr Hchild Hrec H1t H1m)
          as (child' & Hbind & Hp & Hcap & Hcnt & Hal & Hdt & Hsh & _ & _ & Hoff).
        { rewrite Hsh1, Hlen. unfold INT_MAX. lia. }
        { exact Hlm. }
        exists (<[this := child']> σ1), child', master.
        split; [exact Hbind|]. split; [apply lookup_insert_eq|].
        split; [rewrite lookup_insert_ne by assumption; exact H1m|].
        rewrite Hno in Hsh. cbn [andb negb].
        split; [congruence|].
        repeat (split; [assumption|]). auto.
    + (* no reconciliation *)
      pose proof (reconcile_off σ0 this child0 master H0t H0m Hr) as Hrec.
      destruct (deepCopyFrom_bind_spec σ σ0 this source child child0 master
                  copyshape so hr Hchild Hrec H0t H0s Hlc Hlm)
        as (child' & Hbind & Hp & Hcap & Hcnt & Hal & Hdt & Hsh & _ & _ & Hoff).
      exists (<[this := child']> σ0), child', master.
      split; [exact Hbind|]. split; [apply lookup_insert_eq|].
      split; [rewrite lookup_insert_ne by assumption; exact H0s|].
      rewrite Hno in Hsh. cbn [andb].
      split; [exact Hsh|].
      repeat (split; [assumption|]). auto.
Qed.

Lemma deepCopyFrom_offset_keeps_shape_witness :
  ∃ σ' child',
    deepCopyFrom_bind
      (two_tensors (plain BSHD [1; 3; 2; 4] 24) (owner BSHD [1; 8; 2; 4] 64 4096))
      1 2 true [0; 0; 5; 0] 1 = Ok σ' ∧
    σ' !! 1 = Some child' ∧
    shape_ child' = [1; 3; 2; 4] ∧
    host_ptr_ child' = 4096 ∧ allocated_ child' = 1 ∧
    dtype_ child' = MLLM_TYPE_F32 ∧
    shape_offset_ child' = [0; 0; 5; 0].
Proof.
  destruct (deepCopyFrom_offset_keeps_shape
              (two_tensors (plain BSHD [1; 3; 2; 4] 24)
                           (owner BSHD [1; 8; 2; 4] 64 4096))
              1 2 (plain BSHD [1; 3; 2; 4] 24) (owner BSHD [1; 8; 2; 4] 64 4096)
              true [0; 0; 5; 0] 1 [])
    as (σ' & c' & m' & Hb & Hc & _ & Hsh & _ & _ & _ & _ & _ & Hp & Hal & Hdt & Hso).
  - apply two_tensors_child.
  - apply two_tensors_master.
  - discriminate.
  - vm_compute. discriminate.
  - vm_compute. discriminate.
  - intros H. vm_compute in H. discriminate.
  - exists σ', c'. auto 10.
Defined.

(** The claim C9 as it stands, the child's [shape_] left unchanged, fails
    when the reconciliation re-lays the child: a child of shape vector
    [1, 3, 2, 4] under BSHD, bound with an offset vector to a BHDS master,
    leaves [deepCopyFrom] with the shape vector [1, 2, 4, 3], which is
    neither its own nor the master's [1, 2, 4, 8]. *)
Lemma deepCopyFrom_offset_relays_child :
  shape_ (plain BSHD [1; 3; 2; 4] 24) = [1; 3; 2; 4] ∧
  (σ' ← deepCopyFrom
          (two_tensors (plain BSHD [1; 3; 2; 4] 24)
                       (owner BHDS [1; 2; 4; 8] 64 4096))
          1 2 true [0; 0; 0; 0] 1;
   t ← load σ' 1; Ok (shape_ t, host_ptr_ t, count_ t))
  = Ok ([1; 2; 4; 3], 4096, 64).
Proof. split; [reflexivity | vm_compute; reflexivity]. Qed.

(** * Further properties *)

(** ** [reshape]: when it fails *)

Lemma reshape_loop_Ok_or_assert (shape : list Z) (count : Z) :
  (∃ c, reshape_loop shape count = Ok c) ∨
  reshape_loop shape count = Err AssertFailed.
Proof.
  revert count. induction shape as [|x rest IH]; intros count; simpl.
  - eauto.
  - destruct (0 <=? x); simpl; [|auto].
    destruct (negb (count =? 0)); simpl; [|apply IH].
    destruct (x <=? Z.quot INT_MAX count); simpl; [apply IH | auto].
Qed.

(** X1. [reshape] returns exactly on the shapes of at most 32 axes whose
    sizes are non-negative and whose running product stays within [int];
    on every other shape an assertion fails. *)
Theorem reshape_accepts_iff (t : Tensor) (shape : list Z) :
  ((∃ t' r, reshape t shape = Ok (t', r)) ↔
   vec_size shape <= 32 ∧ valid_shape shape) ∧
  (¬ (vec_size shape <= 32 ∧ valid_shape shape) →
   reshape t shape = Err AssertFailed).
Proof.
  assert (Hiff : (∃ t' r, reshape t shape = Ok (t', r)) ↔
                 vec_size shape <= 32 ∧ valid_shape shape).
  { split.
    - intros (t' & r & H). apply reshape_Ok_valid in H. tauto.
    - intros [Hl Hv]. eexists _, _. apply reshape_valid; assumption. }
  split; [exact Hiff|].
  intros Hno.
  assert (Hor : (∃ t' r, reshape t shape = Ok (t', r)) ∨
                reshape t shape = Err AssertFailed).
  { unfold reshape. destruct (vec_size shape <=? 32); simpl; [|auto].
    destruct (reshape_loop_Ok_or_assert shape 1) as [[c ->]| ->]; simpl;
      [|auto].
    left. destruct (_ <? _); eauto. }
  destruct Hor as [Hok|Herr]; [|exact Herr].
  exfalso. apply Hno, Hiff, Hok.
Qed.

Lemma reshape_accepts_iff_witness :
  reshape (plain BSHD [] 0) [2; -1; 3] = Err AssertFailed ∧
  reshape (plain BSHD [] 0) [65536; 65536] = Err AssertFailed ∧
  (∃ t' r, reshape (plain BSHD [] 0) [65536; 0; 65536] = Ok (t', r)).
Proof.
  split; [|split].
  - apply (proj2 (reshape_accepts_iff (plain BSHD [] 0) [2; -1; 3])).
    intros [_ Hv]. unfold valid_shape in Hv. simpl in Hv. lia.
  - apply (proj2 (reshape_accepts_iff (plain BSHD [] 0) [65536; 65536])).
    intros [_ Hv]. unfold valid_shape in Hv. simpl in Hv.
    unfold INT_MAX in Hv. lia.
  - apply (proj1 (reshape_accepts_iff (plain BSHD [] 0) [65536; 0; 65536])).
    split; [vm_compute; discriminate|].
    unfold valid_shape. simpl. unfold INT_MAX. lia.
Defined.

(** ** [free] and [reshape] in a row *)

(** X2. [free()] gives the buffer back but leaves [capacity_] where it
    was: a [reshape] after it, to a count within that capacity, returns
    false, no reallocation asked for, on a tensor whose host pointer is
    null. *)
Theorem reshape_after_free_keeps_capacity (t : Tensor) (shape : list Z) :
  owns_buffer t →
  vec_size shape <= 32 → valid_shape shape →
  shape_product shape <= capacity_ t →
  ∃ t',
    reshape (free t).1 shape = Ok (t', false) ∧
    (free t).2 = [host_ptr_ t] ∧
    host_ptr_ t' = nullptr ∧ allocated_ t' = 0 ∧
    capacity_ t' = capacity_ t ∧ count_ t' = shape_product shape.
Proof.
  intros Ho Hl Hv Hcap.
  pose proof Ho as (_ & _ & Ha).
  apply owns_buffer_test in Ho.
  assert (Hf : free t = (set_allocated 0 (set_host_ptr nullptr t), [host_ptr_ t])).
  { unfold free. rewrite Ha. rewrite Ha, andb_true_r in Ho. rewrite Ho.
    reflexivity. }
  rewrite Hf. cbn [fst snd].
  set (t0 := set_allocated 0 (set_host_ptr nullptr t)).
  exists (reshaped t0 shape).
  pose proof (reshape_valid t0 shape Hl Hv) as Hr.
  rewrite bool_decide_eq_false_2 in Hr by (cbn; lia).
  destruct (reshaped_members t0 shape) as (_ & Hc & Hcp & Hp & Hal & _).
  split; [exact Hr|]. split; [reflexivity|].
  split; [exact Hp|]. split; [exact Hal|].
  split; [rewrite Hcp; cbn; lia | exact Hc].
Qed.

Lemma reshape_after_free_keeps_capacity_witness :
  ∃ t',
    reshape (free (owner BSHD [1; 3; 2; 4] 24 4096)).1 [1; 3; 2; 4]
      = Ok (t', false) ∧
    (free (owner BSHD [1; 3; 2; 4] 24 4096)).2 = [4096] ∧
    host_ptr_ t' = nullptr ∧ allocated_ t' = 0 ∧
    capacity_ t' = 24 ∧ count_ t' = 24.
Proof.
  apply (reshape_after_free_keeps_capacity
           (owner BSHD [1; 3; 2; 4] 24 4096) [1; 3; 2; 4]).
  - unfold owns_buffer, nullptr. cbn. repeat split; lia.
  - vm_compute. discriminate.
  - unfold valid_shape. simpl. unfold INT_MAX. lia.
  - vm_compute. discriminate.
Defined.

(** ** [legacyShape] inside the rank *)

(** X3. For an index within the rank, from [-numAxes()] up to
    [numAxes() - 1], [legacyShape] returns an entry of the shape vector and
    never fails: the entry at the index itself when it is not negative, and
    the entry counted from the end when it is. *)
Theorem legacyShape_in_rank (t : Tensor) (i : Z) :
  vec_size (shape_ t) <= INT_MAX →
  - numAxes t <= i < numAxes t →
  ∃ x,
    legacyShape t i = Ok x ∧
    shape_ t !! Z.to_nat (i mod numAxes t) = Some x ∧
    (0 <= i → shape_ t !! Z.to_nat i = Some x) ∧
    (i < 0 → shape_ t !! Z.to_nat (i + numAxes t) = Some x).
Proof.
  intros Hn Hi.
  destruct (legacyShape_total t i Hn) as [x Hx]. exists x.
  split; [exact Hx|].
  unfold legacyShape in Hx.
  destruct (Z.leb_spec (numAxes t) i); [lia|].
  destruct (Z.ltb_spec i (- numAxes t)); [lia|]. simpl in Hx.
  unfold shape, canonicalAxisIndex in Hx.
  destruct (Z.ltb_spec i 0) as [Hneg|Hpos].
  - unfold int_add in Hx. rewrite numAxes_small in * by assumption.
    rewrite wrap_int_id in Hx
      by (unfold in_int, INT_MIN, INT_MAX, vec_size in *; lia).
    apply vec_at_Ok in Hx as [_ Hx].
    assert (Hmod : i mod vec_size (shape_ t) = i + vec_size (shape_ t)).
    { symmetry. apply (Z.mod_unique _ _ (-1)); lia. }
    rewrite Hmod. split; [exact Hx|]. split; [lia | auto].
  - apply vec_at_Ok in Hx as [_ Hx].
    rewrite Z.mod_small by lia. split; [exact Hx|]. split; [auto | lia].
Qed.

Lemma legacyShape_in_rank_witness :
  ∃ x, legacyShape (plain BSHD [1; 3; 2; 4] 24) (-1) = Ok x ∧
       [1; 3; 2; 4] !! Z.to_nat (-1 + 4) = Some x.
Proof.
  destruct (legacyShape_in_rank (plain BSHD [1; 3; 2; 4] 24) (-1))
    as (x & Hx & _ & _ & Hneg).
  - vm_compute. discriminate.
  - vm_compute. split; [discriminate | reflexivity].
  - exists x. split; [exact Hx|]. apply Hneg. lia.
Defined.

(** ** [offset] and the rank *)

(** X4. The accessors go through [legacyShape] and give 1 for an axis
    that is not there, but the 4-index [offset] of a tensor without a window
    reads [shape_[1]], [shape_[2]] and [shape_[3]] directly: under BSHD,
    BHDS or SBHD it returns an offset when the shape vector has at least
    four entries and reads outside the vector when it has fewer. *)
Theorem offset_needs_four_axes (t : Tensor) (b h s d : Z) :
  no_window t →
  is_5d (ctype_ t) = false →
  (vec_size (shape_ t) < 4 → offset t b h s d = Err OutOfBounds) ∧
  (4 <= vec_size (shape_ t) → ∃ o, offset t b h s d = Ok o).
Proof.
  unfold no_window. intros Hw H5. unfold offset. rewrite Hw.
  split; intros Hlen.
  - destruct (shape_ t) as [|n0 [|n1 [|n2 [|n3 rest]]]];
      try (unfold vec_size in Hlen; simpl length in Hlen; lia);
      destruct (ctype_ t); try discriminate; reflexivity.
  - destruct (shape_ t) as [|n0 [|n1 [|n2 [|n3 rest]]]];
      try (unfold vec_size in Hlen; simpl length in Hlen; lia).
    destruct (ctype_ t); try discriminate; cbn; eauto.
Qed.

Lemma offset_needs_four_axes_witness :
  offset (plain BSHD [2; 3] 6) 1 0 2 0 = Err OutOfBounds ∧
  accessor HEAD (plain BSHD [2; 3] 6) = Ok 1 ∧
  ∃ o, offset (plain BSHD [2; 3; 1; 1] 6) 1 0 2 0 = Ok o.
Proof.
  split; [|split].
  - apply (proj1 (offset_needs_four_axes (plain BSHD [2; 3] 6) 1 0 2 0
                    eq_refl eq_refl)).
    vm_compute. reflexivity.
  - reflexivity.
  - apply (proj2 (offset_needs_four_axes (plain BSHD [2; 3; 1; 1] 6) 1 0 2 0
                    eq_refl eq_refl)).
    vm_compute. discriminate.
Defined.

(** ** Row-major numbering at any rank *)

Lemma Ok_inj {A : Type} (a b : A) : Ok a = Ok b → a = b.
Proof. intros [= ->]. reflexivity. Qed.

Lemma in_bounds_product (axes indices : list Z) :
  in_bounds axes indices → 1 <= shape_product axes.
Proof.
  induction 1 as [|n i axes indices Hi _ IH]; simpl; [lia | nia].
Qed.

Lemma shape_product_pos (axes : list Z) :
  Forall (fun n => 1 <= n) axes → 1 <= shape_product axes.
Proof.
  induction 1 as [|n axes Hn _ IH]; unfold shape_product in *; simpl;
    [lia | nia].
Qed.

(** The number continues [acc]: it is [acc] times the product of the
    radices plus a remainder below that product. *)
Lemma radix_range (axes indices : list Z) (acc : Z) :
  in_bounds axes indices →
  acc * shape_product axes <= radix axes indices acc
    < (acc + 1) * shape_product axes.
Proof.
  intros Hb. revert acc.
  induction Hb as [|n i axes indices Hi Hrest IH]; intros acc; simpl.
  - lia.
  - specialize (IH (acc * n + i)).
    pose proof (in_bounds_product _ _ Hrest). nia.
Qed.

Lemma radix_injective (axes xs ys : list Z) (acc acc' : Z) :
  in_bounds axes xs → in_bounds axes ys →
  radix axes xs acc = radix axes ys acc' →
  acc = acc' ∧ xs = ys.
Proof.
  intros Hx. revert ys acc acc'.
  induction Hx as [|n i axes xs Hi Hrest IH]; intros ys acc acc' Hy Heq.
  - inversion Hy; subst. simpl in Heq. auto.
  - inversion Hy as [|n' j axes' ys' Hj Hrest']; subst. simpl in Heq.
    apply IH in Heq as [Heq ->]; [|assumption].
    apply radix_unique in Heq as [-> ->]; [auto | lia | lia].
Qed.

Lemma radix_surjective (axes : list Z) (acc o : Z) :
  Forall (fun n => 1 <= n) axes →
  acc * shape_product axes <= o < (acc + 1) * shape_product axes →
  ∃ indices, in_bounds axes indices ∧ radix axes indices acc = o.
Proof.
  intros Hpos. revert acc.
  induction Hpos as [|n axes Hn Hrest IH]; intros acc Ho; simpl in *.
  - exists []. split; [constructor | lia].
  - set (P := shape_product axes) in *.
    assert (HP : 1 <= P) by (apply shape_product_pos; assumption).
    pose proof (Z.div_mod o P ltac:(lia)) as Hdm.
    pose proof (Z.mod_pos_bound o P ltac:(lia)) as Hmod.
    assert (Hq : acc * n <= o / P < (acc + 1) * n).
    { split.
      - apply Z.div_le_lower_bound; lia.
      - apply Z.div_lt_upper_bound; lia. }
    destruct (IH (o / P)) as (indices & Hb & Hr); [lia|].
    exists ((o / P - acc * n) :: indices). split.
    + constructor; [lia | exact Hb].
    + replace (acc * n + (o / P - acc * n)) with (o / P) by lia. exact Hr.
Qed.

(** The loop of the source agrees with the exact number as long as the
    whole count fits in [int]. *)
Lemma offset_indices_loop_exact (axes indices : list Z) (acc : Z) :
  in_bounds axes indices → 0 <= acc →
  (acc + 1) * shape_product axes <= INT_MAX + 1 →
  offset_indices_loop axes indices acc = radix axes indices acc.
Proof.
  intros Hb. revert acc.
  induction Hb as [|n i axes indices Hi Hrest IH]; intros acc Hacc Hmax;
    simpl in *.
  - reflexivity.
  - pose proof (in_bounds_product _ _ Hrest) as HP.
    assert (0 <= acc * n) by nia.
    assert (acc * n + i + 1 <= (acc + 1) * n) by nia.
    assert ((acc * n + i + 1) * shape_product axes
            <= (acc + 1) * n * shape_product axes)
      by (apply Z.mul_le_mono_nonneg_r; lia).
    assert (acc * n + i + 1 <= (acc * n + i + 1) * shape_product axes) by nia.
    unfold int_mul, int_add.
    rewrite (wrap_int_id (acc * n))
      by (unfold in_int, INT_MIN, INT_MAX in *; lia).
    rewrite (wrap_int_id (acc * n + i))
      by (unfold in_int, INT_MIN, INT_MAX in *; lia).
    apply IH; lia.
Qed.

Lemma wrap_int_range (z : Z) : in_int (wrap_int z).
Proof.
  unfold in_int, wrap_int, INT_MIN, INT_MAX.
  pose proof (Z.mod_pos_bound (z + 2 ^ 31) (2 ^ 32) ltac:(lia)). lia.
Qed.

Lemma offset_indices_loop_in_int (axes indices : list Z) (acc : Z) :
  in_int acc → in_int (offset_indices_loop axes indices acc).
Proof.
  revert indices acc. induction axes as [|n axes IH]; intros indices acc Ha;
    simpl; [assumption|].
  destruct indices; apply IH; apply wrap_int_range.
Qed.

(** ** The vector form of [offset] *)

Lemma offset_indices_plain (t : Tensor) (indices : list Z) :
  no_window t → vec_size (shape_ t) <= INT_MAX →
  offset_indices t indices = Ok (offset_indices_loop (shape_ t) indices 0).
Proof.
  unfold no_window. intros Hw Hn. unfold offset_indices. rewrite Hw.
  rewrite numAxes_small by assumption. unfold vec_size.
  rewrite Nat2Z.id, firstn_all. reflexivity.
Qed.

(** X5. On a tensor without a window, of any rank, with all axis sizes at
    least 1 and an element count within [int], the vector form of [offset]
    maps the index vectors that have one in-range index per axis one-to-one
    onto the offsets 0, ..., count - 1. *)
Theorem offset_indices_bijective (t : Tensor) :
  no_window t → vec_size (shape_ t) <= INT_MAX →
  Forall (fun n => 1 <= n) (shape_ t) →
  shape_product (shape_ t) <= INT_MAX →
  (∀ indices, in_bounds (shape_ t) indices →
     ∃ o, offset_indices t indices = Ok o ∧
          0 <= o < shape_product (shape_ t)) ∧
  (∀ xs ys, in_bounds (shape_ t) xs → in_bounds (shape_ t) ys →
     offset_indices t xs = offset_indices t ys → xs = ys) ∧
  (∀ o, 0 <= o < shape_product (shape_ t) →
     ∃ indices, in_bounds (shape_ t) indices ∧ offset_indices t indices = Ok o).
Proof.
  intros Hw Hn Hpos Hmax.
  assert (Hex : ∀ indices, in_bounds (shape_ t) indices →
            offset_indices t indices = Ok (radix (shape_ t) indices 0)).
  { intros indices Hb. rewrite offset_indices_plain by assumption.
    rewrite offset_indices_loop_exact by (assumption || lia). reflexivity. }
  split; [|split].
  - intros indices Hb. rewrite (Hex _ Hb). eexists. split; [reflexivity|].
    pose proof (radix_range _ _ 0 Hb). lia.
  - intros xs ys Hx Hy. rewrite (Hex _ Hx), (Hex _ Hy). intros Heq.
    apply Ok_inj in Heq. apply (radix_injective _ _ _ _ _ Hx Hy Heq).
  - intros o Ho.
    destruct (radix_surjective (shape_ t) 0 o Hpos ltac:(lia))
      as (indices & Hb & Hr).
    exists indices. split; [exact Hb|]. rewrite (Hex _ Hb), Hr. reflexivity.
Qed.

Lemma offset_indices_bijective_witness :
  (∀ indices, in_bounds [2; 3; 4] indices →
     ∃ o, offset_indices (plain BSHD [2; 3; 4] 24) indices = Ok o ∧
          0 <= o < shape_product [2; 3; 4]) ∧
  (∀ xs ys, in_bounds [2; 3; 4] xs → in_bounds [2; 3; 4] ys →
     offset_indices (plain BSHD [2; 3; 4] 24) xs
       = offset_indices (plain BSHD [2; 3; 4] 24) ys → xs = ys) ∧
  (∀ o, 0 <= o < shape_product [2; 3; 4] →
     ∃ indices, in_bounds [2; 3; 4] indices ∧
                offset_indices (plain BSHD [2; 3; 4] 24) indices = Ok o).
Proof.
  apply (offset_indices_bijective (plain BSHD [2; 3; 4] 24)).
  - reflexivity.
  - vm_compute. discriminate.
  - cbn. repeat constructor; lia.
  - vm_compute. discriminate.
Defined.

Lemma offset_indices_loop_zeros (axes indices : list Z) (k : nat) (acc : Z) :
  in_int acc →
  offset_indices_loop axes (indices ++ replicate k 0) acc
  = offset_indices_loop axes indices acc.
Proof.
  revert indices k acc.
  induction axes as [|n axes IH]; intros indices k acc Hacc; simpl;
    [reflexivity|].
  destruct indices as [|i indices]; simpl.
  - destruct k as [|k]; simpl; [reflexivity|].
    unfold int_add. rewrite Z.add_0_r.
    rewrite (wrap_int_id (int_mul acc n)) by apply wrap_int_range.
    apply (IH [] k). apply wrap_int_range.
  - apply IH. apply wrap_int_range.
Qed.

Lemma offset_indices_loop_extra (axes indices extra : list Z) (acc : Z) :
  (length axes <= length indices)%nat →
  offset_indices_loop axes (indices ++ extra) acc
  = offset_indices_loop axes indices acc.
Proof.
  revert indices acc.
  induction axes as [|n axes IH]; intros indices acc Hlen; simpl;
    [reflexivity|].
  destruct indices as [|i indices]; simpl in *; [lia|].
  apply IH. lia.
Qed.

(** X6. On a tensor without a window the vector form of [offset] takes
    an index vector of any length: indices that are missing at the end count
    as 0, and indices beyond the rank are ignored. *)
Theorem offset_indices_any_length
    (t : Tensor) (indices extra : list Z) (k : nat) :
  no_window t → vec_size (shape_ t) <= INT_MAX →
  offset_indices t (indices ++ replicate k 0) = offset_indices t indices ∧
  (vec_size (shape_ t) <= vec_size indices →
   offset_indices t (indices ++ extra) = offset_indices t indices).
Proof.
  intros Hw Hn. rewrite !offset_indices_plain by assumption. split.
  - rewrite offset_indices_loop_zeros; [reflexivity|].
    unfold in_int, INT_MIN, INT_MAX. lia.
  - intros Hlen. rewrite offset_indices_loop_extra; [reflexivity|].
    unfold vec_size in Hlen. lia.
Qed.

Lemma offset_indices_any_length_witness :
  offset_indices (plain BSHD [2; 3; 4; 5] 120) ([1; 2] ++ replicate 2 0)
  = offset_indices (plain BSHD [2; 3; 4; 5] 120) [1; 2].
Proof.
  refine (proj1 (offset_indices_any_length
                   (plain BSHD [2; 3; 4; 5] 120) [1; 2] [] 2 _ _)).
  - reflexivity.
  - vm_compute. discriminate.
Defined.

(** X7. The vector form of [offset] and the 4-index form agree when the
    index vector lists the indices in the order in which the tag nests the
    axes in memory, on a tensor of four axes without a window; on a window
    the vector is read as (batch, head, sequence, dimension) whatever the
    tag. *)
Theorem offset_indices_order (t : Tensor) (b h s d : Z) :
  in_int b → in_int s →
  (no_window t → vec_size (shape_ t) = 4 →
   match ctype_ t with
   | BSHD => offset_indices t [b; s; h; d] = offset t b h s d
   | BHDS => offset_indices t [b; h; d; s] = offset t b h s d
   | SBHD => offset_indices t [s; b; h; d] = offset t b h s d
   | _ => True
   end) ∧
  (¬ no_window t → offset_indices t [b; h; s; d] = offset t b h s d).
Proof.
  intros Hb Hs. split.
  - intros Hw Hlen.
    rewrite !offset_indices_plain
      by (assumption || rewrite Hlen; unfold INT_MAX; lia).
    unfold no_window in Hw. unfold offset. rewrite Hw.
    destruct (shape_ t) as [|n0 [|n1 [|n2 [|n3 [|? ?]]]]];
      try (exfalso; unfold vec_size in Hlen; simpl length in Hlen; lia).
    assert (Hfirst : ∀ x, in_int x → int_add (int_mul 0 n0) x = x).
    { intros x Hx. unfold int_add, int_mul. rewrite Z.mul_0_l.
      change (wrap_int 0) with 0. rewrite Z.add_0_l. apply wrap_int_id, Hx. }
    pose proof (Hfirst b Hb) as Eb. pose proof (Hfirst s Hs) as Es.
    change (vec_at [n0; n1; n2; n3] 1) with (Ok n1).
    change (vec_at [n0; n1; n2; n3] 2) with (Ok n2).
    change (vec_at [n0; n1; n2; n3] 3) with (Ok n3).
    cbn [mbind result_bind]. unfold nest4.
    destruct (ctype_ t); try exact I; cbn [offset_indices_loop];
      rewrite ?Eb, ?Es; reflexivity.
  - unfold no_window. intros Hw. apply not_false_is_true in Hw.
    unfold offset_indices. rewrite Hw. reflexivity.
Qed.

Lemma offset_indices_order_witness :
  offset_indices (owner BHDS [2; 3; 4; 5] 120 4096) [1; 2; 3; 4]
  = offset (owner BHDS [2; 3; 4; 5] 120 4096) 1 2 4 3.
Proof.
  apply (proj1 (offset_indices_order (owner BHDS [2; 3; 4; 5] 120 4096) 1 2 4 3
                  ltac:(unfold in_int, INT_MIN, INT_MAX; lia)
                  ltac:(unfold in_int, INT_MIN, INT_MAX; lia))
               eq_refl eq_refl).
Defined.

(** ** The 5-index [offset] *)

Lemma in_bounds5 (n0 n1 n2 n3 n4 x0 x1 x2 x3 x4 : Z) :
  in_bounds [n0; n1; n2; n3; n4] [x0; x1; x2; x3; x4] ↔
  valid_index5 n0 n1 n2 n3 n4 x0 x1 x2 x3 x4.
Proof.
  unfold in_bounds, valid_index5. split.
  - intros H. repeat (apply Forall2_cons_1 in H as [? H]). auto.
  - intros (? & ? & ? & ? & ?). repeat constructor; lia.
Qed.

Lemma nest5_exact (n0 n1 n2 n3 n4 x0 x1 x2 x3 x4 : Z) :
  n0 * n1 * n2 * n3 * n4 <= INT_MAX →
  valid_index5 n0 n1 n2 n3 n4 x0 x1 x2 x3 x4 →
  nest5 x0 n1 x1 n2 x2 n3 x3 n4 x4
  = radix [n0; n1; n2; n3; n4] [x0; x1; x2; x3; x4] 0.
Proof.
  intros Hmax Hv.
  rewrite <- offset_indices_loop_exact.
  - cbn [offset_indices_loop]. unfold nest5, nest4.
    assert (Hfirst : int_add (int_mul 0 n0) x0 = x0).
    { unfold int_add, int_mul. rewrite Z.mul_0_l.
      change (wrap_int 0) with 0. rewrite Z.add_0_l. apply wrap_int_id.
      destruct Hv as (? & ? & ? & ? & ?).
      assert (n0 <= n0 * n1) by nia.
      assert (n0 * n1 <= n0 * n1 * n2) by nia.
      assert (n0 * n1 * n2 <= n0 * n1 * n2 * n3) by nia.
      assert (n0 * n1 * n2 * n3 <= n0 * n1 * n2 * n3 * n4) by nia.
      unfold in_int, INT_MIN, INT_MAX in *. lia. }
    rewrite Hfirst. reflexivity.
  - apply in_bounds5, Hv.
  - lia.
  - unfold shape_product. simpl. lia.
Qed.

(** X8. On a tensor with a 5-axis tag whose logical extents (batch,
    channel, time, height, width) are at least 1 and whose element count
    fits in [int], the 5-index [offset] maps the valid index tuples
    one-to-one onto the offsets 0, ..., B*C*T*H*W - 1, under BCTHW and
    under BTHWC. *)
Theorem offset5_bijective (t : Tensor) (B C T H W : Z) :
  is_5d (ctype_ t) = true →
  batch t = Ok B → channel t = Ok C → time t = Ok T →
  height t = Ok H → width t = Ok W →
  1 <= B → 1 <= C → 1 <= T → 1 <= H → 1 <= W →
  B * C * T * H * W <= INT_MAX →
  (∀ b c tm h w, valid_index5 B C T H W b c tm h w →
     ∃ o, offset5 t b c tm h w = Ok o ∧ 0 <= o < B * C * T * H * W) ∧
  (∀ b c tm h w b' c' tm' h' w',
     valid_index5 B C T H W b c tm h w →
     valid_index5 B C T H W b' c' tm' h' w' →
     offset5 t b c tm h w = offset5 t b' c' tm' h' w' →
     b = b' ∧ c = c' ∧ tm = tm' ∧ h = h' ∧ w = w') ∧
  (∀ o, 0 <= o < B * C * T * H * W →
     ∃ b c tm h w, valid_index5 B C T H W b c tm h w ∧
                   offset5 t b c tm h w = Ok o).
Proof.
  intros H5 Hb Hc Ht Hh Hw HB HC HT HH HW Hmax.
  destruct (ctype_ t) eqn:Htag; try discriminate.
  - (* BCTHW: batch, channel, time, height, width *)
    assert (Hoff : ∀ b c tm h w, valid_index5 B C T H W b c tm h w →
              offset5 t b c tm h w
              = Ok (radix [B; C; T; H; W] [b; c; tm; h; w] 0)).
    { intros b c tm h w Hv. unfold offset5. rewrite Htag, Hc, Ht, Hh, Hw.
      cbn [is_5d assert mbind result_bind].
      rewrite (nest5_exact B) by assumption. reflexivity. }
    assert (HP : shape_product [B; C; T; H; W] = B * C * T * H * W)
      by (unfold shape_product; simpl; lia).
    split; [|split].
    + intros b c tm h w Hv. rewrite (Hoff _ _ _ _ _ Hv).
      eexists. split; [reflexivity|].
      pose proof (radix_range _ _ 0 (proj2 (in_bounds5 _ _ _ _ _ _ _ _ _ _) Hv)).
      lia.
    + intros b c tm h w b' c' tm' h' w' Hv Hv'.
      rewrite (Hoff _ _ _ _ _ Hv), (Hoff _ _ _ _ _ Hv'). intros Heq.
      apply Ok_inj, radix_injective in Heq as [_ [= -> -> -> -> ->]];
        [auto | apply in_bounds5, Hv | apply in_bounds5, Hv'].
    + intros o Ho.
      destruct (radix_surjective [B; C; T; H; W] 0 o) as (idx & Hi & Hr).
      { repeat constructor; assumption. }
      { rewrite HP. lia. }
      pose proof Hi as Hi'.
      destruct idx as [|b [|c [|tm [|h [|w [|? ?]]]]]];
        try (apply Forall2_length in Hi'; simpl in Hi'; discriminate).
      apply in_bounds5 in Hi.
      exists b, c, tm, h, w. split; [exact Hi|].
      rewrite (Hoff _ _ _ _ _ Hi), Hr. reflexivity.
  - (* BTHWC: batch, time, height, width, channel *)
    assert (Hperm : ∀ b c tm h w, valid_index5 B C T H W b c tm h w ↔
                                  valid_index5 B T H W C b tm h w c)
      by (unfold valid_index5; intros; tauto).
    assert (Hmax' : B * T * H * W * C <= INT_MAX) by lia.
    assert (Hoff : ∀ b c tm h w, valid_index5 B C T H W b c tm h w →
              offset5 t b c tm h w
              = Ok (radix [B; T; H; W; C] [b; tm; h; w; c] 0)).
    { intros b c tm h w Hv. unfold offset5. rewrite Htag, Hc, Ht, Hh, Hw.
      cbn [is_5d assert mbind result_bind].
      rewrite (nest5_exact B) by (assumption || apply Hperm, Hv).
      reflexivity. }
    assert (HP : shape_product [B; T; H; W; C] = B * C * T * H * W)
      by (unfold shape_product; simpl; lia).
    split; [|split].
    + intros b c tm h w Hv. rewrite (Hoff _ _ _ _ _ Hv).
      eexists. split; [reflexivity|].
      pose proof (radix_range _ _ 0
        (proj2 (in_bounds5 _ _ _ _ _ _ _ _ _ _) (proj1 (Hperm _ _ _ _ _) Hv))).
      lia.
    + intros b c tm h w b' c' tm' h' w' Hv Hv'.
      rewrite (Hoff _ _ _ _ _ Hv), (Hoff _ _ _ _ _ Hv'). intros Heq.
      apply Ok_inj, radix_injective in Heq as [_ [= -> -> -> -> ->]];
        [auto | apply in_bounds5, Hperm, Hv | apply in_bounds5, Hperm, Hv'].
    + intros o Ho.
      destruct (radix_surjective [B; T; H; W; C] 0 o) as (idx & Hi & Hr).
      { repeat constructor; assumption. }
      { rewrite HP. lia. }
      pose proof Hi as Hi'.
      destruct idx as [|b [|tm [|h [|w [|c [|? ?]]]]]];
        try (apply Forall2_length in Hi'; simpl in Hi'; discriminate).
      apply in_bounds5, Hperm in Hi.
      exists b, c, tm, h, w. split; [exact Hi|].
      rewrite (Hoff _ _ _ _ _ Hi), Hr. reflexivity.
Qed.

Lemma offset5_bijective_witness :
  (∀ b c tm h w, valid_index5 1 3 2 4 5 b c tm h w →
     ∃ o, offset5 (owner BTHWC [1; 2; 4; 5; 3] 120 4096) b c tm h w = Ok o
          ∧ 0 <= o < 1 * 3 * 2 * 4 * 5) ∧
  (∀ b c tm h w b' c' tm' h' w',
     valid_index5 1 3 2 4 5 b c tm h w →
     valid_index5 1 3 2 4 5 b' c' tm' h' w' →
     offset5 (owner BTHWC [1; 2; 4; 5; 3] 120 4096) b c tm h w
       = offset5 (owner BTHWC [1; 2; 4; 5; 3] 120 4096) b' c' tm' h' w' →
     b = b' ∧ c = c' ∧ tm = tm' ∧ h = h' ∧ w = w') ∧
  (∀ o, 0 <= o < 1 * 3 * 2 * 4 * 5 →
     ∃ b c tm h w, valid_index5 1 3 2 4 5 b c tm h w ∧
       offset5 (owner BTHWC [1; 2; 4; 5; 3] 120 4096) b c tm h w = Ok o).
Proof.
  apply (offset5_bijective (owner BTHWC [1; 2; 4; 5; 3] 120 4096) 1 3 2 4 5);
    try reflexivity; try lia.
  unfold INT_MAX. lia.
Defined.

(** ** [checkDim]: the two packed modes *)

Lemma int_div_nonneg (a b : Z) :
  0 <= a <= INT_MAX → 0 < b → int_div a b = Ok (a / b).
Proof.
  intros Ha Hb. unfold int_div. destruct (Z.eqb_spec b 0); [lia|].
  rewrite Z.quot_div_nonneg by lia. rewrite wrap_int_id; [reflexivity|].
  assert (0 <= a / b) by (apply Z.div_pos; lia).
  assert (a / b <= a) by (apply Z.div_le_upper_bound; nia).
  unfold in_int, INT_MIN. lia.
Qed.

Lemma int_rem_nonneg (a b : Z) :
  0 <= a <= INT_MAX → 0 < b → int_rem a b = Ok (a mod b).
Proof.
  intros Ha Hb. unfold int_rem. destruct (Z.eqb_spec b 0); [lia|].
  rewrite Z.rem_mod_nonneg by lia. rewrite wrap_int_id; [reflexivity|].
  pose proof (Z.mod_pos_bound a b Hb).
  assert (a mod b <= a) by (apply Z.mod_le; lia).
  unfold in_int, INT_MIN. lia.
Qed.

(** X9. In mode [D_HD] the dimension index packs (head, constituent,
    local dimension) with the head slowest.  For a non-negative [d], a
    first constituent of dimension extent [ds > 0] and [n] constituents,
    [checkDim] returns the constituent [d / ds mod n], within the list, the
    local dimension [d mod ds], within the extent, and the head
    [d / (ds * n)], which replaces the head index given; the three put
    together give [d] back, and batch and sequence are left alone. *)
Theorem checkDim_D_HD_decodes
    (σ : gmap Z Tensor) (t t0 : Tensor) (p0 : ptr) (b h s d ds : Z) :
  aggregated_ t = true → aggregated_dim_ t = D_HD →
  aggregated_tensors_ t !! O = Some p0 → σ !! p0 = Some t0 →
  dimension t0 = Ok ds → 0 < ds →
  ds * vec_size (aggregated_tensors_ t) <= INT_MAX →
  0 <= d <= INT_MAX →
  ∃ r,
    checkDim σ t b h s d = Ok r ∧
    r_b r = b ∧ r_s r = s ∧
    0 <= tensor_id r < vec_size (aggregated_tensors_ t) ∧
    0 <= r_d r < ds ∧ 0 <= r_h r ∧
    d = (r_h r * vec_size (aggregated_tensors_ t) + tensor_id r) * ds + r_d r.
Proof.
  intros Hagg Hdim Hp0 Ht0 Hds Hpos Hmax Hd.
  set (n := vec_size (aggregated_tensors_ t)) in *.
  assert (Hn : 1 <= n).
  { apply lookup_lt_Some in Hp0. unfold n, vec_size. lia. }
  assert (Hat : vec_at (aggregated_tensors_ t) 0 = Ok p0)
    by (apply vec_at_Ok; split; [lia | exact Hp0]).
  assert (Hm : int_mul ds n = ds * n).
  { apply wrap_int_id. unfold in_int, INT_MIN. nia. }
  assert (Hmpos : 0 < ds * n) by nia.
  pose proof (Z.div_mod d (ds * n) ltac:(lia)) as E1.
  pose proof (Z.mod_pos_bound d (ds * n) Hmpos) as B1.
  pose proof (Z.div_mod (d mod (ds * n)) ds ltac:(lia)) as E2.
  pose proof (Z.mod_pos_bound (d mod (ds * n)) ds Hpos) as B2.
  assert (Hdm : d mod (ds * n) <= INT_MAX).
  { assert (d mod (ds * n) <= d) by (apply Z.mod_le; lia). lia. }
  unfold checkDim. rewrite Hagg, Hdim. cbn [negb].
  rewrite Hat. cbn [mbind result_bind].
  rewrite (load_Some _ _ _ Ht0). cbn [mbind result_bind].
  rewrite Hds. cbn [mbind result_bind]. fold n. rewrite Hm.
  rewrite (int_div_nonneg d (ds * n)) by lia. cbn [mbind result_bind].
  rewrite (int_rem_nonneg d (ds * n)) by lia. cbn [mbind result_bind].
  rewrite (int_div_nonneg (d mod (ds * n)) ds) by lia.
  cbn [mbind result_bind].
  rewrite (int_rem_nonneg (d mod (ds * n)) ds) by lia.
  cbn [mbind result_bind].
  eexists. split; [reflexivity|]. cbn [r_b r_s r_h r_d tensor_id].
  assert (0 <= d / (ds * n)) by (apply Z.div_pos; lia).
  assert (0 <= d mod (ds * n) / ds < n).
  { split; [apply Z.div_pos; lia | apply Z.div_lt_upper_bound; lia]. }
  repeat split; try lia.
Qed.

Lemma checkDim_D_HD_decodes_witness :
  ∃ r,
    checkDim (<[7 := plain BSHD [1; 5; 2; 4] 40]> ∅)
      (aggregate BSHD [1; 5; 2; 24] [7; 7; 7] D_HD []) 0 9 3 17 = Ok r ∧
    r_b r = 0 ∧ r_s r = 3 ∧ 0 <= tensor_id r < 3 ∧ 0 <= r_d r < 4 ∧
    0 <= r_h r ∧ 17 = (r_h r * 3 + tensor_id r) * 4 + r_d r.
Proof.
  apply (checkDim_D_HD_decodes (<[7 := plain BSHD [1; 5; 2; 4] 40]> ∅)
           (aggregate BSHD [1; 5; 2; 24] [7; 7; 7] D_HD [])
           (plain BSHD [1; 5; 2; 4] 40) 7 0 9 3 17 4);
    try reflexivity; try lia; try apply lookup_insert_eq;
    try (vm_compute; discriminate); unfold INT_MAX; lia.
Defined.

Example checkDim_D_HD_17 :
  checkDim (<[7 := plain BSHD [1; 5; 2; 4] 40]> ∅)
    (aggregate BSHD [1; 5; 2; 24] [7; 7; 7] D_HD []) 0 9 3 17
  = Ok (mkRouted 1 0 1 3 1).
Proof. vm_compute. reflexivity. Qed.

(** X10. In mode [HD] the dimension index packs (constituent, head,
    local dimension) with the constituent slowest.  For a non-negative [d]
    and a first constituent of dimension extent [ds > 0] and head extent
    [hs > 0], [checkDim] returns the constituent [d / (ds * hs)], the head
    [d / ds mod hs], within the head extent, and the local dimension
    [d mod ds], within the dimension extent; the three put together give
    [d] back; the constituent is within the list exactly when [d] is below
    [n * hs * ds], which [checkDim] itself does not check. *)
Theorem checkDim_HD_decodes
    (σ : gmap Z Tensor) (t t0 : Tensor) (p0 : ptr) (b h s d ds hs : Z) :
  aggregated_ t = true → aggregated_dim_ t = HD →
  aggregated_tensors_ t !! O = Some p0 → σ !! p0 = Some t0 →
  dimension t0 = Ok ds → head t0 = Ok hs → 0 < ds → 0 < hs →
  ds * hs <= INT_MAX →
  0 <= d <= INT_MAX →
  ∃ r,
    checkDim σ t b h s d = Ok r ∧
    r_b r = b ∧ r_s r = s ∧
    0 <= tensor_id r ∧ 0 <= r_h r < hs ∧ 0 <= r_d r < ds ∧
    d = (tensor_id r * hs + r_h r) * ds + r_d r ∧
    (tensor_id r < vec_size (aggregated_tensors_ t) ↔
     d < vec_size (aggregated_tensors_ t) * hs * ds).
Proof.
  intros Hagg Hdim Hp0 Ht0 Hds Hhs Hpos Hhpos Hmax Hd.
  set (n := vec_size (aggregated_tensors_ t)) in *.
  assert (Hat : vec_at (aggregated_tensors_ t) 0 = Ok p0)
    by (apply vec_at_Ok; split; [lia | exact Hp0]).
  assert (Hm : int_mul ds hs = ds * hs).
  { apply wrap_int_id. unfold in_int, INT_MIN. nia. }
  assert (Hmpos : 0 < ds * hs) by nia.
  pose proof (Z.div_mod d (ds * hs) ltac:(lia)) as E1.
  pose proof (Z.mod_pos_bound d (ds * hs) Hmpos) as B1.
  assert (Hq : 0 <= d / (ds * hs)) by (apply Z.div_pos; lia).
  assert (Hqm : 0 <= d / (ds * hs) * (ds * hs) <= d) by nia.
  assert (Hsub : d - d / (ds * hs) * (ds * hs) = d mod (ds * hs)) by lia.
  pose proof (Z.div_mod (d mod (ds * hs)) ds ltac:(lia)) as E2.
  pose proof (Z.mod_pos_bound (d mod (ds * hs)) ds Hpos) as B2.
  unfold checkDim. rewrite Hagg, Hdim. cbn [negb].
  rewrite Hat. cbn [mbind result_bind].
  rewrite (load_Some _ _ _ Ht0). cbn [mbind result_bind].
  rewrite Hds. cbn [mbind result_bind].
  rewrite Hhs. cbn [mbind result_bind]. rewrite Hm.
  rewrite (int_div_nonneg d (ds * hs)) by lia. cbn [mbind result_bind].
  assert (Hr : int_sub d (int_mul (d / (ds * hs)) (ds * hs))
               = d mod (ds * hs)).
  { unfold int_sub, int_mul.
    rewrite (wrap_int_id (d / (ds * hs) * (ds * hs)))
      by (unfold in_int, INT_MIN; lia).
    rewrite Hsub. apply wrap_int_id. unfold in_int, INT_MIN. lia. }
  rewrite Hr.
  rewrite (int_div_nonneg (d mod (ds * hs)) ds) by lia.
  cbn [mbind result_bind].
  rewrite (int_rem_nonneg (d mod (ds * hs)) ds) by lia.
  cbn [mbind result_bind].
  eexists. split; [reflexivity|]. cbn [r_b r_s r_h r_d tensor_id].
  assert (0 <= d mod (ds * hs) / ds < hs).
  { split; [apply Z.div_pos; lia | apply Z.div_lt_upper_bound; lia]. }
  split; [reflexivity|]. split; [reflexivity|]. split; [exact Hq|].
  split; [assumption|]. split; [lia|]. split; [lia|].
  split; intros Hlt.
  - assert (d / (ds * hs) + 1 <= n) by lia.
    assert ((d / (ds * hs) + 1) * (ds * hs) <= n * (ds * hs))
      by (apply Z.mul_le_mono_nonneg_r; lia).
    lia.
  - apply Z.div_lt_upper_bound; lia.
Qed.

Lemma checkDim_HD_decodes_witness :
  ∃ r,
    checkDim (<[7 := plain BSHD [1; 5; 2; 4] 40]> ∅)
      (aggregate BSHD [1; 5; 2; 24] [7; 7; 7] HD []) 0 9 3 17 = Ok r ∧
    r_b r = 0 ∧ r_s r = 3 ∧ 0 <= tensor_id r ∧ 0 <= r_h r < 2 ∧
    0 <= r_d r < 4 ∧ 17 = (tensor_id r * 2 + r_h r) * 4 + r_d r ∧
    (tensor_id r < 3 ↔ 17 < 3 * 2 * 4).
Proof.
  apply (checkDim_HD_decodes (<[7 := plain BSHD [1; 5; 2; 4] 40]> ∅)
           (aggregate BSHD [1; 5; 2; 24] [7; 7; 7] HD [])
           (plain BSHD [1; 5; 2; 4] 40) 7 0 9 3 17 4 2);
    try reflexivity; try lia; try apply lookup_insert_eq;
    try (vm_compute; discriminate); unfold INT_MAX; lia.
Defined.

(** ** [addTensors] *)

Lemma assert_same_Ok (f : Tensor → result Z) (t c : Tensor) :
  same_extent f t c → assert_same f t c = Ok tt.
Proof.
  intros (v & Hc & Ht). unfold assert_same. rewrite Hc, Ht.
  cbn [mbind result_bind]. rewrite Z.eqb_refl. reflexivity.
Qed.

Lemma constituent_asserts (σ : gmap Z Tensor) (dim : Chl) (t : Tensor)
    (p : ptr) (x : Z) :
  simple_mode dim → constituent σ dim t p x →
  ∃ c, load σ p = Ok c ∧ addTensors_asserts dim t c = Ok tt ∧
       along dim c = Ok x.
Proof.
  intros Hmode (c & Hp & Hx & Hsame). exists c.
  split; [apply load_Some, Hp|]. split; [|exact Hx].
  unfold addTensors_asserts.
  destruct Hmode as [-> |[-> | ->]]; destruct Hsame as (H1 & H2 & H3);
    rewrite (assert_same_Ok _ _ _ H1), (assert_same_Ok _ _ _ H2),
      (assert_same_Ok _ _ _ H3); reflexivity.
Qed.

Lemma total_nonneg (xs : list Z) : Forall (fun x => 0 <= x) xs → 0 <= total xs.
Proof. induction 1; unfold total in *; simpl; lia. Qed.

Lemma addTensors_loop_sums (σ : gmap Z Tensor) (dim : Chl) (t : Tensor)
    (ts : list ptr) (xs : list Z) (sum : Z) (dims : list Z) :
  simple_mode dim →
  Forall2 (constituent σ dim t) ts xs →
  Forall (fun x => 0 <= x) xs →
  0 <= sum → sum + total xs <= INT_MAX →
  addTensors_loop σ dim t ts sum dims
  = Ok (sum + total xs, dims ++ prefix_sums sum xs).
Proof.
  intros Hmode Hcs. revert sum dims.
  induction Hcs as [|p x ts xs Hc _ IH]; intros sum dims Hpos Hsum Hmax.
  - simpl. rewrite app_nil_r. unfold total. simpl. do 2 f_equal. lia.
  - apply Forall_cons_1 in Hpos as [Hx Hpos].
    pose proof (total_nonneg _ Hpos) as Hrest.
    unfold total in Hmax, Hrest |- *. simpl in Hmax |- *.
    destruct (constituent_asserts _ _ _ _ _ Hmode Hc) as (c & Hl & Ha & Hal).
    rewrite Hl. cbn [mbind result_bind]. rewrite Ha. cbn [mbind result_bind].
    rewrite Hal. cbn [mbind result_bind].
    assert (Hadd : int_add sum x = sum + x).
    { apply wrap_int_id. unfold in_int, INT_MIN. lia. }
    rewrite Hadd. fold (total xs). rewrite IH by (assumption || unfold total; lia).
    rewrite <- app_assoc. simpl. do 2 f_equal. unfold total. lia.
Qed.

(** The table that [addTensors] builds, and its last assertion. *)
Lemma addTensors_table
    (σ : gmap Z Tensor) (t : Tensor) (ts : list ptr) (xs : list Z)
    (dim : Chl) (own : Z) :
  simple_mode dim →
  Forall2 (constituent σ dim t) ts xs →
  Forall (fun x => 0 <= x) xs →
  total xs <= INT_MAX →
  along dim t = Ok own →
  (total xs = own →
   ∃ t',
     addTensors σ t ts dim = Ok t' ∧
     aggregated_ t' = true ∧ aggregated_dim_ t' = dim ∧
     aggregated_tensors_ t' = ts ∧
     aggregated_dims_ t' = prefix_sums 0 xs ∧
     shape_ t' = shape_ t ∧ ctype_ t' = ctype_ t ∧
     host_ptr_ t' = host_ptr_ t) ∧
  (total xs ≠ own → addTensors σ t ts dim = Err AssertFailed).
Proof.
  intros Hmode Hcs Hpos Hmax Hown.
  set (t0 := set_aggregated_dims []
               (set_aggregated_dim dim (set_aggregated true t))).
  assert (Hloop : addTensors_loop σ dim t0 ts 0 []
                  = Ok (total xs, prefix_sums 0 xs)).
  { rewrite (addTensors_loop_sums σ dim t0 ts xs 0 []);
      [reflexivity | assumption | | assumption | lia | lia].
    eapply Forall2_impl; [exact Hcs|]. intros p x Hc. exact Hc. }
  assert (Hown0 : along dim t0 = Ok own).
  { rewrite <- Hown. destruct dim; reflexivity. }
  unfold addTensors. fold t0.
  split.
  - intros Heq. eexists. split.
    + destruct Hmode as [-> |[-> | ->]]; rewrite Hloop;
        cbn [mbind result_bind fst snd]; rewrite Hown0;
        cbn [mbind result_bind]; rewrite Heq, Z.eqb_refl; reflexivity.
    + cbn. auto 10.
  - intros Hne.
    destruct Hmode as [-> |[-> | ->]]; rewrite Hloop;
      cbn [mbind result_bind fst snd]; rewrite Hown0;
      cbn [mbind result_bind];
      destruct (Z.eqb_spec (total xs) own); try contradiction; reflexivity.
Qed.

(** X11. [addTensors] along HEAD, SEQUENCE or DIMENSION, on constituents
    that agree with the tensor on the other three axes and have non-negative
    extents [xs] along the axis (their sum within [int]): when the sum is the
    tensor's own extent along the axis, the tensor becomes an aggregate over
    these constituents whose table holds the running sums of [xs], shape,
    tag and host pointer untouched; when it is not, an assertion fails. *)
Theorem addTensors_builds_table
    (σ : gmap Z Tensor) (t : Tensor) (ts : list ptr) (xs : list Z)
    (dim : Chl) (own : Z) :
  simple_mode dim →
  Forall2 (constituent σ dim t) ts xs →
  Forall (fun x => 0 <= x) xs →
  total xs <= INT_MAX →
  along dim t = Ok own →
  (total xs = own →
   ∃ t',
     addTensors σ t ts dim = Ok t' ∧
     aggregated_ t' = true ∧ aggregated_dim_ t' = dim ∧
     aggregated_tensors_ t' = ts ∧
     aggregated_dims_ t' = prefix_sums 0 xs ∧
     shape_ t' = shape_ t ∧ ctype_ t' = ctype_ t ∧
     host_ptr_ t' = host_ptr_ t) ∧
  (total xs ≠ own → addTensors σ t ts dim = Err AssertFailed).
Proof.
  intros Hmode Hcs Hpos Hmax Hown.
  destruct (addTensors_table σ t ts xs dim own Hmode Hcs Hpos Hmax Hown)
    as [Hyes Hno].
  split.
  - intros Heq. destruct (Hyes Heq) as (t' & Hadd & Hrest).
    exists t'. split; [exact Hadd | exact Hrest].
  - exact Hno.
Qed.

Lemma three_rows_constituents :
  Forall2 (constituent three_rows SEQUENCE (plain BSHD [1; 6; 2; 4] 48))
    [7; 8; 9] [2; 3; 1].
Proof.
  repeat constructor.
  - exists (owner BSHD [1; 2; 2; 4] 16 4096).
    split; [reflexivity|]. split; [reflexivity|].
    split; [|split]; eexists; split; reflexivity.
  - exists (owner BSHD [1; 3; 2; 4] 24 8192).
    split; [reflexivity|]. split; [reflexivity|].
    split; [|split]; eexists; split; reflexivity.
  - exists (owner BSHD [1; 1; 2; 4] 8 12288).
    split; [reflexivity|]. split; [reflexivity|].
    split; [|split]; eexists; split; reflexivity.
Defined.

Lemma addTensors_builds_table_witness :
  ∃ t',
    addTensors three_rows (plain BSHD [1; 6; 2; 4] 48) [7; 8; 9] SEQUENCE
      = Ok t' ∧
    aggregated_ t' = true ∧ aggregated_dim_ t' = SEQUENCE ∧
    aggregated_tensors_ t' = [7; 8; 9] ∧
    aggregated_dims_ t' = prefix_sums 0 [2; 3; 1] ∧
    shape_ t' = [1; 6; 2; 4] ∧ ctype_ t' = BSHD ∧ host_ptr_ t' = nullptr.
Proof.
  refine (proj1 (addTensors_builds_table three_rows
                   (plain BSHD [1; 6; 2; 4] 48) [7; 8; 9] [2; 3; 1]
                   SEQUENCE 6 _ _ _ _ _) _).
  - right. left. reflexivity.
  - exact three_rows_constituents.
  - repeat constructor; lia.
  - vm_compute. discriminate.
  - reflexivity.
  - reflexivity.
Defined.

(** ** [addTensors], then [checkDim] *)

Lemma take_total_le (xs : list Z) (i k : nat) :
  Forall (fun x => 0 <= x) xs → (i <= k)%nat →
  total (take i xs) <= total (take k xs).
Proof.
  intros Hpos. revert i k.
  induction Hpos as [|x xs Hx Hrest IH]; intros i k Hik.
  - rewrite !take_nil. lia.
  - destruct i as [|i], k as [|k]; try lia; unfold total in *; simpl.
    + pose proof (total_nonneg (take k xs)) as Hn. unfold total in Hn.
      assert (0 <= foldr Z.add 0 (take k xs))
        by (apply Hn, Forall_take, Hrest). lia.
    + specialize (IH i k ltac:(lia)). lia.
Qed.

Lemma prefix_sums_lookup (xs : list Z) (start : Z) (k : nat) (x : Z) :
  xs !! k = Some x →
  prefix_sums start xs !! k = Some (start + total (take k xs) + x).
Proof.
  revert start k. induction xs as [|y xs IH]; intros start k Hk.
  - rewrite lookup_nil in Hk. discriminate.
  - destruct k as [|k]; simpl in *.
    + injection Hk as ->. unfold total. simpl. f_equal. lia.
    + rewrite (IH (start + y) k Hk). unfold total. simpl. f_equal. lia.
Qed.

Lemma prefix_sums_length (xs : list Z) (start : Z) :
  length (prefix_sums start xs) = length xs.
Proof.
  revert start. induction xs as [|y xs IH]; intros start; simpl;
    [reflexivity | rewrite IH; reflexivity].
Qed.

(** Every index below the total lies in exactly one constituent. *)
Lemma locate (xs : list Z) (x : Z) :
  Forall (fun y => 1 <= y) xs → 0 <= x < total xs →
  ∃ k xk, xs !! k = Some xk ∧
          total (take k xs) <= x < total (take k xs) + xk.
Proof.
  intros Hpos. revert x.
  induction Hpos as [|y xs Hy Hrest IH]; intros x Hx; unfold total in *;
    simpl in *; [lia|].
  destruct (Z.lt_ge_cases x y) as [Hlt|Hge].
  - exists O, y. simpl. split; [reflexivity | lia].
  - destruct (IH (x - y) ltac:(lia)) as (k & xk & Hk & Hb).
    exists (S k), xk. simpl. split; [exact Hk | lia].
Qed.

Lemma first_slot_of_prefix_sums (xs : list Z) (x : Z) (k : nat) (xk : Z) :
  Forall (fun y => 0 <= y) xs →
  xs !! k = Some xk →
  total (take k xs) <= x < total (take k xs) + xk →
  first_slot_above (prefix_sums 0 xs) x k.
Proof.
  intros Hpos Hk Hb. split.
  - exists (0 + total (take k xs) + xk).
    split; [apply prefix_sums_lookup, Hk | lia].
  - intros j y Hj Hy.
    assert (Hjlen : (j < length xs)%nat).
    { apply lookup_lt_Some in Hy. rewrite prefix_sums_length in Hy. exact Hy. }
    destruct (lookup_lt_is_Some_2 xs j Hjlen) as [xj Hxj].
    rewrite (prefix_sums_lookup xs 0 j xj Hxj) in Hy. injection Hy as <-.
    assert (Hsj : total (take (S j) xs) = total (take j xs) + xj).
    { rewrite (take_S_r xs j xj Hxj). unfold total.
      rewrite foldr_app. simpl.
      clear. induction (take j xs) as [|a l IH]; simpl; lia. }
    pose proof (take_total_le xs (S j) k Hpos ltac:(lia)). lia.
Qed.

(** X12. After [addTensors] along HEAD, SEQUENCE or DIMENSION over
    constituents of extents [xs], all at least 1, with the tensor's own
    extent their sum: an index below the total lies in exactly one
    constituent [k], and [checkDim] on the aggregate returns [k] and the
    index minus the extents of the constituents before [k], which is within
    the extent of [k], for every constituent but the first; an index in the
    first constituent makes it read the table at slot -1. *)
Theorem addTensors_then_checkDim
    (σ : gmap Z Tensor) (t : Tensor) (ts : list ptr) (xs : list Z)
    (dim : Chl) (b h s d : Z) :
  simple_mode dim →
  Forall2 (constituent σ dim t) ts xs →
  Forall (fun x => 1 <= x) xs →
  total xs <= INT_MAX →
  along dim t = Ok (total xs) →
  0 <= routed_index dim b h s d < total xs →
  ∃ t' k xk,
    addTensors σ t ts dim = Ok t' ∧
    xs !! k = Some xk ∧
    total (take k xs) <= routed_index dim b h s d < total (take k xs) + xk ∧
    match k with
    | O => checkDim σ t' b h s d = Err OutOfBounds
    | S _ =>
        checkDim σ t' b h s d
        = Ok (route_to dim (Z.of_nat k) b h s d
                (routed_index dim b h s d - total (take k xs)))
    end.
Proof.
  intros Hmode Hcs Hpos Hmax Hown Hx.
  assert (Hnn : Forall (fun x => 0 <= x) xs)
    by (eapply Forall_impl; [exact Hpos | simpl; intros; lia]).
  destruct (proj1 (addTensors_table σ t ts xs dim (total xs)
                     Hmode Hcs Hnn Hmax Hown) eq_refl)
    as (t' & Hadd & Hagg & Hdim & _ & Hdims & _).
  destruct (locate xs _ Hpos Hx) as (k & xk & Hk & Hb).
  exists t', k, xk. split; [exact Hadd|]. split; [exact Hk|].
  split; [exact Hb|].
  pose proof (first_slot_of_prefix_sums xs _ k xk Hnn Hk Hb) as Hfirst.
  rewrite <- Hdims, <- Hdim in Hfirst.
  destruct k as [|k].
  - apply checkDim_first_slot; [exact Hagg | rewrite Hdim; exact Hmode |].
    exact Hfirst.
  - assert (Hklen : (S k < length xs)%nat) by (apply lookup_lt_Some in Hk; lia).
    destruct (lookup_lt_is_Some_2 xs k ltac:(lia)) as [xk' Hk'].
    assert (Hprev : aggregated_dims_ t' !! k = Some (total (take (S k) xs))).
    { rewrite Hdims, (prefix_sums_lookup xs 0 k xk' Hk').
      rewrite (take_S_r xs k xk' Hk'). unfold total. rewrite foldr_app.
      simpl. f_equal.
      clear. induction (take k xs) as [|a l IH]; simpl; lia. }
    pose proof (total_nonneg (take (S k) xs) (Forall_take _ _ _ Hnn)).
    assert (Hlen : vec_size (aggregated_dims_ t') <= INT_MAX).
    { rewrite Hdims. unfold vec_size. rewrite prefix_sums_length.
      assert (Z.of_nat (length xs) <= total xs); [|lia].
      clear -Hpos. induction Hpos; unfold total in *; simpl length; simpl;
        lia. }
    rewrite <- Hdim.
    apply (checkDim_later_slot σ t' b h s d k _ Hagg);
      [rewrite Hdim; exact Hmode | exact Hlen | exact Hfirst | exact Hprev |].
    rewrite Hdim. unfold in_int, INT_MIN. lia.
Qed.

Lemma addTensors_then_checkDim_witness :
  ∃ t' k xk,
    addTensors three_rows (plain BSHD [1; 6; 2; 4] 48) [7; 8; 9] SEQUENCE
      = Ok t' ∧
    [2; 3; 1] !! k = Some xk ∧
    total (take k [2; 3; 1]) <= 4 < total (take k [2; 3; 1]) + xk ∧
    match k with
    | O => checkDim three_rows t' 0 1 4 3 = Err OutOfBounds
    | S _ =>
        checkDim three_rows t' 0 1 4 3
        = Ok (route_to SEQUENCE (Z.of_nat k) 0 1 4 3
                (4 - total (take k [2; 3; 1])))
    end.
Proof.
  apply (addTensors_then_checkDim three_rows (plain BSHD [1; 6; 2; 4] 48)
           [7; 8; 9] [2; 3; 1] SEQUENCE 0 1 4 3).
  - right. left. reflexivity.
  - exact three_rows_constituents.
  - repeat constructor; lia.
  - vm_compute. discriminate.
  - reflexivity.
  - vm_compute. split; [discriminate | reflexivity].
Defined.

(** ** Element access *)

(** [dataAt] reads where [ptrAt] points. *)
Lemma dataAt_at_ptrAt {Dtype : Type}
    (fuel : nat) (sz : Z) (m : Z → Dtype) (σ : gmap Z Tensor) (t : Tensor)
    (b h s d : Z) :
  dataAt fuel sz m σ t b h s d
  = match ptrAt fuel sz σ t b h s d with
    | Some (Ok a) => Some (Ok (m a))
    | Some (Err e) => Some (Err e)
    | None => None
    end.
Proof.
  revert t b h s d. induction fuel as [|fuel IH]; intros t b h s d.
  - simpl. destruct (aggregated_ t); simpl; [auto|].
    destruct (offset t b h s d); simpl; auto.
  - cbn [dataAt ptrAt].
    destruct (aggregated_ t); cbn [negb].
    + destruct (route σ t b h s d) as [[r t']|e]; [apply IH | auto].
    + destruct (offset t b h s d); simpl; auto.
Qed.

(** [setDataAt] writes where [ptrAt] points. *)
Lemma setDataAt_at_ptrAt {Dtype : Type}
    (fuel : nat) (sz : Z) (m : Z → Dtype) (σ : gmap Z Tensor) (t : Tensor)
    (b h s d : Z) (value : Dtype) :
  setDataAt fuel sz m σ t b h s d value
  = match ptrAt fuel sz σ t b h s d with
    | Some (Ok a) => Some (Ok (write m a value))
    | Some (Err e) => Some (Err e)
    | None => None
    end.
Proof.
  revert t b h s d. induction fuel as [|fuel IH]; intros t b h s d.
  - simpl. destruct (aggregated_ t); simpl; [auto|].
    destruct (offset t b h s d); simpl; auto.
  - cbn [setDataAt ptrAt].
    destruct (aggregated_ t); cbn [negb].
    + destruct (route σ t b h s d) as [[r t']|e]; [apply IH | auto].
    + destruct (offset t b h s d); simpl; auto.
Qed.

(** X13. At every index of every tensor, plain or aggregate of any
    depth, [dataAt] reads the element at the address [ptrAt] returns and
    [setDataAt] writes the element at that address and no other; the three
    fail together, with the same error. *)
Theorem dataAt_setDataAt_at_ptrAt {Dtype : Type}
    (fuel : nat) (sz : Z) (m : Z → Dtype) (σ : gmap Z Tensor) (t : Tensor)
    (b h s d : Z) (value : Dtype) :
  dataAt fuel sz m σ t b h s d
  = match ptrAt fuel sz σ t b h s d with
    | Some (Ok a) => Some (Ok (m a))
    | Some (Err e) => Some (Err e)
    | None => None
    end ∧
  setDataAt fuel sz m σ t b h s d value
  = match ptrAt fuel sz σ t b h s d with
    | Some (Ok a) => Some (Ok (write m a value))
    | Some (Err e) => Some (Err e)
    | None => None
    end.
Proof.
  split.
  - apply dataAt_at_ptrAt.
  - apply setDataAt_at_ptrAt.
Qed.

Lemma write_same {Dtype : Type} (m : Z → Dtype) (a : ptr) (v : Dtype) :
  write m a v a = v.
Proof. unfold write. rewrite Z.eqb_refl. reflexivity. Qed.

Lemma write_other {Dtype : Type} (m : Z → Dtype) (a a' : ptr) (v : Dtype) :
  a' ≠ a → write m a v a' = m a'.
Proof. intros H. unfold write. destruct (Z.eqb_spec a' a); [contradiction|reflexivity]. Qed.

(** X14. Whenever [setDataAt] returns, on any tensor, [dataAt] at the
    same index then returns the value written, and [dataAt] at an index
    that [ptrAt] sends to another address returns what it returned
    before. *)
Theorem setDataAt_then_dataAt {Dtype : Type}
    (fuel : nat) (sz : Z) (m m' : Z → Dtype) (σ : gmap Z Tensor) (t : Tensor)
    (b h s d : Z) (value : Dtype) :
  setDataAt fuel sz m σ t b h s d value = Some (Ok m') →
  dataAt fuel sz m' σ t b h s d = Some (Ok value) ∧
  (∀ b' h' s' d' a a',
     ptrAt fuel sz σ t b h s d = Some (Ok a) →
     ptrAt fuel sz σ t b' h' s' d' = Some (Ok a') →
     a' ≠ a →
     dataAt fuel sz m' σ t b' h' s' d' = dataAt fuel sz m σ t b' h' s' d').
Proof.
  intros Hset.
  rewrite (setDataAt_at_ptrAt fuel sz m σ t b h s d value) in Hset.
  destruct (ptrAt fuel sz σ t b h s d) as [[a|e]|] eqn:Hp;
    try discriminate.
  injection Hset as <-. split.
  - rewrite dataAt_at_ptrAt, Hp, write_same. reflexivity.
  - intros b' h' s' d' a0 a' [= <-] Hp' Hne.
    rewrite !dataAt_at_ptrAt, Hp', write_other by exact Hne. reflexivity.
Qed.

Lemma setDataAt_then_dataAt_witness :
  dataAt 0 4 (write (fun _ => 0) (4096 + 4 * 59) 7) ∅
    (owner BHDS [2; 3; 4; 5] 120 4096) 0 2 4 3 = Some (Ok 7).
Proof.
  apply (setDataAt_then_dataAt 0 4 (fun _ => 0)
           (write (fun _ => 0) (4096 + 4 * 59) 7) ∅
           (owner BHDS [2; 3; 4; 5] 120 4096) 0 2 4 3 7).
  reflexivity.
Defined.




(** ** [deepCopyFrom] between tensors of one tag *)

(** The whole call when no tag is reconciled and the child has no
    children of its own: the child is rewritten, the master gets the child
    appended to its list, and no other tensor changes. *)
Lemma deepCopyFrom_same_tag
    (σ : gmap Z Tensor) (this source : ptr) (child master : Tensor)
    (copyshape : bool) (so : list Z) (hr : Z) :
  σ !! this = Some child → σ !! source = Some master → this ≠ source →
  reconciles child master = false → child_tensors_ child = [] →
  vec_size (shape_ child) <= INT_MAX → vec_size (shape_ master) <= INT_MAX →
  ∃ child',
    deepCopyFrom σ this source copyshape so hr
    = Ok (<[source := addChildTensor this master]> (<[this := child']> σ)) ∧
    (so = [] →
     child'
     = deepCopyFrom_members copyshape master (setMasterTensor source child)) ∧
    (so ≠ [] →
     deepCopyFrom_window so hr master
       (deepCopyFrom_members false master (setMasterTensor source child))
     = Ok child').
Proof.
  intros Hchild Hmaster Hne Hrec Hkids Hlc Hlm.
  set (child0 := setMasterTensor source child).
  set (σ0 := <[this := child0]> σ).
  assert (H0t : σ0 !! this = Some child0) by apply lookup_insert_eq.
  assert (H0m : σ0 !! source = Some master).
  { unfold σ0. rewrite lookup_insert_ne by assumption. exact Hmaster. }
  pose proof (reconcile_off σ0 this child0 master H0t H0m Hrec) as Hoff.
  unfold deepCopyFrom, deepCopyFrom_bind.
  rewrite (load_Some _ _ _ Hchild). cbn [mbind result_bind].
  fold child0. fold σ0. rewrite Hoff. cbn [mbind result_bind].
  rewrite (load_Some _ _ _ H0t). cbn [mbind result_bind].
  rewrite (load_Some _ _ _ H0m). cbn [mbind result_bind].
  destruct (decide (so = [])) as [->|Hso].
  - rewrite bool_decide_eq_true_2 by reflexivity. cbn [negb].
    set (t2 := deepCopyFrom_members copyshape master child0).
    cbn [mbind result_bind].
    rewrite (load_Some _ this t2) by apply lookup_insert_eq.
    cbn [mbind result_bind].
    assert (Hk : child_tensors_ t2 = []).
    { unfold t2. destruct copyshape; cbn; exact Hkids. }
    rewrite Hk.
    rewrite (load_Some _ source master)
      by (rewrite lookup_insert_ne by assumption; exact H0m).
    cbn [mbind result_bind]. exists t2.
    split; [|split; [reflexivity | congruence]].
    unfold σ0. rewrite insert_insert_eq. reflexivity.
  - rewrite bool_decide_eq_false_2 by assumption. cbn [negb].
    set (t2 := deepCopyFrom_members false master child0).
    rewrite (load_Some _ this t2) by apply lookup_insert_eq.
    cbn [mbind result_bind].
    rewrite (load_Some _ source master)
      by (rewrite lookup_insert_ne by assumption; exact H0m).
    cbn [mbind result_bind].
    destruct (deepCopyFrom_window_spec so hr master t2 Hlm) as [sm Hwin];
      [exact Hlc|].
    rewrite Hwin. cbn [mbind result_bind].
    rewrite (load_Some _ this (set_shape_master sm (set_shape_offset so t2)))
      by apply lookup_insert_eq.
    cbn [mbind result_bind].
    change (child_tensors_ (set_shape_master sm (set_shape_offset so t2)))
      with (child_tensors_ child).
    rewrite Hkids.
    rewrite (load_Some _ source master)
      by (rewrite !lookup_insert_ne by assumption; exact H0m).
    cbn [mbind result_bind].
    exists (set_shape_master sm (set_shape_offset so t2)).
    split; [|split; [congruence | reflexivity]].
    unfold σ0. rewrite !insert_insert_eq. reflexivity.
Qed.

(** [offset] reads the window vectors, the tag and the shape vector. *)
Lemma offset_ext (t t' : Tensor) (b h s d : Z) :
  shape_offset_ t = shape_offset_ t' → shape_master_ t = shape_master_ t' →
  ctype_ t = ctype_ t' → shape_ t = shape_ t' →
  offset t b h s d = offset t' b h s d.
Proof. intros H1 H2 H3 H4. unfold offset. rewrite H1, H2, H3, H4. reflexivity. Qed.

Lemma offset_no_window_ext (t t' : Tensor) (b h s d : Z) :
  no_window t → no_window t' →
  ctype_ t = ctype_ t' → shape_ t = shape_ t' →
  offset t b h s d = offset t' b h s d.
Proof.
  unfold no_window. intros H1 H2 H3 H4. unfold offset.
  rewrite H1, H2, H3, H4. reflexivity.
Qed.

Lemma ptrAt_plain (fuel : nat) (sz : Z) (σ : gmap Z Tensor) (t : Tensor)
    (b h s d : Z) :
  aggregated_ t = false →
  ptrAt fuel sz σ t b h s d
  = Some (o ← offset t b h s d; Ok (host_ptr_ t + sz * o)).
Proof. intros Ha. destruct fuel; simpl; rewrite Ha; reflexivity. Qed.

(** X16. A tensor without children and without a window binds, by
    [deepCopyFrom] with the shape copied and no offset vector, to a master
    of the same tag, itself without a window, neither being an aggregate.
    Afterwards the child and the master resolve every index to the same
    address: [ptrAt] agrees on the two, so what [setDataAt] writes through
    one of them [dataAt] reads through the other. *)
Theorem deepCopyFrom_shares_elements
    (σ : gmap Z Tensor) (this source : ptr) (child master : Tensor) (hr : Z) :
  σ !! this = Some child → σ !! source = Some master → this ≠ source →
  ctype_ child = ctype_ master → child_tensors_ child = [] →
  no_window child → no_window master →
  aggregated_ child = false → aggregated_ master = false →
  vec_size (shape_ child) <= INT_MAX → vec_size (shape_ master) <= INT_MAX →
  ∃ σ' child' master',
    deepCopyFrom σ this source true [] hr = Ok σ' ∧
    σ' !! this = Some child' ∧ σ' !! source = Some master' ∧
    (∀ fuel sz b h s d,
       ptrAt fuel sz σ' child' b h s d = ptrAt fuel sz σ' master' b h s d) ∧
    (∀ (Dtype : Type) fuel sz (m m' : Z → Dtype) b h s d v,
       setDataAt fuel sz m σ' child' b h s d v = Some (Ok m') →
       dataAt fuel sz m' σ' master' b h s d = Some (Ok v)) ∧
    (∀ (Dtype : Type) fuel sz (m m' : Z → Dtype) b h s d v,
       setDataAt fuel sz m σ' master' b h s d v = Some (Ok m') →
       dataAt fuel sz m' σ' child' b h s d = Some (Ok v)).
Proof.
  intros Hchild Hmaster Hne Htag Hkids Hwc Hwm Hac Ham Hlc Hlm.
  assert (Hrec : reconciles child master = false).
  { unfold reconciles.
    rewrite (bool_decide_eq_true_2 (ctype_ child = ctype_ master)) by assumption.
    cbn [negb]. rewrite andb_false_r. reflexivity. }
  destruct (deepCopyFrom_same_tag σ this source child master true [] hr
              Hchild Hmaster Hne Hrec Hkids Hlc Hlm)
    as (child' & Hcall & Hc' & _).
  specialize (Hc' eq_refl).
  set (master' := addChildTensor this master).
  set (σ' := <[source := master']> (<[this := child']> σ)) in *.
  assert (Hptr : ∀ fuel sz b h s d,
            ptrAt fuel sz σ' child' b h s d = ptrAt fuel sz σ' master' b h s d).
  { intros. rewrite !ptrAt_plain by (subst child'; cbn; assumption).
    rewrite (offset_no_window_ext child' master');
      [subst child'; reflexivity | subst child'; exact Hwc | exact Hwm
      | subst child'; cbn; exact Htag | subst child'; reflexivity]. }
  exists σ', child', master'.
  split; [exact Hcall|].
  split; [unfold σ'; rewrite lookup_insert_ne by auto; apply lookup_insert_eq|].
  split; [apply lookup_insert_eq|].
  split; [exact Hptr|]. split.
  - intros Dtype fuel sz m m' b h s d v Hset.
    rewrite setDataAt_at_ptrAt in Hset. rewrite dataAt_at_ptrAt.
    rewrite <- Hptr.
    destruct (ptrAt fuel sz σ' child' b h s d) as [[a|e]|]; try discriminate.
    injection Hset as <-. rewrite write_same. reflexivity.
  - intros Dtype fuel sz m m' b h s d v Hset.
    rewrite setDataAt_at_ptrAt in Hset. rewrite dataAt_at_ptrAt.
    rewrite Hptr.
    destruct (ptrAt fuel sz σ' master' b h s d) as [[a|e]|]; try discriminate.
    injection Hset as <-. rewrite write_same. reflexivity.
Qed.

Lemma deepCopyFrom_shares_elements_witness :
  ∃ σ' child' master',
    deepCopyFrom
      (two_tensors (plain BSHD [] 0) (owner BSHD [1; 8; 2; 4] 64 4096))
      1 2 true [] 1 = Ok σ' ∧
    σ' !! 1 = Some child' ∧ σ' !! 2 = Some master' ∧
    ptrAt 0 4 σ' child' 0 1 5 3 = ptrAt 0 4 σ' master' 0 1 5 3.
Proof.
  destruct (deepCopyFrom_shares_elements
              (two_tensors (plain BSHD [] 0) (owner BSHD [1; 8; 2; 4] 64 4096))
              1 2 (plain BSHD [] 0) (owner BSHD [1; 8; 2; 4] 64 4096) 1)
    as (σ' & c' & m' & Hcall & Hc & Hm & Hptr & _).
  - apply two_tensors_child.
  - apply two_tensors_master.
  - discriminate.
  - reflexivity.
  - reflexivity.
  - reflexivity.
  - reflexivity.
  - reflexivity.
  - reflexivity.
  - vm_compute. discriminate.
  - vm_compute. discriminate.
  - exists σ', c', m'. auto.
Defined.

(** X17. A tensor without children binds, by [deepCopyFrom] with an
    offset vector of four entries, to a plain master of four axes and of the
    same 4-axis tag, with non-zero extents (B, H, S, D), in the case where
    the child's head extent equals the master's or is not 1 (a child of
    head extent 1 under a master of another head extent records a merged
    extent instead).  Afterwards the child records the
    offset vector and the master's extents, shares the master's host
    pointer, and its offset at (b, h, s, d) is the master's offset at the
    indices shifted by the offset vector and wrapped by [%] into the
    master's extents. *)
Theorem deepCopyFrom_window_maps_into_master
    (σ : gmap Z Tensor) (this source : ptr) (child master : Tensor)
    (copyshape : bool) (o0 o1 o2 o3 hr B H S D th : Z) :
  σ !! this = Some child → σ !! source = Some master → this ≠ source →
  ctype_ child = ctype_ master → is_5d (ctype_ master) = false →
  child_tensors_ child = [] →
  shape_offset_ master = [] → shape_master_ master = [] →
  vec_size (shape_ master) = 4 → vec_size (shape_ child) <= INT_MAX →
  batch master = Ok B → head master = Ok H →
  sequence master = Ok S → dimension master = Ok D →
  B ≠ 0 → H ≠ 0 → S ≠ 0 → D ≠ 0 →
  head child = Ok th → th = H ∨ th ≠ 1 →
  ∃ σ' child',
    deepCopyFrom σ this source copyshape [o0; o1; o2; o3] hr = Ok σ' ∧
    σ' !! this = Some child' ∧
    shape_offset_ child' = [o0; o1; o2; o3] ∧
    shape_master_ child' = [B; H; S; D] ∧
    shape_ child' = shape_ child ∧
    host_ptr_ child' = host_ptr_ master ∧
    (∀ b h s d,
       offset child' b h s d
       = offset master
           (wrap_int (Z.rem (int_add b o0) B))
           (wrap_int (Z.rem (int_add h o1) H))
           (wrap_int (Z.rem (int_add s o2) S))
           (wrap_int (Z.rem (int_add d o3) D))).
Proof.
  intros Hchild Hmaster Hne Htag H5 Hkids Hso Hsm Hlen Hlc
    Hb Hh Hs Hd HB HH HS HD Hth Hhead.
  assert (Hrec : reconciles child master = false).
  { unfold reconciles.
    rewrite (bool_decide_eq_true_2 (ctype_ child = ctype_ master)) by assumption.
    cbn [negb]. rewrite andb_false_r. reflexivity. }
  assert (Hlm : vec_size (shape_ master) <= INT_MAX)
    by (rewrite Hlen; unfold INT_MAX; lia).
  destruct (deepCopyFrom_same_tag σ this source child master copyshape
              [o0; o1; o2; o3] hr Hchild Hmaster Hne Hrec Hkids Hlc Hlm)
    as (child' & Hcall & _ & Hwin).
  specialize (Hwin ltac:(discriminate)).
  set (t2 := deepCopyFrom_members false master (setMasterTensor source child))
    in *.
  assert (Hth2 : head t2 = Ok th) by exact Hth.
  assert (Hc' : child' = set_shape_master [B; H; S; D]
                           (set_shape_offset [o0; o1; o2; o3] t2)).
  { unfold deepCopyFrom_window in Hwin. rewrite Hb, Hh, Hs, Hd, Hth2 in Hwin.
    cbn [mbind result_bind] in Hwin.
    destruct (Z.eqb_spec H th) as [Heq|Hneq]; cbn [negb] in Hwin.
    - injection Hwin as <-. reflexivity.
    - destruct (Z.eqb_spec th 1) as [->|_]; [destruct Hhead; congruence|].
      cbn [andb] in Hwin. injection Hwin as <-. reflexivity. }
  exists (<[source := addChildTensor this master]> (<[this := child']> σ)), child'.
  split; [exact Hcall|].
  split; [rewrite lookup_insert_ne by auto; apply lookup_insert_eq|].
  subst child'. cbn [shape_offset_ shape_master_ shape_ host_ptr_
                     set_shape_master set_shape_offset].
  split; [reflexivity|]. split; [reflexivity|].
  split; [reflexivity|]. split; [reflexivity|].
  intros b h s d.
  pose proof (offset_plain_nest master B H S D Hso Hsm Hlen Hb Hh Hs Hd) as Hm.
  unfold offset at 1.
  cbn [shape_offset_ shape_master_ ctype_ set_shape_master set_shape_offset].
  change (vec_size [o0; o1; o2; o3] =? 4) with true.
  change (vec_size [B; H; S; D] =? 4) with true. cbn [andb].
  change (vec_at [B; H; S; D] 0) with (Ok B).
  change (vec_at [B; H; S; D] 1) with (Ok H).
  change (vec_at [B; H; S; D] 2) with (Ok S).
  change (vec_at [B; H; S; D] 3) with (Ok D).
  change (vec_at [o0; o1; o2; o3] 0) with (Ok o0).
  change (vec_at [o0; o1; o2; o3] 1) with (Ok o1).
  change (vec_at [o0; o1; o2; o3] 2) with (Ok o2).
  change (vec_at [o0; o1; o2; o3] 3) with (Ok o3).
  cbn [mbind result_bind]. unfold int_rem.
  destruct (Z.eqb_spec B 0); [contradiction|].
  destruct (Z.eqb_spec H 0); [contradiction|].
  destruct (Z.eqb_spec S 0); [contradiction|].
  destruct (Z.eqb_spec D 0); [contradiction|].
  cbn [mbind result_bind].
  change (ctype_ t2) with (ctype_ child). rewrite Htag.
  destruct (ctype_ master); try discriminate; rewrite Hm; reflexivity.
Qed.

Lemma deepCopyFrom_window_maps_into_master_witness :
  ∃ σ' child',
    deepCopyFrom
      (two_tensors (plain BSHD [1; 3; 2; 4] 24) (owner BSHD [1; 8; 2; 4] 64 4096))
      1 2 true [0; 0; 6; 0] 1 = Ok σ' ∧
    σ' !! 1 = Some child' ∧
    shape_master_ child' = [1; 2; 8; 4] ∧
    offset child' 0 1 3 2
    = offset (owner BSHD [1; 8; 2; 4] 64 4096)
        (wrap_int (Z.rem (int_add 0 0) 1)) (wrap_int (Z.rem (int_add 1 0) 2))
        (wrap_int (Z.rem (int_add 3 6) 8)) (wrap_int (Z.rem (int_add 2 0) 4)).
Proof.
  destruct (deepCopyFrom_window_maps_into_master
              (two_tensors (plain BSHD [1; 3; 2; 4] 24)
                           (owner BSHD [1; 8; 2; 4] 64 4096))
              1 2 (plain BSHD [1; 3; 2; 4] 24) (owner BSHD [1; 8; 2; 4] 64 4096)
              true 0 0 6 0 1 1 2 8 4 2)
    as (σ' & c' & Hcall & Hc & _ & Hsm & _ & _ & Hoff).
  - apply two_tensors_child.
  - apply two_tensors_master.
  - discriminate.
  - reflexivity.
  - reflexivity.
  - reflexivity.
  - reflexivity.
  - reflexivity.
  - reflexivity.
  - vm_compute. discriminate.
  - reflexivity.
  - reflexivity.
  - reflexivity.
  - reflexivity.
  - discriminate.
  - discriminate.
  - discriminate.
  - discriminate.
  - reflexivity.
  - left. reflexivity.
  - exists σ', c'. auto.
Defined.

(** X18. After a [deepCopyFrom] that reconciles no tag, on a tensor
    without children of its own, the child points at its master, is the last
    entry of the master's child list and holds the master's host pointer;
    [free()] and the destructor of the child release nothing, a master that
    owned its buffer still owns it and releases it on [free()], and no other
    tensor has changed. *)
Theorem deepCopyFrom_leaves_buffer_with_master
    (σ : gmap Z Tensor) (this source : ptr) (child master : Tensor)
    (copyshape : bool) (so : list Z) (hr : Z) :
  σ !! this = Some child → σ !! source = Some master →
  this ≠ source → source ≠ nullptr →
  reconciles child master = false → child_tensors_ child = [] →
  vec_size (shape_ child) <= INT_MAX → vec_size (shape_ master) <= INT_MAX →
  ∃ σ' child' master',
    deepCopyFrom σ this source copyshape so hr = Ok σ' ∧
    σ' !! this = Some child' ∧ σ' !! source = Some master' ∧
    (∀ p, p ≠ this → p ≠ source → σ' !! p = σ !! p) ∧
    masterTensor child' = source ∧
    child_tensors_ master' = child_tensors_ master ++ [this] ∧
    host_ptr_ child' = host_ptr_ master ∧
    free child' = (child', []) ∧ Tensor_dtor child' = (child', []) ∧
    (owns_buffer master →
     owns_buffer master' ∧ (free master').2 = [host_ptr_ master]).
Proof.
  intros Hchild Hmaster Hne Hnull Hrec Hkids Hlc Hlm.
  destruct (deepCopyFrom_same_tag σ this source child master copyshape so hr
              Hchild Hmaster Hne Hrec Hkids Hlc Hlm)
    as (child' & Hcall & Hnil & Hwin).
  set (t2 := deepCopyFrom_members false master (setMasterTensor source child))
    in *.
  assert (Hfields : masterTensor child' = source ∧
                    host_ptr_ child' = host_ptr_ master).
  { destruct (decide (so = [])) as [Hso|Hso].
    - rewrite (Hnil Hso). destruct copyshape; cbn; auto.
    - specialize (Hwin Hso).
      destruct (deepCopyFrom_window_spec so hr master t2 Hlm) as [sm Hsm];
        [exact Hlc|].
      rewrite Hsm in Hwin. injection Hwin as <-. cbn. auto. }
  destruct Hfields as [Hmt Hhp].
  exists (<[source := addChildTensor this master]> (<[this := child']> σ)),
    child', (addChildTensor this master).
  split; [exact Hcall|].
  split; [rewrite lookup_insert_ne by auto; apply lookup_insert_eq|].
  split; [apply lookup_insert_eq|].
  split; [intros p Hp1 Hp2; rewrite !lookup_insert_ne by auto; reflexivity|].
  split; [exact Hmt|]. split; [reflexivity|]. split; [exact Hhp|].
  assert (Hm0 : (masterTensor child' =? nullptr) = false)
    by (rewrite Hmt; apply Z.eqb_neq; exact Hnull).
  split; [|split].
  - unfold free. destruct (aggregated_ child'); [reflexivity|].
    rewrite Hm0, andb_false_r. reflexivity.
  - unfold Tensor_dtor. rewrite Hm0, andb_false_r. reflexivity.
  - intros Ho.
    assert (Ho' : owns_buffer (addChildTensor this master)) by exact Ho.
    split; [exact Ho'|].
    pose proof Ho' as (_ & _ & Ha). apply owns_buffer_test in Ho'.
    unfold free. rewrite Ha. rewrite Ha, andb_true_r in Ho'. rewrite Ho'.
    reflexivity.
Qed.

Lemma deepCopyFrom_leaves_buffer_with_master_witness :
  ∃ σ' child' master',
    deepCopyFrom
      (two_tensors (plain BSHD [1; 3; 2; 4] 24) (owner BSHD [1; 8; 2; 4] 64 4096))
      1 2 true [0; 0; 5; 0] 1 = Ok σ' ∧
    σ' !! 1 = Some child' ∧ σ' !! 2 = Some master' ∧
    masterTensor child' = 2 ∧ child_tensors_ master' = [] ++ [1] ∧
    host_ptr_ child' = 4096 ∧
    free child' = (child', []) ∧ (free master').2 = [4096].
Proof.
  destruct (deepCopyFrom_leaves_buffer_with_master
              (two_tensors (plain BSHD [1; 3; 2; 4] 24)
                           (owner BSHD [1; 8; 2; 4] 64 4096))
              1 2 (plain BSHD [1; 3; 2; 4] 24) (owner BSHD [1; 8; 2; 4] 64 4096)
              true [0; 0; 5; 0] 1)
    as (σ' & c' & m' & Hcall & Hc & Hm & _ & Hmt & Hk & Hp & Hf & _ & Hown).
  - apply two_tensors_child.
  - apply two_tensors_master.
  - discriminate.
  - discriminate.
  - reflexivity.
  - reflexivity.
  - vm_compute. discriminate.
  - vm_compute. discriminate.
  - exists σ', c', m'.
    destruct Hown as [_ Hrel].
    { unfold owns_buffer, nullptr. cbn. split; [lia | auto]. }
    auto 10.
Defined.

(** ** More on the aligned allocator *)

Module SystemMemoryManagerFrame.
Import SystemMemoryManager.
Import SystemMemoryManagerFacts.

(** What [alloc] returns and the heap it leaves, under the conditions of a
    successful [malloc]. *)
Lemma alloc_result (h : heap) (origin size k : Z) :
  0 < size → 0 <= k < 64 → 0 < origin →
  origin + (size + sizeof_ptr + 2 ^ k - 1) <= 2 ^ 64 →
  let p := 2 ^ k * ((origin + sizeof_ptr + 2 ^ k - 1) / 2 ^ k) in
  alloc h origin size (2 ^ k)
  = Ok (p, mkHeap (store_ptr (bytes h) (p - sizeof_ptr) origin)
                  (<[origin := size + sizeof_ptr + 2 ^ k - 1]> (blocks h))) ∧
  p mod 2 ^ k = 0 ∧
  origin + sizeof_ptr <= p < origin + sizeof_ptr + 2 ^ k.
Proof.
  intros Hsize Hk Horigin Hfit.
  assert (Hpow : 0 < 2 ^ k) by (apply Z.pow_pos_nonneg; lia).
  unfold sizeof_ptr in *.
  set (x := origin + 8 + 2 ^ k - 1).
  assert (Hx : 0 <= x < 2 ^ 64) by (unfold x; lia).
  destruct (align_up x k ltac:(lia) ltac:(lia)) as [Hmul Hnear].
  cbv zeta. split; [|split; [exact Hmul | unfold x in *; lia]].
  unfold alloc, malloc, nullptr, sizeof_ptr.
  destruct (Z.ltb_spec 0 size); [|lia].
  destruct (Z.eqb_spec origin 0); [lia|].
  cbn [assert mbind result_bind negb blocks bytes].
  fold x. rewrite (Z.mod_small x (2 ^ 64) Hx : wrap_size x = x).
  rewrite align_mask by assumption.
  unfold wrap_size. rewrite (Z.mod_small (size + 8 + 2 ^ k - 1)) by lia.
  reflexivity.
Qed.

Lemma align_formula (p k : Z) :
  0 <= k < 64 → 0 <= p → p + 2 ^ k - 1 < 2 ^ 64 →
  align p (2 ^ k) = 2 ^ k * ((p + 2 ^ k - 1) / 2 ^ k).
Proof.
  intros Hk Hp Hfit.
  assert (Hpow : 0 < 2 ^ k < 2 ^ 64).
  { split; [apply Z.pow_pos_nonneg; lia | apply Z.pow_lt_mono_r; lia]. }
  rewrite <- (align_mask (p + 2 ^ k - 1) k) by lia.
  unfold align. f_equal; [apply Z.mod_small; lia|].
  unfold wrap_size. rewrite (Z.mod_small (2 ^ k - 1)) by lia.
  f_equal. unfold Z.lnot. lia.
Qed.

(** X19. For an alignment that is a power of two, the static helper
    [align] rounds an address up to the next multiple of the alignment, and
    the address [alloc] returns is [align] of the address just past the
    hidden word: the least multiple of the alignment that leaves room for
    the pointer-sized word after the address [malloc] returned, fewer than
    [alignment] bytes beyond it. *)
Theorem alloc_returns_least_aligned (h : heap) (origin size k : Z) :
  0 < size → 0 <= k < 64 → 0 < origin →
  origin + (size + sizeof_ptr + 2 ^ k - 1) <= 2 ^ 64 →
  ∃ p h',
    alloc h origin size (2 ^ k) = Ok (p, h') ∧
    p = align (origin + sizeof_ptr) (2 ^ k) ∧
    p mod 2 ^ k = 0 ∧
    origin + sizeof_ptr <= p < origin + sizeof_ptr + 2 ^ k ∧
    (∀ q, origin + sizeof_ptr <= q → q mod 2 ^ k = 0 → p <= q).
Proof.
  intros Hsize Hk Horigin Hfit.
  destruct (alloc_result h origin size k Hsize Hk Horigin Hfit)
    as (Hal & Hmod & Hnear).
  assert (Hpow : 0 < 2 ^ k) by (apply Z.pow_pos_nonneg; lia).
  eexists _, _. split; [exact Hal|].
  split; [|split; [exact Hmod | split; [exact Hnear|]]].
  - rewrite align_formula by (unfold sizeof_ptr in *; lia). reflexivity.
  - intros q Hq Hqm.
    set (p := 2 ^ k * ((origin + sizeof_ptr + 2 ^ k - 1) / 2 ^ k)) in *.
    destruct (Z.le_gt_cases p q) as [|Hlt]; [assumption|exfalso].
    apply Z.mod_divide in Hqm; [|lia]. destruct Hqm as [c Hc].
    apply Z.mod_divide in Hmod; [|lia]. destruct Hmod as [c' Hc'].
    assert (c < c') by nia. assert (c + 1 <= c') by lia.
    assert ((c + 1) * 2 ^ k <= c' * 2 ^ k)
      by (apply Z.mul_le_mono_nonneg_r; lia).
    lia.
Qed.

Lemma alloc_returns_least_aligned_witness :
  ∃ p h',
    alloc (mkHeap (fun _ => 0) ∅) 4104 100 (2 ^ 6) = Ok (p, h') ∧
    p = align (4104 + sizeof_ptr) (2 ^ 6) ∧
    p mod 2 ^ 6 = 0 ∧
    4104 + sizeof_ptr <= p < 4104 + sizeof_ptr + 2 ^ 6 ∧
    (∀ q, 4104 + sizeof_ptr <= q → q mod 2 ^ 6 = 0 → p <= q).
Proof.
  apply (alloc_returns_least_aligned (mkHeap (fun _ => 0) ∅) 4104 100 6);
    unfold sizeof_ptr; lia.
Defined.





End SystemMemoryManagerFrame.

(** ** [fullData] *)

Section Fill.

Context {Dtype : Type} (v : Dtype).






End Fill.



(** ** [transShape], the supported transitions *)

(** X22. From the tag [BSHD], [transShape] by ([SEQUENCE], [DIMENSION])
    gives the tag [BHDS] and by ([BATCH], [SEQUENCE]) the tag [SBHD], the
    four-argument [reshape] laying the extents out in the order of the new
    tag. When that layout passes the checks of [reshape], the call
    returns a tensor with the new tag and the new layout, [transed_] set,
    [undiffusion_] as passed, the same buffer and the same four logical
    extents; and any further [transShape] on the result changes nothing. *)
Theorem transShape_keeps_extents
    (t : Tensor) (dim_a dim_b : Chl) (c : ChlType) (u : bool) (sh : list Z) :
  ctype_ t = BSHD →
  (dim_a = SEQUENCE ∧ dim_b = DIMENSION ∧ c = BHDS) ∨
  (dim_a = BATCH ∧ dim_b = SEQUENCE ∧ c = SBHD) →
  relayable c t sh →
  ∃ t',
    transShape t dim_a dim_b u = Ok t' ∧
    ctype_ t' = c ∧ shape_ t' = sh ∧
    transed_ t' = true ∧ undiffusion_ t' = u ∧
    host_ptr_ t' = host_ptr_ t ∧
    extents t' = extents t ∧
    (∀ a' b' u', transShape t' a' b' u' = Ok t').
Proof.
  intros Htag Hcase Hrel.
  destruct (relayable_extents c t sh Hrel) as [Hext _].
  destruct (relayable_reshape4 c t sh Hrel)
    as (b & h & s & d & r & Hb & Hh & Hs & Hd & Hre & _).
  destruct (reshaped_members (set_ctype c t) sh)
    as (Hsh & _ & _ & Hptr & _ & _ & Hc & _).
  exists (set_undiffusion u (set_transed true (reshaped (set_ctype c t) sh))).
  assert (Hcall : transShape t dim_a dim_b u
                  = Ok (set_undiffusion u
                          (set_transed true (reshaped (set_ctype c t) sh)))).
  { unfold transShape.
    destruct Hcase as [(-> & -> & ->)|(-> & -> & ->)].
    - rewrite decide_True by auto.
      rewrite Hb, Hh, Hd, Hs. cbn [mbind result_bind]. rewrite Hre.
      reflexivity.
    - rewrite decide_False by (intros (? & ? & ?); discriminate).
      rewrite decide_False by (intros (? & ? & ?); discriminate).
      rewrite decide_True by auto.
      rewrite Hb, Hh, Hd, Hs. cbn [mbind result_bind]. rewrite Hre.
      reflexivity. }
  split; [exact Hcall|].
  split; [cbn; exact Hc|]. split; [cbn; exact Hsh|].
  split; [reflexivity|]. split; [reflexivity|].
  split; [cbn; exact Hptr|].
  split; [rewrite <- Hext; apply extents_ext; reflexivity|].
  intros a' b' u'. unfold transShape.
  assert (Hc' : ctype_ (set_undiffusion u
                  (set_transed true (reshaped (set_ctype c t) sh))) = c)
    by (cbn; exact Hc).
  rewrite !decide_False;
    [reflexivity | | |];
    intros (_ & _ & Hbad); rewrite Hc' in Hbad;
    destruct Hcase as [(_ & _ & ->)|(_ & _ & ->)]; discriminate.
Qed.

Lemma transShape_keeps_extents_witness :
  ∃ t',
    transShape (plain BSHD [2; 5; 3; 4] 120) SEQUENCE DIMENSION true = Ok t' ∧
    ctype_ t' = BHDS ∧ shape_ t' = [2; 3; 4; 5] ∧
    transed_ t' = true ∧ undiffusion_ t' = true ∧
    host_ptr_ t' = host_ptr_ (plain BSHD [2; 5; 3; 4] 120) ∧
    extents t' = extents (plain BSHD [2; 5; 3; 4] 120) ∧
    (∀ a' b' u', transShape t' a' b' u' = Ok t').
Proof.
  apply (transShape_keeps_extents (plain BSHD [2; 5; 3; 4] 120)
           SEQUENCE DIMENSION BHDS true [2; 3; 4; 5]).
  - reflexivity.
  - left. auto.
  - exists 2, 3, 5, 4. repeat (split; [reflexivity|]).
    unfold valid_shape. simpl. unfold INT_MAX. lia.
Defined.
